(** * Test positivity: a shallow embedding of [libs/test_positivity.py]

    The Python module computes, from cumulative counters reported per region
    and date, one candidate positivity series per registered [Method] and
    then keeps, per region, one series together with the name of the method
    it came from.  The pandas operations the module calls are written out
    below with their documented semantics, one definition per call, in the
    order [AllMethods.run] applies them.

    Conventions of the embedding:
    - a calendar date is its day number, an integer ([Z]); [pd.date_range]
      with daily frequency is an interval of consecutive integers;
    - a cumulative counter is an integer count; pandas stores it as a
      float64, in which every integer below 2^53 and the differences of
      such integers are exact.  A missing reading (NaN) is [None];
    - a ratio of two deltas is a float64.  The three special values that
      IEEE-754 division produces are kept apart ([NaN], [PosInf],
      [NegInf]); a finite quotient is kept as the pair of its operands,
      which determines the float that numpy computes;
    - Python exceptions are values of [exn]; a computation that may raise
      has type [result A]. *)

From Stdlib Require Import ZArith String List Sorted Permutation Lia.
From stdpp Require Import base decidable option list strings sorting.

Local Open Scope string_scope.
Local Open Scope Z_scope.

(** ** Exceptions *)

Inductive exn := AssertionError | KeyError | ValueError.

Definition result (A : Type) : Type := exn + A.

Definition ret {A} (a : A) : result A := inr a.
Definition raise {A} (e : exn) : result A := inl e.
Definition bind {A B} (m : result A) (k : A → result B) : result B :=
  match m with inl e => inl e | inr a => k a end.

Notation "'let*' x := m 'in' k" := (bind m (λ x, k))
  (at level 10, x name, m at level 100, k at level 200, only parsing).

#[global] Instance result_fmap : FMap result :=
  λ A B f m, match m with inl e => inl e | inr a => inr (f a) end.

Definition assert_ (b : bool) : result unit :=
  if b then ret tt else raise AssertionError.

(** ** Identifiers and cells *)

Abbreviation FieldName := string (only parsing).
Abbreviation LocationId := string (only parsing).
Abbreviation Date := Z (only parsing).

(** A float64 produced by dividing two deltas. *)
Inductive ratio := NaN | PosInf | NegInf | Quot (n d : Z).

#[global] Instance ratio_eq_dec : EqDecision ratio.
Proof. solve_decision. Defined.

(** What pandas needs of a cell: the missing value and [notna]. *)
Class Cell (C : Type) := { nan : C; notna : C → bool }.

#[global] Instance count_cell : Cell (option Z) :=
  {| nan := None; notna := λ c, match c with Some _ => true | None => false end |}.

(** [notna] is false on NaN only: an infinity is not a missing value. *)
#[global] Instance ratio_cell : Cell ratio :=
  {| nan := NaN; notna := λ c, match c with NaN => false | _ => true end |}.

(** ** Sorting

    pandas orders index labels by their values: strings by code point,
    tuples lexicographically.  [sort_by] is a stable insertion sort on a
    key. *)

Section Sort.
Context {A K : Type} (key : A → K) (leb : K → K → bool).

Fixpoint insert_by (x : A) (l : list A) : list A :=
match l with
| [] => [x]
| y :: l' => if leb (key x) (key y) then x :: l else y :: insert_by x l'
end.

Definition sort_by (l : list A) : list A := foldr insert_by [] l.
End Sort.

Definition str_leb (a b : string) : bool := String.leb a b.

Definition pair_leb (a b : string * string) : bool :=
  match String.compare a.1 b.1 with
  | Lt => true
  | Gt => false
  | Eq => String.leb a.2 b.2
  end.

(** Sorted distinct values of a list: the levels of an index. *)
Definition unique_sorted {A} `{EqDecision A} (leb : A → A → bool) (l : list A) : list A :=
  sort_by id leb (remove_dups l).

(** ** Data frames

    A frame has date-labelled columns and rows labelled by a key; every row
    holds one cell per column. *)

Record DataFrame (K C : Type) := mkDataFrame {
  columns : list Date;
  rows : list (K * list C)
}.
Arguments mkDataFrame {K C} _ _.
Arguments columns {K C} _.
Arguments rows {K C} _.

(** The first entry stored under a label. *)
Fixpoint assoc {K V} `{EqDecision K} (k : K) (l : list (K * V)) : option V :=
  match l with
  | [] => None
  | (k', v) :: l' => if decide (k' = k) then Some v else assoc k l'
  end.

(** The cell of a row under a column label; NaN when the label is absent. *)
Definition at_label {C} `{Cell C} (cols : list Date) (cells : list C) (d : Date) : C :=
  default nan (assoc d (zip cols cells)).

(** The row of a frame under a key; [None] when the key is absent. *)
Definition row_of {K C} `{EqDecision K} (df : DataFrame K C) (k : K) : option (list C) :=
  assoc k (rows df).

(** [df.loc[k, d]] read leniently: NaN when the row or the column is absent. *)
Definition cell_of {K C} `{EqDecision K} `{Cell C} (df : DataFrame K C) (k : K) (d : Date) : C :=
  match row_of df k with
  | Some cells => at_label (columns df) cells d
  | None => nan
  end.

(** ** The time-series store *)

(** A long-form record: one reading of one variable for one region on one
    date. *)
Record Observation (V : Type) := mkObservation {
  variable : FieldName;
  location_id : LocationId;
  date : Date;
  value : V
}.
Arguments mkObservation {V} _ _ _ _.
Arguments variable {V} _.
Arguments location_id {V} _.
Arguments date {V} _.
Arguments value {V} _.

#[global] Instance observation_eq_dec {V} `{EqDecision V} : EqDecision (Observation V).
Proof. solve_decision. Defined.

(** [MultiRegionTimeseriesDataset]: the columns of its [data] frame, its
    readings in long form and the provenance attached to them. *)
Record MultiRegionTimeseriesDataset (V : Type) := mkDataset {
  data_columns : list FieldName;
  data_long : list (Observation V);
  provenance : list ((LocationId * FieldName) * string)
}.
Arguments mkDataset {V} _ _ _.
Arguments data_columns {V} _.
Arguments data_long {V} _.
Arguments provenance {V} _.

(** Modelled from the spec: [timeseries_long], of [libs/datasets/timeseries.py].
    It flattens the stored series into long-form records restricted to the
    requested fields; the records come field by field, in the order in which
    the fields are requested. *)
Definition timeseries_long {V} (ds : MultiRegionTimeseriesDataset V)
    (cols : list FieldName) : list (Observation V) :=
  flat_map (λ c, filter (λ o, variable o = c) (data_long ds)) cols.

(** Modelled from the spec: [from_timeseries_df], of
    [libs/datasets/timeseries.py].  It rebuilds a store from a frame with
    the columns location, date and one value column, and a provenance
    mapping. *)
Definition from_timeseries_df {V} (field : FieldName)
    (records : list ((LocationId * Date) * V))
    (prov : list ((LocationId * FieldName) * string)) : MultiRegionTimeseriesDataset V :=
  {| data_columns := [field];
     data_long := (λ r, mkObservation field r.1.1 r.1.2 r.2) <$> records;
     provenance := prov |}.

(** ** Methods *)

Record Method := mkMethod {
  name : string;
  numerator : FieldName;
  denominator : FieldName
}.

(** Field identifiers of [covidactnow.datapublic.common_fields]. *)
Module CommonFields.
Definition POSITIVE_TESTS : FieldName := "positive_tests".
Definition POSITIVE_TESTS_VIRAL : FieldName := "positive_tests_viral".
Definition POSITIVE_CASES_VIRAL : FieldName := "positive_cases_viral".
Definition TOTAL_TESTS : FieldName := "total_tests".
Definition TOTAL_TESTS_VIRAL : FieldName := "total_tests_viral".
Definition TOTAL_TESTS_PEOPLE_VIRAL : FieldName := "total_tests_people_viral".
Definition TOTAL_TEST_ENCOUNTERS_VIRAL : FieldName := "total_test_encounters_viral".
Definition DATE : string := "date".
Definition VARIABLE : string := "variable".
Definition LOCATION_ID : string := "location_id".
End CommonFields.

Definition TEST_POSITIVITY_METHODS : list Method :=
  [ mkMethod "positiveCasesViral_totalTestEncountersViral"
      CommonFields.POSITIVE_CASES_VIRAL CommonFields.TOTAL_TEST_ENCOUNTERS_VIRAL;
    mkMethod "positiveTestsViral_totalTestsViral"
      CommonFields.POSITIVE_TESTS_VIRAL CommonFields.TOTAL_TESTS_VIRAL;
    mkMethod "positiveCasesViral_totalTestsViral"
      CommonFields.POSITIVE_CASES_VIRAL CommonFields.TOTAL_TESTS_VIRAL;
    mkMethod "positiveTests_totalTestsViral"
      CommonFields.POSITIVE_TESTS CommonFields.TOTAL_TESTS_VIRAL;
    mkMethod "positiveCasesViral_totalTestsPeopleViral"
      CommonFields.POSITIVE_CASES_VIRAL CommonFields.TOTAL_TESTS_PEOPLE_VIRAL;
    mkMethod "positiveCasesViral_totalTestResults"
      CommonFields.POSITIVE_CASES_VIRAL CommonFields.TOTAL_TESTS ].

(** ** pandas operations used by [Method.calculate] *)

(** [x / y] on two cells of float64 frames holding integer counts: a zero
    divisor gives an infinity with the sign of the dividend, and NaN for
    0 / 0. *)
Definition truediv (x y : option Z) : ratio :=
  match x, y with
  | Some n, Some d =>
      if d =? 0 then (if n =? 0 then NaN else if 0 <? n then PosInf else NegInf)
      else Quot n d
  | _, _ => NaN
  end.

(** [delta_df.loc[field, :]]: the rows whose first index level is [field],
    without that level; [KeyError] when there is none. *)
Definition loc_field {C} (field : FieldName) (df : DataFrame (FieldName * LocationId) C)
    : result (DataFrame LocationId C) :=
  match filter (λ r : (FieldName * LocationId) * list C, r.1.1 = field) (rows df) with
  | [] => raise KeyError
  | rs => ret (mkDataFrame (columns df)
                 ((λ r : (FieldName * LocationId) * list C, (r.1.2, r.2)) <$> rs))
  end.

(** [a / b] on two frames with the same columns: the operands are aligned
    on the union of their row labels (in sorted order when the two indexes
    differ); a label absent from one operand reads NaN there. *)
Definition truediv_index (a b : DataFrame LocationId (option Z)) : list LocationId :=
  if decide ((rows a).*1 = (rows b).*1) then (rows a).*1
  else unique_sorted str_leb ((rows a).*1 ++ (rows b).*1).

Definition frame_truediv (a b : DataFrame LocationId (option Z)) : DataFrame LocationId ratio :=
  mkDataFrame (columns a)
    ((λ l, (l, (λ d, truediv (cell_of a l d) (cell_of b l d)) <$> columns a))
     <$> truediv_index a b).

(** The last statement of [Method.calculate], on a frame whose axes have
    passed its two assertions; the numerator is looked up first. *)
Definition calculate (m : Method) (delta_df : DataFrame (FieldName * LocationId) (option Z))
    : result (DataFrame LocationId ratio) :=
  let* num := loc_field (numerator m) delta_df in
  let* den := loc_field (denominator m) delta_df in
  ret (frame_truediv num den).

(** A frame with the names of its axes: [df.columns.names] and
    [df.index.names]. *)
Record NamedFrame (K C : Type) := mkNamedFrame {
  columns_names : list string;
  index_names : list string;
  frame : DataFrame K C
}.
Arguments mkNamedFrame {K C} _ _ _.
Arguments columns_names {K C} _.
Arguments index_names {K C} _.
Arguments frame {K C} _.

(** [Method.calculate]: the two assertions on the names of the axes of
    [delta_df], then the division. *)
Definition Method_calculate (m : Method)
    (delta_df : NamedFrame (FieldName * LocationId) (option Z))
    : result (DataFrame LocationId ratio) :=
  let* _ := assert_ (bool_decide (columns_names delta_df = [CommonFields.DATE])) in
  let* _ := assert_ (bool_decide (index_names delta_df
                                  = [CommonFields.VARIABLE; CommonFields.LOCATION_ID])) in
  calculate m (frame delta_df).

(** The delta table of [AllMethods.run] with the names of its axes:
    [set_index] and [unstack] leave the index levels variable and location,
    and [rename_axis] names the columns. *)
Definition delta_axes (diff_df : DataFrame (FieldName * LocationId) (option Z))
    : NamedFrame (FieldName * LocationId) (option Z) :=
  mkNamedFrame [CommonFields.DATE] [CommonFields.VARIABLE; CommonFields.LOCATION_ID] diff_df.

(** ** pandas operations used by [AllMethods.run] *)

(** [min] and [max] of a date index; [None] is NaT, of an empty index. *)
Definition dates_min (ds : list Date) : option Date :=
  match ds with [] => None | d :: ds' => Some (foldr Z.min d ds') end.
Definition dates_max (ds : list Date) : option Date :=
  match ds with [] => None | d :: ds' => Some (foldr Z.max d ds') end.

(** [pd.date_range] raises [ValueError] when a bound is NaT. *)
Definition not_nat (d : option Date) : result Date :=
  match d with Some d => ret d | None => raise ValueError end.

(** [pd.date_range(start=, end=)]: every day from [start] to [end]. *)
Definition date_range (start_ end_ : Date) : list Date :=
  seqZ start_ (end_ - start_ + 1).

(** [pd.date_range(end=, periods=)]: the [periods] days ending at [end]. *)
Definition date_range_end (end_ : Date) (periods : nat) : list Date :=
  seqZ (end_ - Z.of_nat periods + 1) (Z.of_nat periods).

(** [Index.intersection] of two daily ranges. *)
Definition intersection (a b : list Date) : list Date :=
  filter (λ d, d ∈ b) a.

Definition obs_key {V} (o : Observation V) : FieldName * LocationId :=
  (variable o, location_id o).

(** The entry of the long series under an index label. *)
Definition obs_entry {V} (o : Observation V) : ((FieldName * LocationId) * Date) * V :=
  ((obs_key o, date o), value o).

(** The reading stored for a key on a date; NaN when there is none. *)
Definition reading (long : list (Observation (option Z)))
    (k : FieldName * LocationId) (d : Date) : option Z :=
  default None (assoc (k, d) (obs_entry <$> long)).

(** [input_long.unstack(DATE)] on the series indexed by (variable,
    location, date): one row per (variable, location) and one column per
    date of the index, both sorted; [ValueError] when two records share an
    index entry. *)
Definition unstack (long : list (Observation (option Z)))
    : result (DataFrame (FieldName * LocationId) (option Z)) :=
  if decide (NoDup ((obs_entry <$> long).*1)) then
    let cols := unique_sorted Z.leb (date <$> long) in
    ret (mkDataFrame cols
           ((λ k, (k, reading long k <$> cols)) <$> unique_sorted pair_leb (obs_key <$> long)))
  else raise ValueError.

(** [.reindex(columns=new_cols)] *)
Definition reindex_columns {K C} `{Cell C} (new_cols : list Date) (df : DataFrame K C)
    : DataFrame K C :=
  mkDataFrame new_cols
    ((λ r : K * list C, (r.1, at_label (columns df) r.2 <$> new_cols)) <$> rows df).

(** The cell at a position of a row; NaN outside the row. *)
Definition at_pos (cells : list (option Z)) (i : Z) : option Z :=
  if decide (0 ≤ i) then default None (cells !! Z.to_nat i) else None.

Definition sub (x y : option Z) : option Z :=
  match x, y with Some a, Some b => Some (a - b) | _, _ => None end.

(** [.diff(periods=, axis=1)]: every cell minus the cell [periods] columns
    before it in the same row. *)
Definition diff {K} (periods : Z) (df : DataFrame K (option Z)) : DataFrame K (option Z) :=
  mkDataFrame (columns df)
    ((λ r : K * list (option Z),
        (r.1, imap (λ i x, sub x (at_pos r.2 (Z.of_nat i - periods))) r.2)) <$> rows df).

(** A dict built by a comprehension keeps the position of the first
    occurrence of a key and the value of its last. *)
Fixpoint dict_set {V} (k : string) (v : V) (d : list (string * V)) : list (string * V) :=
  match d with
  | [] => [(k, v)]
  | (k', v') :: d' => if decide (k' = k) then (k, v) :: d' else (k', v') :: dict_set k v d'
  end.

(** [{method.name: method.calculate(diff_df) for method in methods}], on
    the delta table with the axis names that [run] gave it. *)
Fixpoint calculate_from (methods : list Method)
    (diff_df : DataFrame (FieldName * LocationId) (option Z))
    (d : list (string * DataFrame LocationId ratio))
    : result (list (string * DataFrame LocationId ratio)) :=
  match methods with
  | [] => ret d
  | m :: methods' =>
      let* f := Method_calculate m (delta_axes diff_df) in
      calculate_from methods' diff_df (dict_set (name m) f d)
  end.

Definition calculate_all (methods : list Method)
    (diff_df : DataFrame (FieldName * LocationId) (option Z))
    : result (list (string * DataFrame LocationId ratio)) :=
  calculate_from methods diff_df [].

(** [pd.concat(dict, names=[VARIABLE])]: the frames one under the other,
    each row labelled with the key of its frame; [ValueError] on an empty
    dict. *)
Definition concat {K C} (cols : list Date) (frames : list (string * DataFrame K C))
    : result (DataFrame (string * K) C) :=
  match frames with
  | [] => raise ValueError
  | _ => ret (mkDataFrame cols
                (flat_map (λ kf : string * DataFrame K C,
                             (λ r : K * list C, ((kf.1, r.1), r.2)) <$> rows kf.2) frames))
  end.

(** [.reorder_levels([LOCATION_ID, VARIABLE])] *)
Definition reorder_levels {A B C} (df : DataFrame (A * B) C) : DataFrame (B * A) C :=
  mkDataFrame (columns df) ((λ r : (A * B) * list C, ((r.1.2, r.1.1), r.2)) <$> rows df).

(** [.dropna("index", "all")]: drop the rows whose cells are all NaN. *)
Definition dropna_all {K C} `{Cell C} (df : DataFrame K C) : DataFrame K C :=
  mkDataFrame (columns df) (filter (λ r : K * list C, existsb notna r.2 = true) (rows df)).

(** [.sort_index()] on a two-level index of strings. *)
Definition sort_index {C} (df : DataFrame (string * string) C) : DataFrame (string * string) C :=
  mkDataFrame (columns df) (sort_by fst pair_leb (rows df)).

(** [pd.CategoricalDtype(categories=, ordered=True)]: [ValueError] when a
    category is listed twice. *)
Definition CategoricalDtype (categories : list string) : result (list string) :=
  if decide (NoDup categories) then ret categories else raise ValueError.

(** [all_wide.loc[:, recent_date_range].notna().any(axis=1)], for one row *)
Definition has_recent_data {C} `{Cell C} (cols recent : list Date) (cells : list C) : bool :=
  existsb notna (at_label cols cells <$> recent).

(** First non-null entry of a column, read down the rows of a group. *)
Definition first_notna {C} `{Cell C} (upper lower : C) : C :=
  if notna upper then upper else lower.

Fixpoint first_row {C} `{Cell C} (ncols : nat) (group : list (list C)) : list C :=
  match group with
  | [] => replicate ncols nan
  | cells :: group' => zip_with first_notna cells (first_row ncols group')
  end.

(** [groupby(LOCATION_ID).first()] on the frame that [reset_index] made of
    the (location, method) rows: one row per location, in sorted order;
    under every column, the method column included, the first non-null
    entry of the group in frame order.  A method name is never null. *)
Definition group_of (l : LocationId) (rs : list ((LocationId * string) * list ratio))
    : list ((LocationId * string) * list ratio) :=
  filter (λ r : (LocationId * string) * list ratio, r.1.1 = l) rs.

Definition groupby_first (ncols : nat) (rs : list ((LocationId * string) * list ratio))
    : list (LocationId * (option string * list ratio)) :=
  (λ l, (l, (head ((group_of l rs).*1.*2), first_row ncols ((group_of l rs).*2))))
  <$> unique_sorted str_leb (rs.*1.*1).

(** [positivity.stack()]: the non-null cells of every row, with the row and
    column labels. *)
Definition stack {K C} `{Cell C} (cols : list Date) (rs : list (K * list C))
    : list ((K * Date) * C) :=
  flat_map (λ r : K * list C,
              (λ dc : Date * C, ((r.1, dc.1), dc.2))
              <$> filter (λ dc : Date * C, notna dc.2 = true) (zip cols r.2)) rs.

(** ** [AllMethods] *)

Record AllMethods := mkAllMethods {
  all_methods_timeseries : DataFrame (LocationId * string) ratio;
  test_positivity : MultiRegionTimeseriesDataset ratio
}.

(** The local variables of [AllMethods.run] as they stand at its [return]. *)
Record Locals := mkLocals {
  input_long : list (Observation (option Z));
  input_date_range : list Date;
  recent_date_range : list Date;
  input_wide : DataFrame (FieldName * LocationId) (option Z);
  diff_df : DataFrame (FieldName * LocationId) (option Z);
  all_wide : DataFrame (LocationId * string) ratio;
  all_recent_data : list ((LocationId * string) * list ratio);
  first : list (LocationId * (option string * list ratio));
  returned : AllMethods
}.

(** The fields of the methods, as [chain.from_iterable] yields them. *)
Definition method_fields (methods : list Method) : list FieldName :=
  flat_map (λ m, [numerator m; denominator m]) methods.

(** The body of [AllMethods.run] after its first statement.
    [ts_value_cols] is [list(set(...))]: the distinct fields of the
    methods, in the order in which the set happens to be iterated. *)
Definition run_body (ts_value_cols : list FieldName)
    (metrics_in : MultiRegionTimeseriesDataset (option Z))
    (methods : list Method) (diff_days : Z) (recent_days : nat) : result Locals :=
  let* _ := assert_ (forallb (λ c, bool_decide (c ∈ data_columns metrics_in)) ts_value_cols) in
  let input_long := timeseries_long metrics_in ts_value_cols in
  let dates := date <$> input_long in
  let* start_date := not_nat (dates_min dates) in
  let* end_date := not_nat (dates_max dates) in
  let input_date_range := date_range start_date end_date in
  let recent_date_range :=
    intersection (date_range_end end_date recent_days) input_date_range in
  let* unstacked := unstack input_long in
  let input_wide := reindex_columns input_date_range unstacked in
  let diff_df := diff diff_days input_wide in
  let* frames := calculate_all methods diff_df in
  let* concatenated := concat input_date_range frames in
  let all_wide := sort_index (dropna_all (reorder_levels concatenated)) in
  let* method_cat_type := CategoricalDtype (name <$> methods) in
  let all_recent_data :=
    filter (λ r : (LocationId * string) * list ratio,
              has_recent_data (columns all_wide) recent_date_range r.2 = true)
           (rows all_wide) in
  let first := groupby_first (length (columns all_wide)) all_recent_data in
  let provenance :=
    omap (λ r : LocationId * (option string * list ratio),
            (λ n, ((r.1, "positivity"), n)) <$> r.2.1) first in
  let positivity := (λ r : LocationId * (option string * list ratio), (r.1, r.2.2)) <$> first in
  let test_positivity :=
    from_timeseries_df "positivity" (stack (columns all_wide) positivity) provenance in
  ret (mkLocals input_long input_date_range recent_date_range input_wide diff_df
         all_wide all_recent_data first (mkAllMethods all_wide test_positivity)).

Definition run_with (ts_value_cols : list FieldName)
    (metrics_in : MultiRegionTimeseriesDataset (option Z))
    (methods : list Method) (diff_days : Z) (recent_days : nat) : result AllMethods :=
  let* locals := run_body ts_value_cols metrics_in methods diff_days recent_days in
  ret (returned locals).

(** [ts_value_cols] lists a set: no field twice, and the fields of the
    methods. *)
Definition lists_set (fields ts_value_cols : list FieldName) : Prop :=
  NoDup ts_value_cols ∧ ∀ c, c ∈ ts_value_cols ↔ c ∈ fields.

(** One iteration order of the set. *)
Definition ts_value_cols_of (methods : list Method) : list FieldName :=
  remove_dups (method_fields methods).

(** [AllMethods.run] *)
Definition run (metrics_in : MultiRegionTimeseriesDataset (option Z))
    (methods : list Method) (diff_days : Z) (recent_days : nat) : result AllMethods :=
  run_with (ts_value_cols_of methods) metrics_in methods diff_days recent_days.

(** What a caller reads from the returned store: the method recorded for a
    region, and the positivity of a region on a date (NaN when the store
    has no record). *)
Definition selected_method (res : AllMethods) (R : LocationId) : option string :=
  assoc (R, "positivity") (provenance (test_positivity res)).

Definition positivity_at (res : AllMethods) (R : LocationId) (d : Date) : ratio :=
  default NaN (assoc (("positivity", R), d) (obs_entry <$> data_long (test_positivity res))).

(** ** Reference values

    What the tables of a run are compared with: the lagged difference of
    the readings of a key, and the ratio of the lagged differences of the
    two fields of a method. *)

Definition delta (long : list (Observation (option Z))) (periods : Z)
    (k : FieldName * LocationId) (d : Date) : option Z :=
  sub (reading long k d) (reading long k (d - periods)).

Definition candidate (long : list (Observation (option Z))) (periods : Z)
    (m : Method) (R : LocationId) (d : Date) : ratio :=
  truediv (delta long periods (numerator m, R) d) (delta long periods (denominator m, R) d).

(** The regions a method has a row for: those with a reading of its
    numerator or of its denominator. *)
Definition has_field (long : list (Observation (option Z))) (v : FieldName) (R : LocationId)
    : Prop :=
  ∃ o, o ∈ long ∧ obs_key o = (v, R).

(** The frame that [calculate] returns for a method, when it returns. *)
Definition frame_of (m : Method) (df : DataFrame (FieldName * LocationId) (option Z))
    : DataFrame LocationId ratio :=
  match calculate m df with inr f => f | inl _ => mkDataFrame [] [] end.

(** The rows of the table of all methods before [sort_index], when the
    names of the methods are distinct. *)
Definition unsorted_rows (methods : list Method)
    (diff_df : DataFrame (FieldName * LocationId) (option Z))
    : list ((LocationId * string) * list ratio) :=
  filter (λ r : (string * string) * list ratio, existsb notna r.2 = true)
    ((λ r : (string * string) * list ratio, ((r.1.2, r.1.1), r.2))
     <$> flat_map (λ kf : string * DataFrame string ratio,
                     (λ r : string * list ratio, ((kf.1, r.1), r.2)) <$> rows kf.2)
           ((λ m, (name m, frame_of m diff_df)) <$> methods)).

(** The conditions under which a run returns: the requested fields are
    columns of the store, the registry is not empty and names no method
    twice, no two requested records share an index entry, and every field
    of every method has a record. *)
Definition runnable (cols : list FieldName) (ds : MultiRegionTimeseriesDataset (option Z))
    (methods : list Method) : Prop :=
  (∀ c, c ∈ cols → c ∈ data_columns ds) ∧
  methods ≠ [] ∧
  NoDup (name <$> methods) ∧
  NoDup (obs_entry <$> timeseries_long ds cols).*1 ∧
  ∀ m, m ∈ methods →
    (∃ R, has_field (timeseries_long ds cols) (numerator m) R) ∧
    (∃ R, has_field (timeseries_long ds cols) (denominator m) R).

(** A method has recent data for a region, in a result read with the
    recency window [recent]: its row for the region in the table of all
    methods has a non-missing cell under a date of the window. *)
Definition recent_viable (res : AllMethods) (recent : list Date)
    (R : LocationId) (n : string) : Prop :=
  ∃ cells d, ((R, n), cells) ∈ rows (all_methods_timeseries res) ∧ d ∈ recent ∧
    notna (at_label (columns (all_methods_timeseries res)) cells d) = true.

(** The statements of [AllMethods.run] that follow the computation of
    [diff_df], as a function of the registry, the date axis, the recency
    window and the delta table. *)
Definition run_from_deltas (methods : list Method)
    (input_date_range recent_date_range : list Date)
    (diff_df : DataFrame (FieldName * LocationId) (option Z)) : result AllMethods :=
  let* frames := calculate_all methods diff_df in
  let* concatenated := concat input_date_range frames in
  let all_wide := sort_index (dropna_all (reorder_levels concatenated)) in
  let* method_cat_type := CategoricalDtype (name <$> methods) in
  let all_recent_data :=
    filter (λ r : (LocationId * string) * list ratio,
              has_recent_data (columns all_wide) recent_date_range r.2 = true)
           (rows all_wide) in
  let first := groupby_first (length (columns all_wide)) all_recent_data in
  let provenance :=
    omap (λ r : LocationId * (option string * list ratio),
            (λ n, ((r.1, "positivity"), n)) <$> r.2.1) first in
  let positivity := (λ r : LocationId * (option string * list ratio), (r.1, r.2.2)) <$> first in
  ret (mkAllMethods all_wide
         (from_timeseries_df "positivity" (stack (columns all_wide) positivity) provenance)).

(** A store in which every reading of a (variable, region) series is
    raised by a constant of that series. *)
Definition add_offset (c : FieldName * LocationId → Z)
    (ds : MultiRegionTimeseriesDataset (option Z)) : MultiRegionTimeseriesDataset (option Z) :=
  mkDataset (data_columns ds)
    ((λ o : Observation (option Z),
        mkObservation (variable o) (location_id o) (date o)
          ((λ x, x + c (obs_key o)) <$> value o)) <$> data_long ds)
    (provenance ds).

(** ** Example inputs *)

(** A reading, and the readings of consecutive days from a first day on. *)
Definition obs (v l : string) (d x : Z) : Observation (option Z) :=
  mkObservation v l d (Some x).

Definition daily (v l : string) (d0 : Z) (xs : list Z) : list (Observation (option Z)) :=
  imap (λ i x, obs v l (d0 + Z.of_nat i) x) xs.

Module Examples.
Definition cases_over_tests : list Method := [mkMethod "cases_tests" "cases" "tests"].

(** Cumulative cases 10, 15, 25, 40 on four consecutive days. *)
Definition four_days : MultiRegionTimeseriesDataset (option Z) :=
mkDataset ["cases"; "tests"]
(daily "cases" "R" 0 [10; 15; 25; 40] ++ daily "tests" "R" 0 [100; 200; 300; 400]) [].

(** A delta table with no new test on day 1. *)
Definition no_new_tests : DataFrame (string * string) (option Z) :=
mkDataFrame [0; 1] [(("cases", "R"), [None; Some 5]); (("tests", "R"), [None; Some 0])].

(** Region "old" stops reporting a month before region "new" starts. *)
Definition stale_and_fresh : MultiRegionTimeseriesDataset (option Z) :=
mkDataset ["cases"; "tests"]
(daily "cases" "old" 0 [1; 2] ++ daily "cases" "new" 30 [5; 7] ++
 daily "tests" "old" 0 [10; 20] ++ daily "tests" "new" 30 [50; 70]) [].

(** Five new cases and no new test on day 1. *)
Definition flat_tests : MultiRegionTimeseriesDataset (option Z) :=
mkDataset ["cases"; "tests"]
(daily "cases" "R" 0 [10; 15] ++ daily "tests" "R" 0 [100; 100]) [].

(** The same records for "old"; other readings for "new" on the same days. *)
Definition stale_and_other : MultiRegionTimeseriesDataset (option Z) :=
mkDataset ["cases"; "tests"]
(daily "cases" "old" 0 [1; 2] ++ daily "cases" "new" 30 [0; 9] ++
 daily "tests" "old" 0 [10; 20] ++ daily "tests" "new" 30 [50; 50]) [].

(** The same records for "old"; none for "new". *)
Definition stale_only : MultiRegionTimeseriesDataset (option Z) :=
mkDataset ["cases"; "tests"]
(daily "cases" "old" 0 [1; 2] ++ daily "tests" "old" 0 [10; 20]) [].

(** The seven fields of the default registry, and one reading of each in a
region "S", so that every field of the registry has a record. *)
Definition all_fields : list FieldName :=
[ CommonFields.POSITIVE_TESTS; CommonFields.POSITIVE_TESTS_VIRAL;
CommonFields.POSITIVE_CASES_VIRAL; CommonFields.TOTAL_TESTS;
CommonFields.TOTAL_TESTS_VIRAL; CommonFields.TOTAL_TESTS_PEOPLE_VIRAL;
CommonFields.TOTAL_TEST_ENCOUNTERS_VIRAL ].

Definition elsewhere : list (Observation (option Z)) :=
(λ v, obs v "S" 0 1) <$> all_fields.

(** Region "R" reports viral positive tests, viral positive cases and
viral total tests on eight days: the methods at positions 1 and 2 of
the default registry both have a ratio on the last day. *)
Definition two_viral_numerators : MultiRegionTimeseriesDataset (option Z) :=
mkDataset all_fields
(daily CommonFields.POSITIVE_TESTS_VIRAL "R" 0 [0; 10; 20; 30; 40; 50; 60; 70] ++
 daily CommonFields.POSITIVE_CASES_VIRAL "R" 0 [0; 5; 10; 15; 20; 25; 30; 35] ++
 daily CommonFields.TOTAL_TESTS_VIRAL "R" 0 [0; 100; 200; 300; 400; 500; 600; 700] ++
 elsewhere) [].

(** Region "R" reports viral positive tests on nine days but day 1, and
positive tests and viral total tests on all nine days. *)
Definition a_gap_on_day_one : MultiRegionTimeseriesDataset (option Z) :=
mkDataset all_fields
(obs CommonFields.POSITIVE_TESTS_VIRAL "R" 0 0 ::
 daily CommonFields.POSITIVE_TESTS_VIRAL "R" 2 [20; 30; 40; 50; 60; 70; 80] ++
 daily CommonFields.POSITIVE_TESTS "R" 0 [0; 6; 12; 18; 24; 30; 36; 42; 48] ++
 daily CommonFields.TOTAL_TESTS_VIRAL "R" 0 [0; 100; 200; 300; 400; 500; 600; 700; 800] ++
 elsewhere) [].

(** Two methods on the same denominator, the preferred one listed first. *)
Definition preferred_and_fallback : list Method :=
[mkMethod "preferred" "a" "t"; mkMethod "fallback" "b" "t"].

(** Region "R" reports "a" and "t" on four days and "b" on days 0, 1
and 3. *)
Definition gap_in_fallback : MultiRegionTimeseriesDataset (option Z) :=
mkDataset ["a"; "b"; "t"]
(daily "a" "R" 0 [1; 2; 4; 7] ++ [obs "b" "R" 0 3; obs "b" "R" 1 5; obs "b" "R" 3 9] ++
 daily "t" "R" 0 [10; 20; 30; 40]) [].
End Examples.

(** * Properties *)

(** ** The error monad *)

Lemma bind_inr {A B} (m : result A) (k : A → result B) (b : B) :
  bind m k = inr b ↔ ∃ a, m = inr a ∧ k a = inr b.
Proof.
  destruct m as [e|a]; simpl; split.
  - discriminate.
  - intros (a & Ha & _). discriminate.
  - eauto.
  - intros (a' & Ha & Hk). by simplify_eq.
Qed.

(** ** Orders on labels *)

Class LebOrder {K : Type} (leb : K → K → bool) : Prop := {
  leb_total : ∀ a b, leb a b = true ∨ leb b a = true;
  leb_trans : ∀ a b c, leb a b = true → leb b c = true → leb a c = true;
  leb_antisym : ∀ a b, leb a b = true → leb b a = true → a = b
}.

#[global] Instance Z_leb_order : LebOrder Z.leb.
Proof. split; intros; lia. Qed.

Lemma ascii_compare_refl (x : Ascii.ascii) : Ascii.compare x x = Eq.
Proof. unfold Ascii.compare. apply N.compare_refl. Qed.

Lemma ascii_compare_lt_trans (x y z : Ascii.ascii) :
  Ascii.compare x y = Lt → Ascii.compare y z = Lt → Ascii.compare x z = Lt.
Proof. unfold Ascii.compare. rewrite !N.compare_lt_iff. lia. Qed.

Lemma string_compare_refl (a : string) : String.compare a a = Eq.
Proof. induction a as [|x a IH]; simpl; [done|]. by rewrite ascii_compare_refl. Qed.

Lemma string_compare_eq (a b : string) : String.compare a b = Eq ↔ a = b.
Proof.
  split; [apply String.compare_eq_iff|]. intros ->. apply string_compare_refl.
Qed.

Lemma string_compare_lt_trans (a b c : string) :
  String.compare a b = Lt → String.compare b c = Lt → String.compare a c = Lt.
Proof.
  revert b c. induction a as [|x a IH]; intros [|y b] [|z c]; simpl; try done.
  destruct (Ascii.compare x y) eqn:Hxy; try done;
    destruct (Ascii.compare y z) eqn:Hyz; try done; intros H1 H2.
  - apply Ascii.compare_eq_iff in Hxy, Hyz. subst.
    rewrite ascii_compare_refl. eauto.
  - apply Ascii.compare_eq_iff in Hxy. subst. by rewrite Hyz.
  - apply Ascii.compare_eq_iff in Hyz. subst. by rewrite Hxy.
  - by rewrite (ascii_compare_lt_trans _ _ _ Hxy Hyz).
Qed.

Lemma string_compare_gt_lt (a b : string) :
  String.compare a b = Gt ↔ String.compare b a = Lt.
Proof.
  rewrite (String.compare_antisym a b). destruct (String.compare b a); simpl; split; congruence.
Qed.

#[global] Instance str_leb_order : LebOrder str_leb.
Proof.
  split; unfold str_leb.
  - apply String.leb_total.
  - intros a b c. unfold String.leb.
    destruct (String.compare a b) eqn:Hab; [| |done];
      destruct (String.compare b c) eqn:Hbc; try done; intros _ _.
    + apply string_compare_eq in Hab, Hbc. subst. by rewrite string_compare_refl.
    + apply string_compare_eq in Hab. subst. by rewrite Hbc.
    + apply string_compare_eq in Hbc. subst. by rewrite Hab.
    + by rewrite (string_compare_lt_trans _ _ _ Hab Hbc).
  - apply String.leb_antisym.
Qed.

#[global] Instance pair_leb_order : LebOrder pair_leb.
Proof.
  split; unfold pair_leb.
  - intros [a1 a2] [b1 b2]; simpl. rewrite (String.compare_antisym b1 a1).
    destruct (String.compare a1 b1); simpl; auto. apply String.leb_total.
  - intros [a1 a2] [b1 b2] [c1 c2]; simpl.
    destruct (String.compare a1 b1) eqn:Hab; [| |done];
      destruct (String.compare b1 c1) eqn:Hbc; try done.
    + apply string_compare_eq in Hab, Hbc. subst. rewrite string_compare_refl.
      apply (leb_trans (leb:=str_leb)).
    + apply string_compare_eq in Hab. subst. by rewrite Hbc.
    + apply string_compare_eq in Hbc. subst. by rewrite Hab.
    + by rewrite (string_compare_lt_trans _ _ _ Hab Hbc).
  - intros [a1 a2] [b1 b2]; simpl. rewrite (String.compare_antisym b1 a1).
    destruct (String.compare a1 b1) eqn:Hab; simpl; try done.
    apply string_compare_eq in Hab. subst. intros H1 H2.
    f_equal. by apply String.leb_antisym.
Qed.

(** On equal first components [pair_leb] compares the second ones. *)
Lemma pair_leb_same_fst (l a b : string) : pair_leb (l, a) (l, b) = str_leb a b.
Proof. unfold pair_leb; simpl. by rewrite string_compare_refl. Qed.

(** ** Insertion sort *)

Section SortFacts.
Context {A K : Type} (key : A → K) (leb : K → K → bool) `{!LebOrder leb}.

Definition key_le (x y : A) : Prop := leb (key x) (key y) = true.

Lemma insert_by_perm x l : insert_by key leb x l ≡ₚ x :: l.
Proof.
induction l as [|y l IH]; simpl; [done|].
destruct (leb (key x) (key y)); [done|]. by rewrite IH, Permutation_swap.
Qed.

Lemma sort_by_perm l : sort_by key leb l ≡ₚ l.
Proof.
induction l as [|x l IH]; simpl; [done|]. by rewrite insert_by_perm, IH.
Qed.

Lemma elem_of_sort_by l x : x ∈ sort_by key leb l ↔ x ∈ l.
Proof. by rewrite sort_by_perm. Qed.

Lemma insert_by_sorted x l :
StronglySorted key_le l → StronglySorted key_le (insert_by key leb x l).
Proof.
induction 1 as [|y l Hl IH Hy]; simpl; [repeat constructor|].
destruct (leb (key x) (key y)) eqn:Hxy.
- constructor; [by constructor|]. constructor; [done|].
eapply Forall_impl; [done|]. intros z Hz. unfold key_le in *.
by eapply leb_trans.
- constructor; [done|]. rewrite insert_by_perm. constructor; [|done].
unfold key_le. destruct (leb_total (key x) (key y)); congruence.
Qed.

Lemma sort_by_sorted l : StronglySorted key_le (sort_by key leb l).
Proof.
induction l as [|x l IH]; simpl; [constructor|]. by apply insert_by_sorted.
Qed.

(** Two sorted lists with the same elements and distinct keys are equal. *)
Lemma sorted_unique l1 l2 :
NoDup (key <$> l1) →
StronglySorted key_le l1 → StronglySorted key_le l2 → l1 ≡ₚ l2 → l1 = l2.
Proof.
intros Hnd Hs1 Hs2 Hp. eapply StronglySorted_unique_strong; [|done..].
intros x1 x2 Hx1 Hx2 H12 H21.
assert (key x1 = key x2) as Hk by (by apply (leb_antisym (leb:=leb))).
rewrite <- Hp in Hx2.
apply list_elem_of_lookup in Hx1 as [i Hi], Hx2 as [j Hj].
assert (i = j) as ->; [|congruence].
eapply NoDup_lookup; [done| |].
- by rewrite list_lookup_fmap, Hi.
- by rewrite list_lookup_fmap, Hj, Hk.
Qed.

Lemma sort_by_unique l1 l2 :
NoDup (key <$> l1) → l1 ≡ₚ l2 → sort_by key leb l1 = sort_by key leb l2.
Proof.
intros Hnd Hp. apply sorted_unique; [|apply sort_by_sorted..|].
- by rewrite sort_by_perm.
- by rewrite !sort_by_perm.
Qed.

Lemma sort_by_fixed l : NoDup (key <$> l) → StronglySorted key_le l → sort_by key leb l = l.
Proof.
intros Hnd Hs. apply sorted_unique; [|apply sort_by_sorted|done|apply sort_by_perm].
by rewrite sort_by_perm.
Qed.

Lemma filter_sorted (P : A → Prop) `{!∀ x, Decision (P x)} l :
StronglySorted key_le l → StronglySorted key_le (filter P l).
Proof.
induction 1 as [|x l Hl IH Hx]; [constructor|].
rewrite filter_cons. case_decide; [|done]. constructor; [done|].
rewrite Forall_forall in Hx. apply Forall_forall. intros y Hy.
apply list_elem_of_filter in Hy as [_ Hy]. by apply Hx.
Qed.

(** The first element of a sorted list has the least key. *)
Lemma sorted_head_least x l y :
StronglySorted key_le (x :: l) → y ∈ x :: l → leb (key x) (key y) = true.
Proof.
intros Hs Hy. apply StronglySorted_cons in Hs as [Hx _].
apply elem_of_cons in Hy as [->|Hy].
- destruct (leb_total (key x) (key x)); done.
- rewrite Forall_forall in Hx. by apply Hx.
Qed.
End SortFacts.

Section UniqueSorted.
Context {A : Type} `{EqDecision A} (leb : A → A → bool) `{!LebOrder leb}.

Lemma elem_of_unique_sorted l x : x ∈ unique_sorted leb l ↔ x ∈ l.
Proof. unfold unique_sorted. by rewrite elem_of_sort_by, elem_of_remove_dups. Qed.

Lemma NoDup_unique_sorted l : NoDup (unique_sorted leb l).
Proof. unfold unique_sorted. rewrite sort_by_perm. apply NoDup_remove_dups. Qed.

Lemma unique_sorted_sorted l : StronglySorted (key_le id leb) (unique_sorted leb l).
Proof. apply sort_by_sorted, _. Qed.

(** The sorted distinct values depend on the set of values only. *)
Lemma unique_sorted_ext l1 l2 :
(∀ x, x ∈ l1 ↔ x ∈ l2) → unique_sorted leb l1 = unique_sorted leb l2.
Proof.
intros Hext. apply (sorted_unique id leb).
- rewrite list_fmap_id. apply NoDup_unique_sorted.
- apply unique_sorted_sorted.
- apply unique_sorted_sorted.
- apply NoDup_Permutation; [apply NoDup_unique_sorted..|].
intros x. by rewrite !elem_of_unique_sorted.
Qed.

Lemma filter_unique_sorted_ext (P : A → Prop) `{!∀ x, Decision (P x)} l1 l2 :
(∀ x, P x → x ∈ l1 ↔ x ∈ l2) →
filter P (unique_sorted leb l1) = filter P (unique_sorted leb l2).
Proof.
intros Hext. apply (sorted_unique id leb).
- rewrite list_fmap_id. apply NoDup_filter, NoDup_unique_sorted.
- apply filter_sorted, unique_sorted_sorted.
- apply filter_sorted, unique_sorted_sorted.
- apply NoDup_Permutation; [apply NoDup_filter, NoDup_unique_sorted..|].
intros x. rewrite !list_elem_of_filter, !elem_of_unique_sorted.
split; intros [HP Hx]; (split; [done|]); by apply (Hext x HP).
Qed.
End UniqueSorted.

(** ** Lookups in association lists *)

Section Assoc.
Context {K V : Type} `{EqDecision K}.
Implicit Types (k : K) (v : V) (l : list (K * V)).

Lemma assoc_Some_elem_of k v l : assoc k l = Some v → (k, v) ∈ l.
Proof.
induction l as [|[k' v'] l IH]; simpl; [done|].
case_decide; intros; simplify_eq; [left|right; auto].
Qed.

Lemma assoc_None k l : assoc k l = None ↔ k ∉ l.*1.
Proof.
induction l as [|[k' v'] l IH]; simpl.
- split; [intros _; apply not_elem_of_nil|done].
- rewrite not_elem_of_cons. case_decide; naive_solver.
Qed.

Lemma assoc_is_Some k l : is_Some (assoc k l) ↔ k ∈ l.*1.
Proof.
rewrite <- not_eq_None_Some, assoc_None. split; [|auto].
intros H. by destruct (decide (k ∈ l.*1)).
Qed.

Lemma assoc_NoDup k v l : NoDup l.*1 → (k, v) ∈ l → assoc k l = Some v.
Proof.
induction l as [|[k' v'] l IH]; simpl; [by intros _ ?%elem_of_nil|].
intros [Hk' Hnd]%NoDup_cons [?|Hin]%elem_of_cons; simplify_eq.
- by rewrite decide_True.
- rewrite decide_False; [auto|]. intros ->. apply Hk'.
by apply (list_elem_of_fmap_2' fst _ (k, v)).
Qed.

Lemma assoc_lookup_iff k v l : NoDup l.*1 → assoc k l = Some v ↔ (k, v) ∈ l.
Proof. split; [apply assoc_Some_elem_of|by apply assoc_NoDup]. Qed.

(** Under distinct labels a lookup depends on the set of entries only. *)
Lemma assoc_ext k l1 l2 :
NoDup l1.*1 → NoDup l2.*1 → (∀ v, (k, v) ∈ l1 ↔ (k, v) ∈ l2) →
assoc k l1 = assoc k l2.
Proof.
intros H1 H2 Hext. apply option_eq. intros v.
by rewrite !assoc_lookup_iff.
Qed.

Lemma assoc_cons k k' v l :
assoc k ((k', v) :: l) = if decide (k' = k) then Some v else assoc k l.
Proof. done. Qed.

Lemma assoc_graph (f : K → V) ks k :
assoc k ((λ x, (x, f x)) <$> ks) = if decide (k ∈ ks) then Some (f k) else None.
Proof.
induction ks as [|x ks IH]; [done|]. rewrite fmap_cons, assoc_cons.
destruct (decide (x = k)) as [->|Hx].
- rewrite decide_True; [done|left].
- rewrite IH. destruct (decide (k ∈ ks)) as [Hin|Hin].
+ rewrite decide_True; [done|by right].
+ rewrite decide_False; [done|]. rewrite not_elem_of_cons. naive_solver.
Qed.

Lemma assoc_fmap_values {W} (g : K → V → W) k l :
assoc k ((λ r : K * V, (r.1, g r.1 r.2)) <$> l) = g k <$> assoc k l.
Proof.
induction l as [|[k' v'] l IH]; simpl; [done|]. case_decide; by subst.
Qed.

Lemma assoc_filter_key (P : K → Prop) `{!∀ x, Decision (P x)} k l :
assoc k (filter (λ r : K * V, P r.1) l) = if decide (P k) then assoc k l else None.
Proof.
induction l as [|[k' v'] l IH]; simpl.
- by case_decide.
- rewrite filter_cons. simpl. destruct (decide (P k')) as [HP|HP]; simpl.
+ destruct (decide (k' = k)); subst; [by rewrite decide_True|done].
+ rewrite IH. destruct (decide (k' = k)); subst; [by rewrite !decide_False|done].
Qed.

Lemma NoDup_filter_keys (P : K * V → Prop) `{!∀ r, Decision (P r)} l :
NoDup l.*1 → NoDup (filter P l).*1.
Proof.
intros Hnd. eapply sublist_NoDup; [done|]. apply fmap_sublist, sublist_filter.
Qed.

Lemma assoc_filter l (P : K * V → Prop) `{!∀ r, Decision (P r)} k v :
NoDup l.*1 → assoc k (filter P l) = Some v ↔ assoc k l = Some v ∧ P (k, v).
Proof.
intros Hnd. rewrite !assoc_lookup_iff, list_elem_of_filter; [tauto|done|].
by apply NoDup_filter_keys.
Qed.
End Assoc.

Lemma assoc_zip_fmap {V} (f : Date → V) (cols : list Date) (d : Date) :
  assoc d (zip cols (f <$> cols)) = if decide (d ∈ cols) then Some (f d) else None.
Proof.
  rewrite <- (assoc_graph f cols d). f_equal.
  induction cols as [|x cols IH]; [done|]. rewrite !fmap_cons. simpl. f_equal. apply IH.
Qed.

Lemma at_label_fmap {C} `{Cell C} (f : Date → C) (cols : list Date) (d : Date) :
  at_label cols (f <$> cols) d = if decide (d ∈ cols) then f d else nan.
Proof. unfold at_label. rewrite assoc_zip_fmap. by case_decide. Qed.

Lemma at_label_absent {C} `{Cell C} (cols : list Date) (cells : list C) (d : Date) :
  d ∉ cols → at_label cols cells d = nan.
Proof.
  intros Hd. unfold at_label.
  destruct (assoc d (zip cols cells)) as [c|] eqn:Hc; [|done].
  apply assoc_Some_elem_of in Hc. destruct Hd. by eapply elem_of_zip_l.
Qed.

Lemma elem_of_flat_map {A B} (f : A → list B) (l : list A) (y : B) :
  y ∈ flat_map f l ↔ ∃ x, x ∈ l ∧ y ∈ f x.
Proof.
  rewrite list_elem_of_In, in_flat_map. setoid_rewrite list_elem_of_In. done.
Qed.

Lemma existsb_elem_of {A} (p : A → bool) (l : list A) :
  existsb p l = true ↔ ∃ x, x ∈ l ∧ p x = true.
Proof. rewrite existsb_exists. by setoid_rewrite list_elem_of_In. Qed.

(** ** Bounds of the date axis *)

Lemma foldr_min_spec (d : Z) (ds : list Z) :
  foldr Z.min d ds ∈ d :: ds ∧ ∀ x, x ∈ d :: ds → foldr Z.min d ds ≤ x.
Proof.
  induction ds as [|y ds [IH1 IH2]]; simpl.
  - split; [left|]. intros x ->%list_elem_of_singleton. lia.
  - split.
    + destruct (Z.min_spec y (foldr Z.min d ds)) as [[_ ->]|[_ ->]].
      * right; left.
      * apply elem_of_cons in IH1 as [->|?]; [left|by do 2 right].
    + intros x [->|[->|Hx]%elem_of_cons]%elem_of_cons.
      * specialize (IH2 d). etrans; [apply Z.le_min_r|]. apply IH2. left.
      * apply Z.le_min_l.
      * etrans; [apply Z.le_min_r|]. apply IH2. by right.
Qed.

Lemma foldr_max_spec (d : Z) (ds : list Z) :
  foldr Z.max d ds ∈ d :: ds ∧ ∀ x, x ∈ d :: ds → x ≤ foldr Z.max d ds.
Proof.
  induction ds as [|y ds [IH1 IH2]]; simpl.
  - split; [left|]. intros x ->%list_elem_of_singleton. lia.
  - split.
    + destruct (Z.max_spec y (foldr Z.max d ds)) as [[_ ->]|[_ ->]].
      * apply elem_of_cons in IH1 as [->|?]; [left|by do 2 right].
      * right; left.
    + intros x [->|[->|Hx]%elem_of_cons]%elem_of_cons.
      * specialize (IH2 d). etrans; [|apply Z.le_max_r]. apply IH2. left.
      * apply Z.le_max_l.
      * etrans; [|apply Z.le_max_r]. apply IH2. by right.
Qed.

Lemma dates_min_spec (ds : list Date) (m : Date) :
  dates_min ds = Some m ↔ m ∈ ds ∧ ∀ x, x ∈ ds → m ≤ x.
Proof.
  destruct ds as [|d ds]; simpl.
  - split; [done|]. by intros [?%elem_of_nil _].
  - destruct (foldr_min_spec d ds) as [H1 H2]. split.
    + intros [= <-]. done.
    + intros [Hm Hle]. f_equal. apply Z.le_antisymm; auto.
Qed.

Lemma dates_max_spec (ds : list Date) (m : Date) :
  dates_max ds = Some m ↔ m ∈ ds ∧ ∀ x, x ∈ ds → x ≤ m.
Proof.
  destruct ds as [|d ds]; simpl.
  - split; [done|]. by intros [?%elem_of_nil _].
  - destruct (foldr_max_spec d ds) as [H1 H2]. split.
    + intros [= <-]. done.
    + intros [Hm Hle]. f_equal. apply Z.le_antisymm; auto.
Qed.

Lemma dates_min_ext (ds1 ds2 : list Date) :
  (∀ x, x ∈ ds1 ↔ x ∈ ds2) → dates_min ds1 = dates_min ds2.
Proof.
  intros Hext. apply option_eq. intros m. rewrite !dates_min_spec.
  by setoid_rewrite Hext.
Qed.

Lemma dates_max_ext (ds1 ds2 : list Date) :
  (∀ x, x ∈ ds1 ↔ x ∈ ds2) → dates_max ds1 = dates_max ds2.
Proof.
  intros Hext. apply option_eq. intros m. rewrite !dates_max_spec.
  by setoid_rewrite Hext.
Qed.

Lemma elem_of_date_range (s e d : Date) : d ∈ date_range s e ↔ s ≤ d ≤ e.
Proof. unfold date_range. rewrite elem_of_seqZ. lia. Qed.

Lemma elem_of_date_range_end (e : Date) (n : nat) (d : Date) :
  d ∈ date_range_end e n ↔ e - Z.of_nat n < d ≤ e.
Proof. unfold date_range_end. rewrite elem_of_seqZ. lia. Qed.

Lemma elem_of_intersection (a b : list Date) (d : Date) :
  d ∈ intersection a b ↔ d ∈ a ∧ d ∈ b.
Proof. unfold intersection. rewrite list_elem_of_filter. tauto. Qed.

(** ** Readings *)

Section Readings.
Implicit Types (long : list (Observation (option Z))).

Lemma elem_of_obs_entries long k d v :
((k, d), v) ∈ obs_entry <$> long ↔
∃ o, o ∈ long ∧ obs_key o = k ∧ date o = d ∧ value o = v.
Proof.
rewrite list_elem_of_fmap. unfold obs_entry. split.
- intros (o & [= -> -> ->] & Ho). eauto.
- intros (o & Ho & <- & <- & <-). eauto.
Qed.

Lemma reading_Some long k d v :
NoDup (obs_entry <$> long).*1 →
reading long k d = Some v ↔
∃ o, o ∈ long ∧ obs_key o = k ∧ date o = d ∧ value o = Some v.
Proof.
intros Hnd. unfold reading. rewrite <- elem_of_obs_entries.
rewrite <- (assoc_lookup_iff _ _ _ Hnd).
destruct (assoc (k, d) (obs_entry <$> long)) as [[v'|]|]; simpl; naive_solver.
Qed.

Lemma reading_unobserved long k d :
(∀ o, o ∈ long → obs_key o = k → date o ≠ d) → reading long k d = None.
Proof.
intros Hno. unfold reading.
destruct (assoc (k, d) (obs_entry <$> long)) as [v|] eqn:Hv; [|done].
apply assoc_Some_elem_of, elem_of_obs_entries in Hv as (o & Ho & Hk & Hd & _).
by destruct (Hno o Ho Hk).
Qed.

(** Under distinct index entries a reading depends on the set of records
of its key only. *)
Lemma reading_ext long1 long2 k d :
NoDup (obs_entry <$> long1).*1 → NoDup (obs_entry <$> long2).*1 →
(∀ o, obs_key o = k → o ∈ long1 ↔ o ∈ long2) →
reading long1 k d = reading long2 k d.
Proof.
intros H1 H2 Hext. apply option_eq. intros v. rewrite !reading_Some by done.
split; intros (o & Ho & Hk & Hd & Hv); exists o; (split; [by apply (Hext o Hk)|done]).
Qed.

Lemma delta_ext long1 long2 p k d :
NoDup (obs_entry <$> long1).*1 → NoDup (obs_entry <$> long2).*1 →
(∀ o, obs_key o = k → o ∈ long1 ↔ o ∈ long2) →
delta long1 p k d = delta long2 p k d.
Proof.
intros H1 H2 Hext. unfold delta. by rewrite !(reading_ext long1 long2).
Qed.
End Readings.

(** ** The dense table *)

Section Dense.
Implicit Types (long : list (Observation (option Z))).

Lemma unstack_inr long u :
unstack long = inr u ↔
NoDup (obs_entry <$> long).*1 ∧
u = mkDataFrame (unique_sorted Z.leb (date <$> long))
((λ k, (k, reading long k <$> unique_sorted Z.leb (date <$> long)))
 <$> unique_sorted pair_leb (obs_key <$> long)).
Proof.
unfold unstack. case_decide; simpl; unfold ret, raise; split.
- intros [= <-]. done.
- by intros [_ ->].
- done.
- by intros [? _].
Qed.

(** The reindexed table holds, under every label of the new axis, the
reading of the row's key on that date. *)
Lemma reindex_unstack long u (axis : list Date) :
unstack long = inr u →
reindex_columns axis u =
mkDataFrame axis
((λ k, (k, reading long k <$> axis)) <$> unique_sorted pair_leb (obs_key <$> long)).
Proof.
intros [Hnd ->]%unstack_inr. unfold reindex_columns; simpl. f_equal.
rewrite <- list_fmap_compose. apply list_fmap_ext. intros _ k _; simpl. f_equal.
apply list_fmap_ext. intros _ d _. rewrite at_label_fmap.
case_decide as Hd; [done|]. symmetry. apply reading_unobserved.
intros o Ho _ Hdate. apply Hd. rewrite elem_of_unique_sorted by apply _.
rewrite <- Hdate. by apply list_elem_of_fmap_2.
Qed.

Lemma at_pos_fmap_seqZ (f : Z → option Z) (s n i : Z) :
(∀ d, ¬ (s ≤ d < s + n) → f d = None) →
at_pos (f <$> seqZ s n) i = f (s + i).
Proof.
intros Hout. unfold at_pos. case_decide as Hi.
- rewrite list_lookup_fmap. destruct (decide (i < n)) as [Hlt|Hge].
+ rewrite lookup_seqZ_lt by lia. simpl. f_equal. lia.
+ rewrite lookup_seqZ_ge by lia. simpl. symmetry. apply Hout. lia.
- symmetry. apply Hout. lia.
Qed.

(** [diff] on a table over a contiguous axis whose rows read NaN outside
the axis: the lagged difference, date by date. *)
Lemma diff_dense {K} (f : K → Z → option Z) (keys : list K) (s n p : Z) :
(∀ k d, ¬ (s ≤ d < s + n) → f k d = None) →
diff p (mkDataFrame (seqZ s n) ((λ k, (k, f k <$> seqZ s n)) <$> keys)) =
mkDataFrame (seqZ s n)
((λ k, (k, (λ d : Z, sub (f k d) (f k (d - p))) <$> seqZ s n)) <$> keys).
Proof.
intros Hout. unfold diff; simpl. f_equal.
rewrite <- list_fmap_compose. apply list_fmap_ext. intros _ k _; simpl. f_equal.
apply list_eq. intros i.
rewrite list_lookup_imap, !list_lookup_fmap.
destruct (seqZ s n !! i) as [d|] eqn:Hd; simpl; [|done].
apply lookup_seqZ in Hd as [-> Hi]. f_equal.
rewrite at_pos_fmap_seqZ by auto. do 2 f_equal. lia.
Qed.
End Dense.

(** ** The stages of a run that returns *)

Lemma assert_inr (b : bool) (u : unit) : assert_ b = inr u ↔ b = true.
Proof. destruct b, u; simpl; split; done. Qed.

Lemma not_nat_inr (o : option Z) (d : Z) : not_nat o = inr d ↔ o = Some d.
Proof. destruct o; simpl; unfold ret, raise; split; congruence. Qed.

Lemma run_body_inv cols ds methods diff_days recent_days L :
  run_body cols ds methods diff_days recent_days = inr L →
  ∃ start_date end_date unstacked frames concatenated,
    forallb (λ c, bool_decide (c ∈ data_columns ds)) cols = true ∧
    dates_min (date <$> timeseries_long ds cols) = Some start_date ∧
    dates_max (date <$> timeseries_long ds cols) = Some end_date ∧
    unstack (timeseries_long ds cols) = inr unstacked ∧
    calculate_all methods (diff_df L) = inr frames ∧
    concat (date_range start_date end_date) frames = inr concatenated ∧
    input_long L = timeseries_long ds cols ∧
    input_date_range L = date_range start_date end_date ∧
    recent_date_range L =
      intersection (date_range_end end_date recent_days) (date_range start_date end_date) ∧
    input_wide L = reindex_columns (date_range start_date end_date) unstacked ∧
    diff_df L = diff diff_days (input_wide L) ∧
    all_wide L = sort_index (dropna_all (reorder_levels concatenated)) ∧
    all_recent_data L =
      filter (λ r : (string * string) * list ratio,
                has_recent_data (columns (all_wide L)) (recent_date_range L) r.2 = true)
             (rows (all_wide L)) ∧
    first L = groupby_first (length (columns (all_wide L))) (all_recent_data L) ∧
    returned L =
      mkAllMethods (all_wide L)
        (from_timeseries_df "positivity"
           (stack (columns (all_wide L))
              ((λ r : string * (option string * list ratio), (r.1, r.2.2)) <$> first L))
           (omap (λ r : string * (option string * list ratio),
                    (λ n, ((r.1, "positivity"), n)) <$> r.2.1) (first L))).
Proof.
  unfold run_body.
  intros (_ & Hassert%assert_inr & H)%bind_inr.
  apply bind_inr in H as (start_date & Hmin%not_nat_inr & H).
  apply bind_inr in H as (end_date & Hmax%not_nat_inr & H).
  apply bind_inr in H as (unstacked & Hunstack & H).
  apply bind_inr in H as (frames & Hframes & H).
  apply bind_inr in H as (concatenated & Hconcat & H).
  apply bind_inr in H as (method_cat_type & _ & H).
  injection H as <-. simpl.
  exists start_date, end_date, unstacked, frames, concatenated.
  repeat split; done.
Qed.

Lemma CategoricalDtype_inr (categories cat : list string) :
  CategoricalDtype categories = inr cat ↔ NoDup categories ∧ cat = categories.
Proof.
  unfold CategoricalDtype, ret, raise. case_decide; split; try done.
  - by intros [= <-].
  - by intros [_ ->].
  - by intros [? _].
Qed.

(** A run that returns has a registry that names no method twice. *)
Lemma run_body_names cols ds methods diff_days recent_days L :
  run_body cols ds methods diff_days recent_days = inr L → NoDup (name <$> methods).
Proof.
  unfold run_body.
  intros (_ & _ & H)%bind_inr.
  apply bind_inr in H as (start_date & _ & H).
  apply bind_inr in H as (end_date & _ & H).
  apply bind_inr in H as (unstacked & _ & H).
  apply bind_inr in H as (frames & _ & H).
  apply bind_inr in H as (concatenated & _ & H).
  by apply bind_inr in H as (cat & [Hnd _]%CategoricalDtype_inr & _).
Qed.

Lemma cell_of_graph {K C} `{EqDecision K} `{Cell C} (f : K → Z → C)
    (axis : list Z) (keys : list K) (k : K) (d : Z) :
  cell_of (mkDataFrame axis ((λ k, (k, f k <$> axis)) <$> keys)) k d =
  if decide (k ∈ keys) then if decide (d ∈ axis) then f k d else nan else nan.
Proof.
  unfold cell_of, row_of; simpl. rewrite (assoc_graph (λ k, f k <$> axis)).
  case_decide; [|done]. apply at_label_fmap.
Qed.

Lemma row_of_graph {K C} `{EqDecision K} (f : K → list C)
    (axis : list Z) (keys : list K) (k : K) :
  row_of (mkDataFrame axis ((λ k, (k, f k)) <$> keys)) k =
  if decide (k ∈ keys) then Some (f k) else None.
Proof. unfold row_of; simpl. apply assoc_graph. Qed.

Section RunDense.
Context (cols : list string) (ds : MultiRegionTimeseriesDataset (option Z))
(methods : list Method) (diff_days : Z) (recent_days : nat) (L : Locals).
Hypothesis Hrun : run_body cols ds methods diff_days recent_days = inr L.

Let long := timeseries_long ds cols.
Let keys := unique_sorted pair_leb (obs_key <$> long).

Lemma run_input_long : input_long L = long.
Proof. apply run_body_inv in Hrun as (?&?&?&?&?&?&?&?&?&?&?); naive_solver. Qed.

Lemma run_NoDup_entries : NoDup (obs_entry <$> long).*1.
Proof.
apply run_body_inv in Hrun as (?&?&u&?&?&_&_&_&Hu&_).
by apply unstack_inr in Hu as [? _].
Qed.

Lemma run_bounds :
∃ s e, dates_min (date <$> long) = Some s ∧ dates_max (date <$> long) = Some e ∧
 input_date_range L = date_range s e ∧
 recent_date_range L = intersection (date_range_end e recent_days) (date_range s e).
Proof.
apply run_body_inv in Hrun as (s&e&?&?&?&_&?&?&_&_&_&_&?&?&_). by exists s, e.
Qed.

Lemma run_dates_in_range o : o ∈ long → date o ∈ input_date_range L.
Proof.
intros Ho. destruct run_bounds as (s & e & Hs & He & -> & _).
apply dates_min_spec in Hs as [_ Hs]. apply dates_max_spec in He as [_ He].
apply elem_of_date_range. split; [apply Hs|apply He]; by apply list_elem_of_fmap_2.
Qed.

Lemma run_reading_outside k d : d ∉ input_date_range L → reading long k d = None.
Proof.
intros Hd. apply reading_unobserved. intros o Ho _ <-. by apply Hd, run_dates_in_range.
Qed.

Lemma run_reading_no_key k d : k ∉ keys → reading long k d = None.
Proof.
intros Hk. apply reading_unobserved. intros o Ho <- _. apply Hk.
unfold keys. rewrite elem_of_unique_sorted by apply _. by apply list_elem_of_fmap_2.
Qed.

Lemma run_input_wide :
input_wide L =
mkDataFrame (input_date_range L) ((λ k, (k, reading long k <$> input_date_range L)) <$> keys).
Proof.
apply run_body_inv in Hrun as (s&e&u&?&?&_&_&_&Hu&_&_&_&->&_&->&_).
by apply reindex_unstack.
Qed.

Lemma run_diff_df :
diff_df L =
mkDataFrame (input_date_range L)
((λ k, (k, delta long diff_days k <$> input_date_range L)) <$> keys).
Proof.
pose proof run_input_wide as Hwide. pose proof run_reading_outside as Hout.
apply run_body_inv in Hrun as (s&e&u&?&?&_&_&_&_&_&_&_&Hr&_&_&->&_).
rewrite Hwide. rewrite Hr in *. unfold date_range in *.
rewrite (diff_dense (reading long)); [done|].
intros k d Hd. apply Hout. rewrite elem_of_seqZ. lia.
Qed.

Lemma run_input_wide_cell k d : cell_of (input_wide L) k d = reading long k d.
Proof.
rewrite run_input_wide, cell_of_graph. simpl.
case_decide as Hk; [case_decide as Hd|]; [done|symmetry..].
- by apply run_reading_outside.
- by apply run_reading_no_key.
Qed.

Lemma run_delta_outside k d : d ∉ input_date_range L → delta long diff_days k d = None.
Proof. intros Hd. unfold delta. by rewrite run_reading_outside. Qed.

Lemma run_delta_no_key k d : k ∉ keys → delta long diff_days k d = None.
Proof. intros Hd. unfold delta. by rewrite run_reading_no_key. Qed.

Lemma run_diff_df_cell k d : cell_of (diff_df L) k d = delta long diff_days k d.
Proof.
rewrite run_diff_df, cell_of_graph. simpl.
case_decide as Hk; [case_decide as Hd|]; [done|symmetry..].
- by apply run_delta_outside.
- by apply run_delta_no_key.
Qed.

Lemma run_keys k : k ∈ keys ↔ ∃ o, o ∈ long ∧ obs_key o = k.
Proof.
unfold keys. rewrite elem_of_unique_sorted by apply _. rewrite list_elem_of_fmap.
naive_solver.
Qed.
End RunDense.

(** ** [Method.calculate] *)

Section LocField.
Context {C : Type}.
Implicit Types (df : DataFrame (string * string) C) (num : DataFrame string C).

Lemma loc_field_inr v df num :
loc_field v df = inr num ↔
(∃ R, (v, R) ∈ (rows df).*1) ∧
num = mkDataFrame (columns df)
((λ r : (string * string) * list C, (r.1.2, r.2))
 <$> filter (λ r : (string * string) * list C, r.1.1 = v) (rows df)).
Proof.
unfold loc_field.
destruct (filter _ (rows df)) as [|r rs] eqn:Hf; unfold ret, raise; split.
- done.
- intros [(R & ([[v' R'] cells] & [= <- <-] & Hin)%list_elem_of_fmap) _].
assert (((v, R), cells) ∈ filter (λ r : (string * string) * list C, r.1.1 = v) (rows df))
as Hin' by (by apply list_elem_of_filter).
rewrite Hf in Hin'. by apply elem_of_nil in Hin'.
- intros [= <-]. split; [|done].
assert (r ∈ filter (λ r : (string * string) * list C, r.1.1 = v) (rows df))
as [Hv Hr]%list_elem_of_filter by (rewrite Hf; left).
exists r.1.2. apply list_elem_of_fmap. exists r. split; [|done].
destruct r as [[v' R] cells]; simpl in *. by subst.
- by intros [_ ->].
Qed.

Lemma assoc_loc_field v (rs : list ((string * string) * list C)) R :
assoc R ((λ r : (string * string) * list C, (r.1.2, r.2))
 <$> filter (λ r : (string * string) * list C, r.1.1 = v) rs) =
assoc (v, R) rs.
Proof.
induction rs as [|[[v' R'] cells] rs IH]; [done|].
destruct (decide (v' = v)) as [->|Hv].
- rewrite filter_cons_True by done. rewrite fmap_cons, !assoc_cons; simpl. rewrite IH.
destruct (decide (R' = R)) as [->|HR].
+ by rewrite decide_True.
+ rewrite decide_False; [done|congruence].
- rewrite filter_cons_False by done. rewrite IH, assoc_cons.
rewrite decide_False; [done|congruence].
Qed.

Lemma loc_field_row v df num R :
loc_field v df = inr num → row_of num R = row_of df (v, R).
Proof. intros [_ ->]%loc_field_inr. apply assoc_loc_field. Qed.

Lemma loc_field_columns v df num : loc_field v df = inr num → columns num = columns df.
Proof. by intros [_ ->]%loc_field_inr. Qed.

Lemma loc_field_cell `{Cell C} v df num R d :
loc_field v df = inr num → cell_of num R d = cell_of df (v, R) d.
Proof.
intros Hloc. unfold cell_of.
by rewrite (loc_field_row _ _ _ _ Hloc), (loc_field_columns _ _ _ Hloc).
Qed.

Lemma loc_field_keys v df num R :
loc_field v df = inr num → R ∈ (rows num).*1 ↔ (v, R) ∈ (rows df).*1.
Proof.
intros Hloc. rewrite <- !assoc_is_Some. fold (row_of num R). fold (row_of df (v, R)).
by rewrite (loc_field_row _ _ _ _ Hloc).
Qed.

Lemma loc_field_NoDup v df num :
loc_field v df = inr num → NoDup (rows df).*1 → NoDup (rows num).*1.
Proof.
intros [_ ->]%loc_field_inr Hnd; simpl.
apply (NoDup_filter_keys (λ r : (string * string) * list C, r.1.1 = v)) in Hnd.
rewrite <- list_fmap_compose.
match goal with |- NoDup (?g <$> ?l) =>
replace (g <$> l) with (snd <$> l.*1) by (by rewrite <- list_fmap_compose) end.
apply NoDup_fmap_2_strong; [|done].
intros [v1 R1] [v2 R2] (r1 & E1 & [H1 _]%list_elem_of_filter)%list_elem_of_fmap
(r2 & E2 & [H2 _]%list_elem_of_filter)%list_elem_of_fmap Heq.
destruct r1 as [[??]?], r2 as [[??]?]; simpl in *. congruence.
Qed.
End LocField.

Section FrameTruediv.
Implicit Types (a b : DataFrame string (option Z)).

Lemma frame_truediv_unfold a b :
frame_truediv a b =
mkDataFrame (columns a)
((λ l, (l, (λ d, truediv (cell_of a l d) (cell_of b l d)) <$> columns a))
 <$> truediv_index a b).
Proof. done. Qed.

Lemma frame_truediv_index a b : (rows (frame_truediv a b)).*1 = truediv_index a b.
Proof.
rewrite frame_truediv_unfold; simpl. rewrite <- list_fmap_compose.
apply list_fmap_id.
Qed.

Lemma elem_of_truediv_index a b R :
R ∈ truediv_index a b ↔ R ∈ (rows a).*1 ∨ R ∈ (rows b).*1.
Proof.
unfold truediv_index. case_decide as Heq.
- rewrite <- Heq. tauto.
- rewrite elem_of_unique_sorted by apply _. apply elem_of_app.
Qed.

Lemma NoDup_truediv_index a b : NoDup (rows a).*1 → NoDup (truediv_index a b).
Proof.
intros Hnd. unfold truediv_index. case_decide; [done|].
apply NoDup_unique_sorted.
Qed.

Lemma cell_of_absent a R d : R ∉ (rows a).*1 → cell_of a R d = None.
Proof. intros HR%assoc_None. unfold cell_of, row_of. by rewrite HR. Qed.

Lemma cell_of_no_column a R d : d ∉ columns a → cell_of a R d = None.
Proof.
intros Hd. unfold cell_of. destruct (row_of a R); [|done].
exact (at_label_absent _ _ _ Hd).
Qed.

Lemma frame_truediv_cell a b R d :
cell_of (frame_truediv a b) R d = truediv (cell_of a R d) (cell_of b R d).
Proof.
rewrite frame_truediv_unfold.
rewrite (cell_of_graph (λ l d, truediv (cell_of a l d) (cell_of b l d))).
destruct (decide (R ∈ truediv_index a b)) as [HR|HR];
[destruct (decide (d ∈ columns a)) as [Hd|Hd]|]; [done|..].
- by rewrite (cell_of_no_column a).
- rewrite elem_of_truediv_index in HR.
rewrite (cell_of_absent a) by tauto. done.
Qed.

Lemma frame_truediv_row a b R cells :
(R, cells) ∈ rows (frame_truediv a b) →
cells = (λ d, truediv (cell_of a R d) (cell_of b R d)) <$> columns a.
Proof.
rewrite frame_truediv_unfold; simpl.
by intros (l & [= -> ->] & _)%list_elem_of_fmap.
Qed.
End FrameTruediv.

Lemma calculate_inr m df f :
  calculate m df = inr f ↔
  ∃ num den, loc_field (numerator m) df = inr num ∧
             loc_field (denominator m) df = inr den ∧ f = frame_truediv num den.
Proof.
  unfold calculate. rewrite bind_inr. setoid_rewrite bind_inr. unfold ret.
  split.
  - intros (num & Hn & den & Hd & [= <-]). eauto.
  - intros (num & den & Hn & Hd & ->). eauto.
Qed.

(** The cell that [calculate] puts under a region and a date is the
    quotient of the two cells of the delta table, whatever they are. *)
Lemma calculate_cell m df f R d :
  calculate m df = inr f →
  cell_of f R d = truediv (cell_of df (numerator m, R) d) (cell_of df (denominator m, R) d).
Proof.
  intros (num & den & Hn & Hd & ->)%calculate_inr.
  by rewrite frame_truediv_cell, (loc_field_cell _ _ _ _ _ Hn), (loc_field_cell _ _ _ _ _ Hd).
Qed.

Lemma calculate_columns m df f : calculate m df = inr f → columns f = columns df.
Proof.
  intros (num & den & Hn & Hd & ->)%calculate_inr. simpl. by eapply loc_field_columns.
Qed.

Lemma calculate_keys m df f R :
  calculate m df = inr f →
  R ∈ (rows f).*1 ↔ (numerator m, R) ∈ (rows df).*1 ∨ (denominator m, R) ∈ (rows df).*1.
Proof.
  intros (num & den & Hn & Hd & ->)%calculate_inr.
  by rewrite frame_truediv_index, elem_of_truediv_index,
    (loc_field_keys _ _ _ _ Hn), (loc_field_keys _ _ _ _ Hd).
Qed.

Lemma calculate_NoDup m df f :
  calculate m df = inr f → NoDup (rows df).*1 → NoDup (rows f).*1.
Proof.
  intros (num & den & Hn & Hd & ->)%calculate_inr Hnd.
  rewrite frame_truediv_index. apply NoDup_truediv_index. by eapply loc_field_NoDup.
Qed.

Lemma calculate_row m df f R cells :
  calculate m df = inr f → (R, cells) ∈ rows f →
  cells = (λ d, truediv (cell_of df (numerator m, R) d) (cell_of df (denominator m, R) d))
          <$> columns df.
Proof.
  intros (num & den & Hn & Hd & ->)%calculate_inr Hin%frame_truediv_row. subst cells.
  rewrite (loc_field_columns _ _ _ Hn). apply list_fmap_ext. intros _ d _.
  by rewrite (loc_field_cell _ _ _ _ _ Hn), (loc_field_cell _ _ _ _ _ Hd).
Qed.

Lemma calculate_succeeds m df :
  (∃ R, (numerator m, R) ∈ (rows df).*1) → (∃ R, (denominator m, R) ∈ (rows df).*1) →
  ∃ f, calculate m df = inr f.
Proof.
  intros Hn Hd. eexists. apply calculate_inr. do 2 eexists.
  split; [|split; [|done]]; by apply loc_field_inr.
Qed.

Lemma calculate_fails m df e :
  calculate m df = inl e → e = KeyError ∧
  ((∀ R, (numerator m, R) ∉ (rows df).*1) ∨ (∀ R, (denominator m, R) ∉ (rows df).*1)).
Proof.
  unfold calculate, loc_field.
  destruct (filter (λ r : (string * string) * list (option Z), r.1.1 = numerator m) (rows df))
    as [|r rs] eqn:Hn; simpl.
  - intros [= <-]. split; [done|left]. intros R ([[v R'] c] & [= <- <-] & Hin)%list_elem_of_fmap.
    eapply (filter_nil_not_elem_of _ _ _ Hn); [|done]. done.
  - destruct (filter (λ r : (string * string) * list (option Z), r.1.1 = denominator m) (rows df))
      as [|r' rs'] eqn:Hd; simpl; [|done].
    intros [= <-]. split; [done|right]. intros R ([[v R'] c] & [= <- <-] & Hin)%list_elem_of_fmap.
    eapply (filter_nil_not_elem_of _ _ _ Hd); [|done]. done.
Qed.

(** ** The dict of candidate frames *)

Lemma dict_set_fresh {V} (k : string) (v : V) (d : list (string * V)) :
  k ∉ d.*1 → dict_set k v d = (d ++ [(k, v)])%list.
Proof.
  induction d as [|[k' v'] d IH]; simpl; [done|].
  intros [Hk Hd]%not_elem_of_cons. rewrite decide_False by done. by rewrite IH.
Qed.

Lemma dict_set_not_nil {V} (k : string) (v : V) (d : list (string * V)) :
  dict_set k v d ≠ [].
Proof. destruct d as [|[k' v'] d]; simpl; [done|]. by case_decide. Qed.

Lemma frame_of_inr m df f : calculate m df = inr f → frame_of m df = f.
Proof. unfold frame_of. by intros ->. Qed.

(** On the delta table of a run the two assertions of [Method.calculate]
    hold. *)
Lemma Method_calculate_delta_axes m df : Method_calculate m (delta_axes df) = calculate m df.
Proof. done. Qed.

Lemma calculate_from_cons m methods df d :
  calculate_from (m :: methods) df d =
  let* f := calculate m df in calculate_from methods df (dict_set (name m) f d).
Proof. done. Qed.

Lemma calculate_from_inr methods df d frames :
  calculate_from methods df d = inr frames →
  NoDup (name <$> methods) → (∀ m, m ∈ methods → name m ∉ d.*1) →
  frames = (d ++ ((λ m, (name m, frame_of m df)) <$> methods))%list ∧
  ∀ m, m ∈ methods → calculate m df = inr (frame_of m df).
Proof.
  revert d. induction methods as [|m methods IH]; intros d; [simpl|rewrite calculate_from_cons; simpl].
  - intros [= <-] _ _. split; [by rewrite app_nil_r|]. by intros m ?%elem_of_nil.
  - intros (f & Hf & Hrest)%bind_inr [Hm Hnd]%NoDup_cons Hfresh.
    rewrite dict_set_fresh in Hrest by (apply Hfresh; left).
    apply IH in Hrest as [-> Hall]; [|done|].
    + rewrite (frame_of_inr _ _ _ Hf). split; [by rewrite <- app_assoc|].
      intros m' [->|Hm']%elem_of_cons; [by rewrite (frame_of_inr _ _ _ Hf)|auto].
    + intros m' Hm'. rewrite fmap_app, elem_of_app; simpl.
      intros [Hd|Hd].
      * eapply Hfresh; [by right|done].
      * apply list_elem_of_singleton in Hd. apply Hm. rewrite <- Hd.
        by apply list_elem_of_fmap_2.
Qed.

Lemma calculate_all_inr methods df frames :
  calculate_all methods df = inr frames → NoDup (name <$> methods) →
  frames = (λ m, (name m, frame_of m df)) <$> methods ∧
  ∀ m, m ∈ methods → calculate m df = inr (frame_of m df).
Proof.
  intros H Hnd. apply calculate_from_inr in H; [done..|].
  intros m _. apply not_elem_of_nil.
Qed.

Lemma calculate_from_each methods df d frames :
  calculate_from methods df d = inr frames →
  ∀ m, m ∈ methods → ∃ f, calculate m df = inr f.
Proof.
  revert d. induction methods as [|m methods IH]; intros d; [simpl|rewrite calculate_from_cons; simpl].
  - by intros _ m ?%elem_of_nil.
  - intros (f & Hf & Hrest)%bind_inr m' [->|Hm']%elem_of_cons; eauto.
Qed.

Lemma calculate_from_succeeds methods df d :
  (∀ m, m ∈ methods → ∃ f, calculate m df = inr f) →
  ∃ frames, calculate_from methods df d = inr frames ∧ (methods ≠ [] ∨ d ≠ [] → frames ≠ []).
Proof.
  revert d. induction methods as [|m methods IH]; intros d Hall;
    [simpl|rewrite calculate_from_cons; simpl].
  - exists d. split; [done|]. by intros [?|?].
  - destruct (Hall m) as [f Hf]; [left|]. rewrite Hf. simpl.
    destruct (IH (dict_set (name m) f d)) as (frames & -> & Hne).
    { intros m' Hm'. apply Hall. by right. }
    exists frames. split; [done|]. intros _. apply Hne. right. apply dict_set_not_nil.
Qed.

Lemma calculate_from_fails methods df d e :
  calculate_from methods df d = inl e → ∃ m, m ∈ methods ∧ calculate m df = inl e.
Proof.
  revert d. induction methods as [|m methods IH]; intros d; [done|].
  rewrite calculate_from_cons.
  destruct (calculate m df) as [e'|f] eqn:Hf; simpl.
  - intros [= <-]. exists m. split; [left|done].
  - intros (m' & Hm' & He)%IH. exists m'. split; [by right|done].
Qed.

(** ** The table of all methods *)

Lemma concat_inr {K C} (cols : list Z) (frames : list (string * DataFrame K C)) c :
  concat cols frames = inr c ↔
  frames ≠ [] ∧
  c = mkDataFrame cols
        (flat_map (λ kf : string * DataFrame K C,
                     (λ r : K * list C, ((kf.1, r.1), r.2)) <$> rows kf.2) frames).
Proof.
  unfold concat, ret, raise. destruct frames; split; try done.
  - by intros [? _].
  - by intros [= <-].
  - by intros [_ ->].
Qed.

Lemma NoDup_concat_keys {K C} (frames : list (string * DataFrame K C)) :
  NoDup frames.*1 → (∀ kf, kf ∈ frames → NoDup (rows kf.2).*1) →
  NoDup (flat_map (λ kf : string * DataFrame K C,
                     (λ r : K * list C, ((kf.1, r.1), r.2)) <$> rows kf.2) frames).*1.
Proof.
  induction frames as [|[n f] frames IH]; simpl; [constructor|].
  intros [Hn Hnd]%NoDup_cons Hrows. rewrite fmap_app. apply NoDup_app. split; [|split].
  - rewrite <- list_fmap_compose.
    replace ((fst ∘ (λ r : K * list C, (n, r.1, r.2))) <$> rows f)
      with (pair n <$> (rows f).*1) by (by rewrite <- list_fmap_compose).
    apply NoDup_fmap_2; [by intros ?? [=]|]. apply (Hrows (n, f)). left.
  - intros [n' l] Hin1 Hin2.
    apply list_elem_of_fmap in Hin1 as ([[n1 l1] c1] & [= -> ->] & Hin1).
    apply list_elem_of_fmap in Hin1 as ([l1' c1'] & [= -> _ _] & _).
    apply list_elem_of_fmap in Hin2 as ([[n2 l2] c2] & [= -> ->] & Hin2).
    apply elem_of_flat_map in Hin2 as ([n3 f3] & Hin & Hr).
    apply list_elem_of_fmap in Hr as (r & [= -> _ _] & _). simpl in *.
    apply Hn. by apply (list_elem_of_fmap_2' fst _ (n3, f3)).
  - apply IH; [done|]. intros kf Hkf. apply Hrows. by right.
Qed.

Section RunCandidates.
Context (cols : list string) (ds : MultiRegionTimeseriesDataset (option Z))
(methods : list Method) (diff_days : Z) (recent_days : nat) (L : Locals).
Hypothesis Hrun : run_body cols ds methods diff_days recent_days = inr L.
Hypothesis Hnames : NoDup (name <$> methods).

Let long := timeseries_long ds cols.

Lemma run_diff_df_keys v R : (v, R) ∈ (rows (diff_df L)).*1 ↔ has_field long v R.
Proof.
rewrite (run_diff_df _ _ _ _ _ _ Hrun); simpl. rewrite <- list_fmap_compose.
rewrite list_fmap_id. apply (run_keys cols ds).
Qed.

Lemma run_diff_df_NoDup : NoDup (rows (diff_df L)).*1.
Proof.
rewrite (run_diff_df _ _ _ _ _ _ Hrun); simpl. rewrite <- list_fmap_compose.
rewrite list_fmap_id. apply NoDup_unique_sorted.
Qed.

Lemma run_diff_df_columns : columns (diff_df L) = input_date_range L.
Proof. by rewrite (run_diff_df _ _ _ _ _ _ Hrun). Qed.

Lemma run_calculate m : m ∈ methods → calculate m (diff_df L) = inr (frame_of m (diff_df L)).
Proof.
intros Hm. apply run_body_inv in Hrun as (?&?&?&frames&?&_&_&_&_&Hf&_).
by apply calculate_all_inr in Hf as [_ Hall]; [apply Hall|].
Qed.

(** The rows of the frame of a method: one per region with a reading of
one of its fields, holding the candidate series of the region. *)
Lemma run_frame_rows m R cells :
m ∈ methods →
(R, cells) ∈ rows (frame_of m (diff_df L)) ↔
(has_field long (numerator m) R ∨ has_field long (denominator m) R) ∧
cells = candidate long diff_days m R <$> input_date_range L.
Proof.
intros Hm. pose proof (run_calculate m Hm) as Hcalc.
assert (∀ cells', (R, cells') ∈ rows (frame_of m (diff_df L)) →
cells' = candidate long diff_days m R <$> input_date_range L) as Hcells.
{ intros cells' Hin. rewrite (calculate_row _ _ _ _ _ Hcalc Hin), run_diff_df_columns.
apply list_fmap_ext. intros _ d _. unfold candidate.
by rewrite !(run_diff_df_cell _ _ _ _ _ _ Hrun). }
rewrite <- !run_diff_df_keys, <- (calculate_keys _ _ _ _ Hcalc). split.
- intros Hin. split; [|by apply Hcells].
by apply (list_elem_of_fmap_2' fst _ (R, cells)).
- intros [([R' cells'] & -> & Hin)%list_elem_of_fmap ->].
by rewrite <- (Hcells _ Hin).
Qed.

Lemma run_frame_NoDup m : m ∈ methods → NoDup (rows (frame_of m (diff_df L))).*1.
Proof.
intros Hm. eapply calculate_NoDup; [by apply run_calculate|]. apply run_diff_df_NoDup.
Qed.

Lemma run_all_wide :
all_wide L = mkDataFrame (input_date_range L) (sort_by fst pair_leb (unsorted_rows methods (diff_df L))).
Proof.
apply run_body_inv in Hrun as (?&?&?&frames&c&_&_&_&_&Hf&Hc&_&->&_&_&_&->&_).
apply calculate_all_inr in Hf as [-> _]; [|done].
by apply concat_inr in Hc as [_ ->].
Qed.

Lemma elem_of_unsorted_rows R n cells :
((R, n), cells) ∈ unsorted_rows methods (diff_df L) ↔
∃ m, m ∈ methods ∧ n = name m ∧
 (has_field long (numerator m) R ∨ has_field long (denominator m) R) ∧
 cells = candidate long diff_days m R <$> input_date_range L ∧
 existsb notna cells = true.
Proof.
unfold unsorted_rows. rewrite list_elem_of_filter, list_elem_of_fmap. simpl. split.
- intros [Hna ([[n' R'] c] & [= -> -> ->] & Hin)]. simpl in *.
apply elem_of_flat_map in Hin as ([n'' f] & (m & [= -> ->] & Hm)%list_elem_of_fmap & Hr).
apply list_elem_of_fmap in Hr as ([R'' c'] & [= -> ->] & Hr). simpl in *.
apply run_frame_rows in Hr as [Hf Hc]; [|done]. exists m. by subst.
- intros (m & Hm & -> & Hf & -> & Hna). split; [done|].
exists ((name m, R), candidate long diff_days m R <$> input_date_range L).
split; [done|]. apply elem_of_flat_map. exists (name m, frame_of m (diff_df L)).
split; [by apply (list_elem_of_fmap_2' _ _ m)|]. simpl.
apply (list_elem_of_fmap_2' _ _ (R, candidate long diff_days m R <$> input_date_range L));
[|done].
by apply run_frame_rows.
Qed.

Lemma NoDup_unsorted_rows : NoDup (unsorted_rows methods (diff_df L)).*1.
Proof.
unfold unsorted_rows. apply NoDup_filter_keys.
rewrite <- list_fmap_compose.
match goal with |- NoDup (?g <$> ?l) =>
replace (g <$> l) with ((λ k : string * string, (k.2, k.1)) <$> l.*1)
by (by rewrite <- list_fmap_compose) end.
apply NoDup_fmap_2; [by intros [??] [??] [= -> ->]|].
apply NoDup_concat_keys.
- rewrite <- list_fmap_compose. done.
- intros [n f] (m & [= -> ->] & Hm)%list_elem_of_fmap. by apply run_frame_NoDup.
Qed.

Lemma run_all_wide_columns : columns (all_wide L) = input_date_range L.
Proof. by rewrite run_all_wide. Qed.

Lemma run_all_wide_elem R n cells :
((R, n), cells) ∈ rows (all_wide L) ↔
∃ m, m ∈ methods ∧ n = name m ∧
 (has_field long (numerator m) R ∨ has_field long (denominator m) R) ∧
 cells = candidate long diff_days m R <$> input_date_range L ∧
 existsb notna cells = true.
Proof.
rewrite run_all_wide; simpl. rewrite elem_of_sort_by. apply elem_of_unsorted_rows.
Qed.

Lemma run_all_wide_NoDup : NoDup (rows (all_wide L)).*1.
Proof. rewrite run_all_wide; simpl. rewrite sort_by_perm. apply NoDup_unsorted_rows. Qed.

Lemma run_all_wide_sorted : StronglySorted (key_le fst pair_leb) (rows (all_wide L)).
Proof. rewrite run_all_wide; simpl. apply sort_by_sorted, _. Qed.
End RunCandidates.

(** ** Selection *)

Lemma assoc_app {K V} `{EqDecision K} (k : K) (l1 l2 : list (K * V)) :
  assoc k (l1 ++ l2) = match assoc k l1 with Some v => Some v | None => assoc k l2 end.
Proof.
  induction l1 as [|[k' v'] l1 IH]; [done|]. rewrite <- app_comm_cons, !assoc_cons.
  by case_decide.
Qed.

Lemma group_of_nil R rs : R ∉ rs.*1.*1 → group_of R rs = [].
Proof.
  intros HR. unfold group_of. induction rs as [|r rs IH]; [done|].
  rewrite !fmap_cons, not_elem_of_cons in HR. destruct HR as [H1 H2].
  rewrite filter_cons_False by done. auto.
Qed.

Lemma elem_of_group_of R rs r : r ∈ group_of R rs ↔ r.1.1 = R ∧ r ∈ rs.
Proof. unfold group_of. by rewrite list_elem_of_filter. Qed.

Lemma omap_cons {A B} (g : A → option B) (x : A) (l : list A) :
  omap g (x :: l) = match g x with Some y => y :: omap g l | None => omap g l end.
Proof. done. Qed.

(** The provenance of a region is the method of the first row of its
    group. *)
Lemma assoc_provenance (H : string → option string) (locs : list string) (R : string) :
  assoc (R, "positivity")
    (omap (λ l, (λ n, ((l, "positivity"), n)) <$> H l) locs) =
  if decide (R ∈ locs) then H R else None.
Proof.
  induction locs as [|l locs IH]; [done|]. rewrite omap_cons.
  destruct (decide (l = R)) as [->|Hl].
  - rewrite decide_True by left. destruct (H R) as [n|] eqn:HR; simpl.
    + by rewrite decide_True.
    + rewrite IH. by case_decide.
  - assert ((if decide (R ∈ l :: locs) then H R else None) =
            (if decide (R ∈ locs) then H R else None)) as ->.
    { destruct (decide (R ∈ locs)) as [Hin|Hin].
      - rewrite decide_True; [done|by right].
      - rewrite decide_False; [done|]. rewrite not_elem_of_cons. naive_solver. }
    destruct (H l) as [n|]; simpl; [|done].
    rewrite decide_False by congruence. done.
Qed.

Lemma omap_fmap {A B C} (f : A → B) (g : B → option C) (l : list A) :
  omap g (f <$> l) = omap (g ∘ f) l.
Proof.
  induction l as [|x l IH]; [done|]. rewrite fmap_cons, !omap_cons, IH. done.
Qed.

Lemma groupby_first_provenance ncols rs R :
  assoc (R, "positivity")
    (omap (λ r : string * (option string * list ratio),
             (λ n, ((r.1, "positivity"), n)) <$> r.2.1) (groupby_first ncols rs)) =
  head ((group_of R rs).*1.*2).
Proof.
  unfold groupby_first. rewrite omap_fmap. unfold compose. cbn [fst snd].
  rewrite (assoc_provenance (λ l, head ((group_of l rs).*1.*2))).
  case_decide as HR; [done|].
  rewrite elem_of_unique_sorted in HR by apply _. by rewrite group_of_nil.
Qed.

Lemma stack_cons {K C} `{Cell C} (cols : list Z) (r : K * list C) (rs : list (K * list C)) :
  stack cols (r :: rs) =
  (((λ dc : Z * C, ((r.1, dc.1), dc.2))
    <$> filter (λ dc : Z * C, notna dc.2 = true) (zip cols r.2)) ++ stack cols rs)%list.
Proof. done. Qed.

(** The records that [stack] makes of a frame with one row per label. *)
Lemma assoc_stack (cells : string → list ratio) (cols : list Z) (locs : list string)
    (R : string) (d : Z) :
  assoc (("positivity", R), d)
    (obs_entry <$> ((λ r : (string * Z) * ratio, mkObservation "positivity" r.1.1 r.1.2 r.2)
                    <$> stack cols ((λ l, (l, cells l)) <$> locs))) =
  if decide (R ∈ locs)
  then assoc d (filter (λ dc : Z * ratio, notna dc.2 = true) (zip cols (cells R)))
  else None.
Proof.
  induction locs as [|l locs IH]; [done|].
  rewrite fmap_cons, stack_cons, !fmap_app, assoc_app, IH.
  clear IH. rewrite <- !list_fmap_compose. cbn [fst snd].
  destruct (decide (l = R)) as [->|Hl].
  - destruct (decide (R ∈ R :: locs)) as [_|Hn]; [|by destruct Hn; left].
    set (es := filter _ (zip cols (cells R))).
    assert (assoc ("positivity", R, d)
              ((obs_entry ∘ (λ r : (string * Z) * ratio, mkObservation "positivity" r.1.1 r.1.2 r.2)
                ∘ (λ dc : Z * ratio, ((R, dc.1), dc.2))) <$> es) = assoc d es) as ->.
    { clear. induction es as [|[d' c] es IH]; [done|].
      rewrite fmap_cons, !assoc_cons. simpl. rewrite IH.
      destruct (decide (d' = d)) as [->|Hd].
      - by rewrite decide_True.
      - rewrite decide_False; [done|congruence]. }
    destruct (assoc d es); [done|]. by case_decide.
  - set (es := filter _ (zip cols (cells l))).
    assert (assoc ("positivity", R, d)
              ((obs_entry ∘ (λ r : (string * Z) * ratio, mkObservation "positivity" r.1.1 r.1.2 r.2)
                ∘ (λ dc : Z * ratio, ((l, dc.1), dc.2))) <$> es) = None) as ->.
    { apply assoc_None. intros (e & Heq & Hin)%list_elem_of_fmap.
      apply list_elem_of_fmap in Hin as ([d2 c2] & -> & _). unfold obs_entry, obs_key in Heq. simpl in Heq.
      injection Heq as ? ?. done. }
    destruct (decide (R ∈ locs)) as [Hin|Hin].
    + rewrite decide_True; [done|by right].
    + rewrite decide_False; [done|]. rewrite not_elem_of_cons. naive_solver.
Qed.

Lemma at_label_cons {C} `{Cell C} (x : Z) (cols : list Z) (c : C) (cells : list C) (d : Z) :
  at_label (x :: cols) (c :: cells) d = if decide (x = d) then c else at_label cols cells d.
Proof. unfold at_label. simpl. by case_decide. Qed.

Lemma at_label_nil_r {C} `{Cell C} (cols : list Z) (d : Z) : at_label cols [] d = nan.
Proof. by destruct cols. Qed.

Lemma notna_false (c : ratio) : notna c = false ↔ c = NaN.
Proof. destruct c; simpl; split; done. Qed.

(** Reading a stacked row gives back its cells, NaN included. *)
Lemma assoc_stacked_row (cols : list Z) (cells : list ratio) (d : Z) :
  NoDup cols →
  default NaN (assoc d (filter (λ dc : Z * ratio, notna dc.2 = true) (zip cols cells))) =
  at_label cols cells d.
Proof.
  revert cells. induction cols as [|x cols IH]; intros [|c cells] Hnd; try done.
  apply NoDup_cons in Hnd as [Hx Hnd]. rewrite at_label_cons.
  change (zip (x :: cols) (c :: cells)) with ((x, c) :: zip cols cells).
  destruct (notna c) eqn:Hc.
  - rewrite filter_cons_True by done. rewrite assoc_cons. case_decide; [done|]. by apply IH.
  - rewrite filter_cons_False by (cbn [snd]; congruence). rewrite IH by done.
    case_decide as Hxd; [|done]. subst. apply notna_false in Hc as ->.
    exact (at_label_absent _ _ _ Hx).
Qed.

(** ** The first row of a group *)

Lemma at_label_replicate_nan (cols : list Z) (n : nat) (d : Z) :
  at_label cols (replicate n NaN) d = NaN.
Proof.
  revert n. induction cols as [|x cols IH]; intros [|n]; try done.
  simpl replicate. rewrite at_label_cons. by case_decide.
Qed.

Lemma at_label_first_notna (cols : list Z) (a b : list ratio) (d : Z) :
  length a = length b →
  at_label cols (zip_with first_notna a b) d =
  first_notna (at_label cols a d) (at_label cols b d).
Proof.
  revert a b. induction cols as [|x cols IH]; intros [|a0 a] [|b0 b] Hlen; try done.
  simpl zip_with. rewrite !at_label_cons. case_decide; [done|].
  apply IH. by injection Hlen.
Qed.

Lemma length_first_row (n : nat) (group : list (list ratio)) :
  Forall (λ r, length r = n) group → length (first_row n group) = n.
Proof.
  induction 1 as [|r group Hr _ IH]; simpl.
  - apply length_replicate.
  - rewrite length_zip_with, IH, Hr. lia.
Qed.

Lemma at_label_first_row_cons (cols : list Z) (n : nat) (r : list ratio)
    (group : list (list ratio)) (d : Z) :
  Forall (λ r, length r = n) (r :: group) →
  at_label cols (first_row n (r :: group)) d =
  first_notna (at_label cols r d) (at_label cols (first_row n group) d).
Proof.
  intros [Hr Hg]%Forall_cons. simpl. apply at_label_first_notna.
  by rewrite length_first_row.
Qed.

(** A non-null cell of the first row of a group is the cell of the output. *)
Lemma first_row_head (cols : list Z) (n : nat) (r : list ratio)
    (group : list (list ratio)) (d : Z) :
  Forall (λ r, length r = n) (r :: group) →
  notna (at_label cols r d) = true →
  at_label cols (first_row n (r :: group)) d = at_label cols r d.
Proof.
  intros Hlen Hna. rewrite at_label_first_row_cons by done.
  unfold first_notna. by rewrite Hna.
Qed.

Lemma has_recent_data_true (cols recent : list Z) (cells : list ratio) :
  has_recent_data cols recent cells = true ↔
  ∃ d, d ∈ recent ∧ notna (at_label cols cells d) = true.
Proof.
  unfold has_recent_data. rewrite existsb_elem_of. split.
  - intros (c & (d & -> & Hd)%list_elem_of_fmap & Hc). eauto.
  - intros (d & Hd & Hc). exists (at_label cols cells d). split; [|done].
    by apply list_elem_of_fmap_2.
Qed.

Lemma groupby_first_positivity (n : nat) (rs : list ((string * string) * list ratio)) :
  (λ r : string * (option string * list ratio), (r.1, r.2.2)) <$> groupby_first n rs =
  (λ l, (l, first_row n ((group_of l rs).*2))) <$> unique_sorted str_leb (rs.*1.*1).
Proof. unfold groupby_first. by rewrite <- list_fmap_compose. Qed.

(** ** What a run returns *)

Section RunSelection.
Context (cols : list string) (ds : MultiRegionTimeseriesDataset (option Z))
(methods : list Method) (diff_days : Z) (recent_days : nat) (L : Locals).
Hypothesis Hrun : run_body cols ds methods diff_days recent_days = inr L.

Lemma run_columns : columns (all_wide L) = input_date_range L.
Proof.
apply run_body_inv in Hrun as (?&?&?&?&c&_&_&_&_&_&Hc&_&->&_&_&_&->&_).
by apply concat_inr in Hc as [_ ->].
Qed.

Lemma run_columns_NoDup : NoDup (columns (all_wide L)).
Proof.
rewrite run_columns. destruct (run_bounds _ _ _ _ _ _ Hrun) as (s & e & _ & _ & -> & _).
apply NoDup_seqZ.
Qed.

Lemma run_sorted : StronglySorted (key_le fst pair_leb) (rows (all_wide L)).
Proof.
apply run_body_inv in Hrun as (?&?&?&?&c&_&_&_&_&_&_&_&_&_&_&_&->&_).
apply sort_by_sorted, _.
Qed.

Lemma run_returned_table : all_methods_timeseries (returned L) = all_wide L.
Proof. apply run_body_inv in Hrun as (?&?&?&?&?&_&_&_&_&_&_&_&_&_&_&_&_&_&_&->). done. Qed.

Lemma elem_of_all_recent_data r :
r ∈ all_recent_data L ↔
r ∈ rows (all_wide L) ∧
has_recent_data (columns (all_wide L)) (recent_date_range L) r.2 = true.
Proof.
apply run_body_inv in Hrun as (?&?&?&?&?&_&_&_&_&_&_&_&_&_&_&_&_&->&_).
rewrite list_elem_of_filter. tauto.
Qed.

Lemma run_recent_sorted : StronglySorted (key_le fst pair_leb) (all_recent_data L).
Proof.
pose proof run_sorted as Hs.
apply run_body_inv in Hrun as (?&?&?&?&?&_&_&_&_&_&_&_&_&_&_&_&_&->&_).
by apply filter_sorted.
Qed.

Lemma elem_of_recent_date_range d :
d ∈ recent_date_range L ↔
d ∈ input_date_range L ∧
∃ e, dates_max (date <$> timeseries_long ds cols) = Some e ∧
 e - Z.of_nat recent_days < d ≤ e.
Proof.
destruct (run_bounds _ _ _ _ _ _ Hrun) as (s & e & Hs & He & -> & ->).
rewrite elem_of_intersection, elem_of_date_range_end. split.
- intros [Hd Hin]. split; [done|]. by exists e.
- intros [Hin (e' & He' & Hd)]. by simplify_eq.
Qed.

(** The method recorded for a region is that of the first row of its
group of rows with recent data. *)
Lemma run_selected R :
selected_method (returned L) R = head ((group_of R (all_recent_data L)).*1.*2).
Proof.
apply run_body_inv in Hrun as (?&?&?&?&?&_&_&_&_&_&_&_&_&_&_&_&_&_&->&->).
apply groupby_first_provenance.
Qed.

(** The positivity returned for a region and a date is the first non-null
cell under that date in the group of the region. *)
Lemma run_positivity_at R d :
positivity_at (returned L) R d =
at_label (columns (all_wide L))
(first_row (length (columns (all_wide L))) ((group_of R (all_recent_data L)).*2)) d.
Proof.
pose proof run_columns_NoDup as Hnd.
apply run_body_inv in Hrun as (?&?&?&?&?&_&_&_&_&_&_&_&_&_&_&_&_&_&Hfirst&->).
unfold positivity_at; simpl. rewrite Hfirst, groupby_first_positivity.
rewrite (assoc_stack
 (λ l, first_row (length (columns (all_wide L)))
 ((group_of l (all_recent_data L)).*2))).
case_decide as HR.
- by apply assoc_stacked_row.
- rewrite elem_of_unique_sorted in HR by apply _. rewrite group_of_nil by done.
simpl. by rewrite at_label_replicate_nan.
Qed.

Lemma elem_of_run_provenance e :
e ∈ provenance (test_positivity (returned L)) →
∃ R n cells, e = ((R, "positivity"), n) ∧ ((R, n), cells) ∈ all_recent_data L.
Proof.
apply run_body_inv in Hrun as (?&?&?&?&?&_&_&_&_&_&_&_&_&_&_&_&_&_&->&->).
simpl. unfold groupby_first. rewrite omap_fmap.
intros (R & _ & Hn)%list_elem_of_omap. unfold compose in Hn; simpl in Hn.
destruct (group_of R (all_recent_data L)) as [|[[R' n] cells] g] eqn:Hg; [done|].
simpl in Hn. injection Hn as <-.
assert (((R', n), cells) ∈ group_of R (all_recent_data L)) as [HR Hin]%elem_of_group_of
by (rewrite Hg; left).
simpl in HR. subst R'. by exists R, n, cells.
Qed.

Lemma elem_of_run_records o :
o ∈ data_long (test_positivity (returned L)) →
variable o = "positivity" ∧ notna (value o) = true ∧
∃ n cells, ((location_id o, n), cells) ∈ all_recent_data L.
Proof.
apply run_body_inv in Hrun as (?&?&?&?&?&_&_&_&_&_&_&_&_&_&_&_&_&_&->&->).
simpl. intros ([[R d] c] & -> & Hin)%list_elem_of_fmap. simpl.
unfold stack in Hin. apply elem_of_flat_map in Hin as ([R' cells] & Hrow & Hin).
apply list_elem_of_fmap in Hin as ([d' c'] & [= -> -> ->] & [Hna _]%list_elem_of_filter).
split; [done|]. split; [done|]. simpl in *.
apply list_elem_of_fmap in Hrow as ([R2 [n2 cells2]] & [= -> ->] & Hrow).
unfold groupby_first in Hrow.
apply list_elem_of_fmap in Hrow as (R3 & [= -> _ _] & HR). simpl.
rewrite elem_of_unique_sorted in HR by apply _.
apply list_elem_of_fmap in HR as ([R4 n] & -> & HR).
apply list_elem_of_fmap in HR as ([[R5 n5] cells5] & [= -> ->] & HR). eauto.
Qed.
End RunSelection.

(** ** When a run returns and when it raises *)

Lemma diff_keys {K} (p : Z) (df : DataFrame K (option Z)) : (rows (diff p df)).*1 = (rows df).*1.
Proof. unfold diff; simpl. by rewrite <- list_fmap_compose. Qed.

Lemma reindex_keys {K C} `{Cell C} (axis : list Z) (df : DataFrame K C) :
  (rows (reindex_columns axis df)).*1 = (rows df).*1.
Proof. unfold reindex_columns; simpl. by rewrite <- list_fmap_compose. Qed.

Lemma unstack_keys long u :
  unstack long = inr u → (rows u).*1 = unique_sorted pair_leb (obs_key <$> long).
Proof.
  intros [_ ->]%unstack_inr; simpl. rewrite <- list_fmap_compose. apply list_fmap_id.
Qed.

Lemma delta_table_keys long u axis p v R :
  unstack long = inr u →
  (v, R) ∈ (rows (diff p (reindex_columns axis u))).*1 ↔ has_field long v R.
Proof.
  intros Hu. rewrite diff_keys, reindex_keys, (unstack_keys _ _ Hu).
  rewrite elem_of_unique_sorted by apply _. rewrite list_elem_of_fmap.
  unfold has_field. naive_solver.
Qed.

Lemma dates_min_is_Some (ds : list Z) : ds ≠ [] → is_Some (dates_min ds).
Proof. destruct ds; [done|]. by eexists. Qed.

Lemma dates_max_is_Some (ds : list Z) : ds ≠ [] → is_Some (dates_max ds).
Proof. destruct ds; [done|]. by eexists. Qed.

Lemma forallb_columns (columns cols : list string) :
  forallb (λ c, bool_decide (c ∈ columns)) cols = true ↔ ∀ c, c ∈ cols → c ∈ columns.
Proof.
  rewrite forallb_forall. setoid_rewrite <- list_elem_of_In.
  by setoid_rewrite bool_decide_eq_true.
Qed.

Lemma has_field_not_nil long v R : has_field long v R → long ≠ [].
Proof. intros (o & Ho & _) ->. by apply elem_of_nil in Ho. Qed.

Lemma forallb_columns_false (columns cols : list string) :
  forallb (λ c, bool_decide (c ∈ columns)) cols = false → ∃ c, c ∈ cols ∧ c ∉ columns.
Proof.
  induction cols as [|c cols IH]; simpl; [done|].
  destruct (bool_decide (c ∈ columns)) eqn:Hc; simpl.
  - intros (c' & Hc' & Hn)%IH. exists c'. split; [by right|done].
  - intros _. exists c. split; [left|]. by apply bool_decide_eq_false in Hc.
Qed.

Lemma calculate_from_not_nil methods df d frames :
  calculate_from methods df d = inr frames → d ≠ [] → frames ≠ [].
Proof.
  revert d. induction methods as [|m methods IH]; intros d; [simpl|rewrite calculate_from_cons; simpl].
  - by intros [= <-].
  - intros (f & _ & Hrest)%bind_inr _. eapply IH; [done|]. apply dict_set_not_nil.
Qed.

Lemma calculate_all_nil methods df : calculate_all methods df = inr [] → methods = [].
Proof.
  destruct methods as [|m methods]; [done|]. unfold calculate_all.
  rewrite calculate_from_cons.
  intros (f & _ & Hrest)%bind_inr. by apply calculate_from_not_nil in Hrest.
Qed.

Section RunOutcome.
Context (cols : list string) (ds : MultiRegionTimeseriesDataset (option Z))
(methods : list Method) (diff_days : Z) (recent_days : nat).

Let long := timeseries_long ds cols.

(** The fields of the methods whose frames were computed have rows in the
delta table. *)
Lemma calculated_fields u s e frames :
unstack long = inr u →
calculate_all methods (diff diff_days (reindex_columns (date_range s e) u)) = inr frames →
∀ m, m ∈ methods →
(∃ R, has_field long (numerator m) R) ∧ (∃ R, has_field long (denominator m) R).
Proof.
intros Hu Hf m Hm. unfold calculate_all in Hf.
destruct (calculate_from_each _ _ _ _ Hf m Hm) as (f & Hcalc).
apply calculate_inr in Hcalc as (num & den & [[Rn Hn] _]%loc_field_inr
             & [[Rd Hdn] _]%loc_field_inr & _).
apply (delta_table_keys _ _ _ _ _ _ Hu) in Hn, Hdn. eauto.
Qed.

Lemma run_body_runnable L :
run_body cols ds methods diff_days recent_days = inr L → runnable cols ds methods.
Proof.
intros Hrun. pose proof (run_body_names _ _ _ _ _ _ Hrun) as Hnames.
pose proof (run_body_inv _ _ _ _ _ _ Hrun)
as (s&e&u&frames&c&Hassert&Hs&He&Hu&Hf&Hc&_&_&_&Hw&Hd&_).
split; [by apply forallb_columns|]. split; [|split; [done|split]].
- intros ->. apply concat_inr in Hc as [Hne _]. by injection Hf as <-.
- by apply unstack_inr in Hu as [? _].
- rewrite Hd, Hw in Hf. by apply (calculated_fields u s e frames).
Qed.

Lemma runnable_run_body :
runnable cols ds methods → ∃ L, run_body cols ds methods diff_days recent_days = inr L.
Proof.
intros (Hcols & Hne & Hnames & Hnd & Hfields). unfold run_body.
apply forallb_columns in Hcols as ->. simpl.
assert (long ≠ []) as Hlong.
{ destruct methods as [|m ms]; [done|].
destruct (Hfields m) as [[R HR] _]; [left|]. by eapply has_field_not_nil. }
destruct (dates_min_is_Some (date <$> long)) as [s Hs].
{ by intros ?%fmap_nil_inv. }
destruct (dates_max_is_Some (date <$> long)) as [e He].
{ by intros ?%fmap_nil_inv. }
fold long. rewrite Hs, He. simpl.
destruct (unstack long) as [?|u] eqn:Hu.
{ unfold unstack in Hu. by rewrite decide_True in Hu. }
simpl.
destruct (calculate_from_succeeds methods
(diff diff_days (reindex_columns (date_range s e) u)) [])
as (frames & Hf & Hframes).
{ intros m Hm. destruct (Hfields m Hm) as [[Rn Hn] [Rd Hd]].
apply calculate_succeeds; eexists; by apply (delta_table_keys _ _ _ _ _ _ Hu). }
unfold calculate_all. rewrite Hf. simpl.
destruct frames as [|kf frames]; [by destruct Hframes; [left|]|]. simpl.
unfold CategoricalDtype. rewrite decide_True by done. simpl. by eexists.
Qed.

(** Every exception of a run, with what raises it: the assertion on the
columns, then [pd.date_range] on an empty index, [unstack] on a repeated
index entry, [Method.calculate] on a field without a row, [pd.concat] on
an empty dict and [pd.CategoricalDtype] on a repeated name, in that
order. *)
Lemma run_body_raises e :
run_body cols ds methods diff_days recent_days = inl e →
(e = AssertionError ∧ ∃ c, c ∈ cols ∧ c ∉ data_columns ds) ∨
(e = ValueError ∧ (∀ c, c ∈ cols → c ∈ data_columns ds) ∧
 (long = [] ∨ ¬ NoDup (obs_entry <$> long).*1 ∨ methods = [] ∨
(long ≠ [] ∧ NoDup (obs_entry <$> long).*1 ∧
 (∀ m, m ∈ methods →
  (∃ R, has_field long (numerator m) R) ∧ (∃ R, has_field long (denominator m) R)) ∧
 ¬ NoDup (name <$> methods)))) ∨
(e = KeyError ∧ (∀ c, c ∈ cols → c ∈ data_columns ds) ∧
 long ≠ [] ∧ NoDup (obs_entry <$> long).*1 ∧
 ∃ m, m ∈ methods ∧
((∀ R, ¬ has_field long (numerator m) R) ∨
 (∀ R, ¬ has_field long (denominator m) R))).
Proof.
unfold run_body.
destruct (forallb (λ c, bool_decide (c ∈ data_columns ds)) cols) eqn:Hassert; simpl.
2:{ intros [= <-]. left. split; [done|]. by apply forallb_columns_false. }
pose proof (proj1 (forallb_columns _ _) Hassert) as Hcols. clear Hassert. fold long.
destruct (dates_min (date <$> long)) as [s|] eqn:Hs; simpl.
2:{ intros [= <-]. right; left. split; [done|]. split; [done|]. left.
destruct long; [done|discriminate]. }
assert (long ≠ []) as Hlong by (intros Hnil; by rewrite Hnil in Hs).
destruct (dates_max (date <$> long)) as [e'|] eqn:He; simpl.
2:{ intros [= <-]. right; left. split; [done|]. split; [done|]. left.
destruct long; [done|discriminate]. }
destruct (unstack long) as [eu|u] eqn:Hu; simpl.
{ intros [= <-]. right; left. unfold unstack in Hu.
destruct (decide (NoDup (obs_entry <$> long).*1)) as [|Hnd]; [done|].
injection Hu as <-. split; [done|]. split; [done|]. right; by left. }
pose proof (proj1 (unstack_inr _ _) Hu) as [Hnd _].
destruct (calculate_all methods (diff diff_days (reindex_columns (date_range s e') u)))
as [ec|frames] eqn:Hf; simpl.
{ intros [= <-]. right; right.
apply calculate_from_fails in Hf as (m & Hm & Hcalc).
apply calculate_fails in Hcalc as [-> Hno]. split; [done|]. split; [done|].
split; [done|]. split; [done|].
exists m. split; [done|].
destruct Hno as [Hno|Hno]; [left|right]; intros R HR;
by apply (delta_table_keys _ _ _ _ _ _ Hu), Hno in HR. }
destruct (concat (date_range s e') frames) as [ec|c] eqn:Hc; simpl.
{ intros [= <-]. right; left.
destruct frames; [|done]. injection Hc as <-. split; [done|]. split; [done|].
right; right; left. by eapply calculate_all_nil. }
unfold CategoricalDtype.
destruct (decide (NoDup (name <$> methods))) as [Hnames|Hnames]; simpl; [done|].
intros [= <-]. right; left. split; [done|]. split; [done|]. right; right; right.
split; [done|]. split; [done|]. split; [|done].
by apply (calculated_fields u s e' frames).
Qed.
End RunOutcome.

(** * The claims *)

(** ** Deltas *)

(** C5. Delta computation: for every variable, region and date, the cell
    of the delta table is the cumulative reading on that date minus the
    reading [diff_days] days earlier when both readings are present,
    whatever the sign of the difference, and it is missing when either
    reading is missing. *)
Theorem delta_is_lagged_difference cols ds methods diff_days recent_days L v R d :
  run_body cols ds methods diff_days recent_days = inr L →
  (∀ a b, reading (timeseries_long ds cols) (v, R) d = Some a →
          reading (timeseries_long ds cols) (v, R) (d - diff_days) = Some b →
          cell_of (diff_df L) (v, R) d = Some (a - b)) ∧
  (reading (timeseries_long ds cols) (v, R) d = None ∨
   reading (timeseries_long ds cols) (v, R) (d - diff_days) = None →
   cell_of (diff_df L) (v, R) d = None).
Proof.
  intros Hrun. rewrite (run_diff_df_cell _ _ _ _ _ _ Hrun). unfold delta. split.
  - by intros a b -> ->.
  - intros [->| ->]; [done|]. by destruct (reading _ _ d).
Qed.

(** The deltas of 10, 15, 25, 40 with [diff_days = 1] are missing, 5, 10,
    15. *)
Lemma delta_is_lagged_difference_witness :
  ∃ L, run_body ["cases"; "tests"] Examples.four_days Examples.cases_over_tests 1 14 = inr L ∧
       cell_of (diff_df L) ("cases", "R") 0 = None ∧
       cell_of (diff_df L) ("cases", "R") 1 = Some 5 ∧
       cell_of (diff_df L) ("cases", "R") 2 = Some 10 ∧
       cell_of (diff_df L) ("cases", "R") 3 = Some 15.
Proof.
  eexists. split; [vm_compute; reflexivity|].
  match goal with |- context [diff_df ?L0] =>
    assert (run_body ["cases"; "tests"] Examples.four_days Examples.cases_over_tests 1 14
            = inr L0) as Hrun by (vm_compute; reflexivity)
  end.
  pose proof (λ d, delta_is_lagged_difference _ _ _ _ _ _ "cases" "R" d Hrun) as H.
  split; [|split; [|split]].
  - apply (H 0). right. vm_compute. reflexivity.
  - apply (proj1 (H 1) 15 10); vm_compute; reflexivity.
  - apply (proj1 (H 2) 25 15); vm_compute; reflexivity.
  - apply (proj1 (H 3) 40 25); vm_compute; reflexivity.
Defined.

Example delta_row_example :
  (λ L, row_of (diff_df L) ("cases", "R"))
    <$> run_body ["cases"; "tests"] Examples.four_days Examples.cases_over_tests 1 14
  = inr (Some [None; Some 5; Some 10; Some 15]).
Proof. vm_compute. reflexivity. Qed.

(** A counter corrected downwards gives a negative delta. *)
Example negative_delta_example :
  (λ L, row_of (diff_df L) ("cases", "R"))
    <$> run_body ["cases"; "tests"]
          (mkDataset ["cases"; "tests"]
             (daily "cases" "R" 0 [40; 25] ++ daily "tests" "R" 0 [100; 200]) [])
          Examples.cases_over_tests 1 14
  = inr (Some [None; Some (-15)]).
Proof. vm_compute. reflexivity. Qed.

(** ** The dense table *)

(** C6. The dense table and the delta table of a run have exactly one row
    per (variable, region) pair with at least one requested record, and
    one column per day from the earliest to the latest date of all the
    requested records; a cell holds the reading of its pair on its date
    and is an explicit missing cell when there is none. *)
Theorem dense_table_shape cols ds methods diff_days recent_days L :
  run_body cols ds methods diff_days recent_days = inr L →
  ∃ start_date end_date,
    (start_date ∈ date <$> timeseries_long ds cols ∧
     ∀ o, o ∈ timeseries_long ds cols → start_date ≤ date o) ∧
    (end_date ∈ date <$> timeseries_long ds cols ∧
     ∀ o, o ∈ timeseries_long ds cols → date o ≤ end_date) ∧
    columns (input_wide L) = seqZ start_date (end_date - start_date + 1) ∧
    columns (diff_df L) = columns (input_wide L) ∧
    NoDup (rows (input_wide L)).*1 ∧
    (rows (diff_df L)).*1 = (rows (input_wide L)).*1 ∧
    (∀ k, k ∈ (rows (input_wide L)).*1 ↔ ∃ o, o ∈ timeseries_long ds cols ∧ obs_key o = k) ∧
    (∀ k cells, (k, cells) ∈ rows (input_wide L) →
       cells = reading (timeseries_long ds cols) k <$> columns (input_wide L)) ∧
    (∀ k cells, (k, cells) ∈ rows (diff_df L) →
       length cells = length (columns (diff_df L))) ∧
    (∀ k d, (∀ o, o ∈ timeseries_long ds cols → obs_key o = k → date o ≠ d) →
       cell_of (input_wide L) k d = None).
Proof.
  intros Hrun. destruct (run_bounds _ _ _ _ _ _ Hrun) as (s & e & Hs & He & Hrange & _).
  exists s, e.
  apply dates_min_spec in Hs as [Hs1 Hs2]. apply dates_max_spec in He as [He1 He2].
  pose proof (run_input_wide _ _ _ _ _ _ Hrun) as Hwide.
  pose proof (run_diff_df _ _ _ _ _ _ Hrun) as Hdiff.
  assert ((rows (input_wide L)).*1 = unique_sorted pair_leb (obs_key <$> timeseries_long ds cols))
    as Hkeys.
  { rewrite Hwide; simpl. rewrite <- list_fmap_compose. apply list_fmap_id. }
  split; [|split; [|split; [|split; [|split; [|split; [|split; [|split; [|split]]]]]]]].
  - split; [done|]. intros o Ho. by apply Hs2, list_elem_of_fmap_2.
  - split; [done|]. intros o Ho. by apply He2, list_elem_of_fmap_2.
  - by rewrite Hwide, Hrange.
  - by rewrite Hwide, Hdiff.
  - rewrite Hkeys. apply NoDup_unique_sorted.
  - rewrite Hkeys, Hdiff; simpl. rewrite <- list_fmap_compose. apply list_fmap_id.
  - intros k. rewrite Hkeys. apply (run_keys cols ds).
  - intros k cells. rewrite Hwide; simpl.
    by intros (k' & [= -> ->] & _)%list_elem_of_fmap.
  - intros k cells. rewrite Hdiff; simpl.
    intros (k' & [= -> ->] & _)%list_elem_of_fmap. by rewrite length_fmap.
  - intros k d Hno. rewrite (run_input_wide_cell _ _ _ _ _ _ Hrun).
    by apply reading_unobserved.
Qed.

(** Two fields, one of them without a reading on the middle day: both rows
    span the three days. *)
Lemma dense_table_shape_witness :
  ∃ L, run_body ["cases"; "tests"]
         (mkDataset ["cases"; "tests"]
            ([obs "cases" "R" 5 1; obs "cases" "R" 7 3] ++ daily "tests" "S" 6 [10]) [])
         Examples.cases_over_tests 1 14 = inr L ∧
       ∃ start_date end_date,
         columns (input_wide L) = seqZ start_date (end_date - start_date + 1) ∧
         NoDup (rows (input_wide L)).*1 ∧
         rows (input_wide L) =
           [(("cases", "R"), [Some 1; None; Some 3]); (("tests", "S"), [None; Some 10; None])].
Proof.
  eexists. split; [vm_compute; reflexivity|].
  match goal with |- context [input_wide ?L0] =>
    assert (run_body ["cases"; "tests"]
              (mkDataset ["cases"; "tests"]
                 ([obs "cases" "R" 5 1; obs "cases" "R" 7 3] ++ daily "tests" "S" 6 [10]) [])
              Examples.cases_over_tests 1 14 = inr L0) as Hrun by (vm_compute; reflexivity)
  end.
  destruct (dense_table_shape _ _ _ _ _ _ Hrun) as (s & e & _ & _ & Hcols & _ & Hnd & _).
  exists s, e. split; [exact Hcols|]. split; [exact Hnd|]. vm_compute. reflexivity.
Defined.

(** ** Division by a zero delta *)

(** C3, as the code has it.  [Method.calculate] returns a frame as soon as
    both fields label a row of the delta table, and raises nothing for a
    zero or a missing denominator: a missing denominator delta gives a
    missing ratio; a denominator delta of exactly 0 under a non-missing
    numerator delta gives positive infinity for a positive numerator,
    negative infinity for a negative one, and a missing ratio for 0 / 0. *)
Theorem zero_denominator_ratio m delta_df R d :
  (∃ R', (numerator m, R') ∈ (rows delta_df).*1) →
  (∃ R', (denominator m, R') ∈ (rows delta_df).*1) →
  ∃ f, calculate m delta_df = inr f ∧
       (cell_of delta_df (denominator m, R) d = None → cell_of f R d = NaN) ∧
       (∀ n, cell_of delta_df (numerator m, R) d = Some n →
             cell_of delta_df (denominator m, R) d = Some 0 →
             (0 < n → cell_of f R d = PosInf) ∧
             (n < 0 → cell_of f R d = NegInf) ∧
             (n = 0 → cell_of f R d = NaN)).
Proof.
  intros Hn Hd. destruct (calculate_succeeds m delta_df Hn Hd) as [f Hf].
  exists f. split; [done|]. rewrite (calculate_cell _ _ _ R d Hf). split.
  - intros ->. by destruct (cell_of delta_df (numerator m, R) d).
  - intros n -> ->. simpl. repeat split; intros Hsign.
    + destruct (Z.eqb_spec n 0); [lia|]. destruct (Z.ltb_spec 0 n); [done|lia].
    + destruct (Z.eqb_spec n 0); [lia|]. destruct (Z.ltb_spec 0 n); [lia|done].
    + by subst.
Qed.

Lemma zero_denominator_ratio_witness :
  ∃ f, calculate (mkMethod "cases_tests" "cases" "tests") Examples.no_new_tests = inr f ∧
       cell_of f "R" 1 = PosInf.
Proof.
  destruct (zero_denominator_ratio (mkMethod "cases_tests" "cases" "tests")
              Examples.no_new_tests "R" 1) as (f & Hf & _ & Hzero).
  - exists "R". vm_compute. left.
  - exists "R". vm_compute. right. left.
  - exists f. split; [exact Hf|].
    apply (Hzero 5); [vm_compute; reflexivity..|lia].
Defined.

(** C3, as stated, fails: five new cases over no new test is positive
    infinity, which [notna] counts as a value. *)
Lemma zero_denominator_counterexample :
  cell_of Examples.no_new_tests ("cases", "R") 1 = Some 5 ∧
  cell_of Examples.no_new_tests ("tests", "R") 1 = Some 0 ∧
  ∃ f, calculate (mkMethod "cases_tests" "cases" "tests") Examples.no_new_tests = inr f ∧
       cell_of f "R" 1 = PosInf ∧ cell_of f "R" 1 ≠ NaN ∧ notna (cell_of f "R" 1) = true.
Proof.
  split; [vm_compute; reflexivity|]. split; [vm_compute; reflexivity|].
  eexists. split; [vm_compute; reflexivity|].
  split; [vm_compute; reflexivity|]. split; [vm_compute; discriminate|].
  vm_compute. reflexivity.
Qed.

(** ** Recency *)

Lemma group_of_empty R rs : (∀ r, r ∈ rs → r.1.1 ≠ R) → group_of R rs = [].
Proof.
  intros Hno. destruct (group_of R rs) as [|r g] eqn:Hg; [done|].
  assert (r ∈ group_of R rs) as [HR Hr]%elem_of_group_of by (rewrite Hg; left).
  by destruct (Hno r Hr).
Qed.

(** C7. Recency necessity and no-selection behaviour.  A run whose inputs
    satisfy [runnable] returns.  Its recency window holds the dates of the
    date axis among the [recent_days] days that end at the latest date of
    the requested records.  The method recorded for a region has a row in
    the table of all methods with a non-missing cell inside that window.
    A region none of whose rows has a non-missing cell inside the window
    has no recorded method, no provenance entry and no positivity
    record. *)
Theorem recency_necessity cols ds methods diff_days recent_days :
  runnable cols ds methods →
  ∃ L, run_body cols ds methods diff_days recent_days = inr L ∧
    (∀ d, d ∈ recent_date_range L ↔
          d ∈ input_date_range L ∧
          ∃ e, dates_max (date <$> timeseries_long ds cols) = Some e ∧
               e - Z.of_nat recent_days < d ≤ e) ∧
    (∀ R n, selected_method (returned L) R = Some n →
       ∃ cells d,
         ((R, n), cells) ∈ rows (all_methods_timeseries (returned L)) ∧
         d ∈ recent_date_range L ∧
         notna (at_label (columns (all_methods_timeseries (returned L))) cells d) = true) ∧
    (∀ R,
       (∀ n cells d,
          ((R, n), cells) ∈ rows (all_methods_timeseries (returned L)) →
          d ∈ recent_date_range L →
          at_label (columns (all_methods_timeseries (returned L))) cells d = NaN) →
       selected_method (returned L) R = None ∧
       (∀ d, positivity_at (returned L) R d = NaN) ∧
       (∀ e, e ∈ provenance (test_positivity (returned L)) → e.1.1 ≠ R) ∧
       (∀ o, o ∈ data_long (test_positivity (returned L)) → location_id o ≠ R)).
Proof.
  intros Hok. destruct (runnable_run_body _ _ _ diff_days recent_days Hok) as [L Hrun].
  exists L. split; [done|]. split; [|split].
  - apply (elem_of_recent_date_range _ _ _ _ _ _ Hrun).
  - intros R n Hsel. rewrite (run_selected _ _ _ _ _ _ Hrun) in Hsel.
    destruct (group_of R (all_recent_data L)) as [|[[R' n'] cells] g] eqn:Hg; [done|].
    injection Hsel as ->.
    assert (((R', n), cells) ∈ group_of R (all_recent_data L)) as [HR Hin]%elem_of_group_of
      by (rewrite Hg; left).
    simpl in HR. subst R'.
    apply (elem_of_all_recent_data _ _ _ _ _ _ Hrun) in Hin as [Hrow Hrecent].
    apply has_recent_data_true in Hrecent as (d & Hd & Hna).
    exists cells, d. by rewrite (run_returned_table _ _ _ _ _ _ Hrun).
  - intros R Hnone. rewrite (run_returned_table _ _ _ _ _ _ Hrun) in Hnone.
    assert (∀ r, r ∈ all_recent_data L → r.1.1 ≠ R) as Hno.
    { intros [[R' n] cells] [Hrow Hrecent]%(elem_of_all_recent_data _ _ _ _ _ _ Hrun) HR.
      simpl in *. subst R'. apply has_recent_data_true in Hrecent as (d & Hd & Hna).
      by rewrite (Hnone n cells d Hrow Hd) in Hna. }
    split; [|split; [|split]].
    + by rewrite (run_selected _ _ _ _ _ _ Hrun), group_of_empty.
    + intros d. rewrite (run_positivity_at _ _ _ _ _ _ Hrun), group_of_empty by done.
      simpl. apply at_label_replicate_nan.
    + intros e (R' & n & cells & -> & Hin)%(elem_of_run_provenance _ _ _ _ _ _ Hrun).
      apply (Hno _ Hin).
    + intros o (_ & _ & n & cells & Hin)%(elem_of_run_records _ _ _ _ _ _ Hrun).
      apply (Hno _ Hin).
Qed.

(** Region "old" has a ratio on day 1 only, a month before the window of
    the two last days: it gets no method. *)
Lemma recency_necessity_witness :
  runnable ["cases"; "tests"] Examples.stale_and_fresh Examples.cases_over_tests ∧
  ∃ L, run_body ["cases"; "tests"] Examples.stale_and_fresh Examples.cases_over_tests 1 2
       = inr L ∧
       cell_of (all_wide L) ("old", "cases_tests") 1 = Quot 1 10 ∧
       selected_method (returned L) "old" = None ∧
       selected_method (returned L) "new" = Some "cases_tests".
Proof.
  assert (runnable ["cases"; "tests"] Examples.stale_and_fresh Examples.cases_over_tests) as Hok.
  { eapply (run_body_runnable _ _ _ 1 2). vm_compute. reflexivity. }
  split; [exact Hok|].
  destruct (recency_necessity _ _ _ 1 2 Hok) as (L & Hrun & _ & _ & Hnone).
  exists L. split; [exact Hrun|].
  vm_compute in Hrun. injection Hrun as <-.
  split; [vm_compute; reflexivity|]. split; [|vm_compute; reflexivity].
  apply Hnone. intros n cells d Hrow Hd. simpl in Hrow, Hd.
  apply elem_of_cons in Hrow as [Hrow|Hrow]; [discriminate|].
  apply list_elem_of_singleton in Hrow. injection Hrow as -> ->.
  apply elem_of_cons in Hd as [->|Hd]; [vm_compute; reflexivity|].
  apply list_elem_of_singleton in Hd as ->. vm_compute. reflexivity.
Defined.

(** ** Failures *)

Lemma elem_of_timeseries_long {V} (ds : MultiRegionTimeseriesDataset V) cols o :
  o ∈ timeseries_long ds cols ↔ o ∈ data_long ds ∧ variable o ∈ cols.
Proof.
  unfold timeseries_long. rewrite elem_of_flat_map. split.
  - intros (c & Hc & [-> Ho]%list_elem_of_filter). done.
  - intros [Ho Hc]. exists (variable o). split; [done|]. by apply list_elem_of_filter.
Qed.

Lemma elem_of_ts_value_cols_of methods c :
  c ∈ ts_value_cols_of methods ↔ c ∈ method_fields methods.
Proof. apply elem_of_remove_dups. Qed.

Lemma elem_of_method_fields methods c :
  c ∈ method_fields methods ↔ ∃ m, m ∈ methods ∧ (c = numerator m ∨ c = denominator m).
Proof.
  unfold method_fields. rewrite elem_of_flat_map. split.
  - intros (m & Hm & Hc). exists m. split; [done|].
    apply elem_of_cons in Hc as [->|Hc]; [by left|].
    apply list_elem_of_singleton in Hc as ->. by right.
  - intros (m & Hm & [->| ->]); exists m; (split; [done|]); [left|right; left].
Qed.

Lemma has_requested_field ds cols v :
  v ∈ cols →
  (∃ R, has_field (timeseries_long ds cols) v R) ↔ ∃ o, o ∈ data_long ds ∧ variable o = v.
Proof.
  intros Hv. unfold has_field, obs_key. split.
  - intros (R & o & [Ho _]%elem_of_timeseries_long & [= <- _]). eauto.
  - intros (o & Ho & <-). exists (location_id o), o. split; [|done].
    by apply elem_of_timeseries_long.
Qed.

Lemma run_with_inr cols ds methods diff_days recent_days res :
  run_with cols ds methods diff_days recent_days = inr res ↔
  ∃ L, run_body cols ds methods diff_days recent_days = inr L ∧ res = returned L.
Proof.
  unfold run_with. rewrite bind_inr. unfold ret. split; intros (L & HL & Hres); exists L.
  - split; [done|]. by injection Hres.
  - split; [done|]. by subst.
Qed.

Lemma run_with_inl cols ds methods diff_days recent_days e :
  run_with cols ds methods diff_days recent_days = inl e ↔
  run_body cols ds methods diff_days recent_days = inl e.
Proof.
  unfold run_with. destruct (run_body cols ds methods diff_days recent_days); simpl;
    unfold ret; split; congruence.
Qed.

(** [runnable] for the fields that [run] requests, in terms of the store. *)
Lemma runnable_run ds methods :
  runnable (ts_value_cols_of methods) ds methods ↔
  methods ≠ [] ∧
  NoDup (name <$> methods) ∧
  (∀ c, c ∈ method_fields methods → c ∈ data_columns ds) ∧
  (∀ c, c ∈ method_fields methods → ∃ o, o ∈ data_long ds ∧ variable o = c) ∧
  NoDup (obs_entry <$> timeseries_long ds (ts_value_cols_of methods)).*1.
Proof.
  unfold runnable. split.
  - intros (Hcols & Hne & Hnames & Hnd & Hfields).
    split; [done|]. split; [done|]. split; [|split; [|done]].
    + intros c Hc. by apply Hcols, elem_of_ts_value_cols_of.
    + intros c (m & Hm & Hc)%elem_of_method_fields.
      destruct (Hfields m Hm) as [Hn Hd].
      destruct Hc as [->| ->]; [apply has_requested_field in Hn|apply has_requested_field in Hd];
        try done; apply elem_of_ts_value_cols_of, elem_of_method_fields; eauto.
  - intros (Hne & Hnames & Hcols & Hobs & Hnd).
    split; [|split; [done|split; [done|split; [done|]]]].
    + intros c Hc. by apply Hcols, elem_of_ts_value_cols_of.
    + intros m Hm.
      assert (numerator m ∈ method_fields methods) as Hn
        by (apply elem_of_method_fields; eauto).
      assert (denominator m ∈ method_fields methods) as Hd
        by (apply elem_of_method_fields; eauto).
      split; (apply has_requested_field; [by apply elem_of_ts_value_cols_of|by apply Hobs]).
Qed.


(** The outcomes of [run], one by one. *)
Lemma run_returns ds methods diff_days recent_days :
  (∃ res, run ds methods diff_days recent_days = inr res) ↔
  runnable (ts_value_cols_of methods) ds methods.
Proof.
  unfold run. split.
  - intros (res & (L & HL & _)%run_with_inr). by eapply run_body_runnable.
  - intros [L HL]%(runnable_run_body _ _ _ diff_days recent_days).
    exists (returned L). apply run_with_inr. eauto.
Qed.

Lemma run_assertion_error ds methods diff_days recent_days :
  (∃ c, c ∈ method_fields methods ∧ c ∉ data_columns ds) ↔
  run ds methods diff_days recent_days = inl AssertionError.
Proof.
  unfold run. rewrite run_with_inl. split.
  - intros (c & Hc & Hno). unfold run_body.
    destruct (forallb _ (ts_value_cols_of methods)) eqn:Hall; [|done].
    destruct Hno. eapply forallb_columns; [done|]. by apply elem_of_ts_value_cols_of.
  - intros [[_ (c & Hc & Hno)]|[[? _]|[? _]]]%run_body_raises; [|done..].
    exists c. split; [|done]. by apply elem_of_ts_value_cols_of.
Qed.

Lemma run_key_error_inv ds methods diff_days recent_days :
  run ds methods diff_days recent_days = inl KeyError →
  (∀ c, c ∈ method_fields methods → c ∈ data_columns ds) ∧
  timeseries_long ds (ts_value_cols_of methods) ≠ [] ∧
  NoDup (obs_entry <$> timeseries_long ds (ts_value_cols_of methods)).*1 ∧
  ∃ c, c ∈ method_fields methods ∧ ∀ o, o ∈ data_long ds → variable o ≠ c.
Proof.
  unfold run. rewrite run_with_inl.
  intros [[? _]|[[? _]|(_ & Hcols & Hlong & Hnd & m & Hm & Hno)]]%run_body_raises; [done..|].
  split; [intros c Hc; by apply Hcols, elem_of_ts_value_cols_of|]. split; [done|]. split; [done|].
  assert (numerator m ∈ method_fields methods) as Hn
    by (apply elem_of_method_fields; eauto).
  assert (denominator m ∈ method_fields methods) as Hd
    by (apply elem_of_method_fields; eauto).
  destruct Hno as [Hno|Hno]; [exists (numerator m)|exists (denominator m)];
    (split; [done|]); intros o Ho Hv;
    [destruct (proj2 (has_requested_field ds (ts_value_cols_of methods) (numerator m)
                        (proj2 (elem_of_ts_value_cols_of _ _) Hn))) as [R HR]
    |destruct (proj2 (has_requested_field ds (ts_value_cols_of methods) (denominator m)
                        (proj2 (elem_of_ts_value_cols_of _ _) Hd))) as [R HR]];
    eauto; by apply (Hno R).
Qed.





(** ** Determinism *)

Lemma lists_set_perm fields cols1 cols2 :
  lists_set fields cols1 → lists_set fields cols2 → cols1 ≡ₚ cols2.
Proof.
  intros [Hnd1 H1] [Hnd2 H2]. apply NoDup_Permutation; [done..|].
  intros c. by rewrite H1, H2.
Qed.

Lemma timeseries_long_perm {V} (ds : MultiRegionTimeseriesDataset V) cols1 cols2 :
  cols1 ≡ₚ cols2 → timeseries_long ds cols1 ≡ₚ timeseries_long ds cols2.
Proof. intros Hp. unfold timeseries_long. by apply Permutation_flat_map. Qed.

Lemma unstack_perm long1 long2 : long1 ≡ₚ long2 → unstack long1 = unstack long2.
Proof.
  intros Hp. unfold unstack.
  assert (NoDup (obs_entry <$> long1).*1 ↔ NoDup (obs_entry <$> long2).*1) as Hnd
    by (by rewrite Hp).
  destruct (decide (NoDup (obs_entry <$> long1).*1)) as [H1|H1];
    destruct (decide (NoDup (obs_entry <$> long2).*1)) as [H2|H2]; try tauto.
  assert (unique_sorted Z.leb (date <$> long1) = unique_sorted Z.leb (date <$> long2)) as ->.
  { apply unique_sorted_ext; [apply _|]. intros d. by rewrite Hp. }
  assert (unique_sorted pair_leb (obs_key <$> long1)
          = unique_sorted pair_leb (obs_key <$> long2)) as ->.
  { apply unique_sorted_ext; [apply _|]. intros k. by rewrite Hp. }
  do 2 f_equal. apply list_fmap_ext. intros _ k _. f_equal.
  apply list_fmap_ext. intros _ d _. apply reading_ext; [done..|].
  intros o _. by rewrite Hp.
Qed.

(** C9. Determinism.  The only freedom the code leaves is the order in
    which [list(set(...))] lists the fields of the methods; whatever that
    order, [run] returns the same table of all methods, the same
    positivity records and the same provenance, or raises the same
    exception. *)
Theorem run_is_deterministic ds methods diff_days recent_days cols1 cols2 :
  lists_set (method_fields methods) cols1 →
  lists_set (method_fields methods) cols2 →
  run_with cols1 ds methods diff_days recent_days =
  run_with cols2 ds methods diff_days recent_days.
Proof.
  intros H1 H2. pose proof (lists_set_perm _ _ _ H1 H2) as Hcols.
  pose proof (timeseries_long_perm ds _ _ Hcols) as Hlong.
  assert (forallb (λ c, bool_decide (c ∈ data_columns ds)) cols1
          = forallb (λ c, bool_decide (c ∈ data_columns ds)) cols2) as Hassert.
  { apply eq_true_iff_eq. rewrite !forallb_columns. by setoid_rewrite Hcols. }
  assert (dates_min (date <$> timeseries_long ds cols1)
          = dates_min (date <$> timeseries_long ds cols2)) as Hmin.
  { apply dates_min_ext. intros d. by rewrite Hlong. }
  assert (dates_max (date <$> timeseries_long ds cols1)
          = dates_max (date <$> timeseries_long ds cols2)) as Hmax.
  { apply dates_max_ext. intros d. by rewrite Hlong. }
  pose proof (unstack_perm _ _ Hlong) as Hunstack.
  unfold run_with, run_body. rewrite Hassert, Hmin, Hmax, Hunstack.
  destruct (assert_ _) as [?|[]]; simpl; [done|].
  destruct (not_nat (dates_min _)) as [?|start_date]; simpl; [done|].
  destruct (not_nat (dates_max _)) as [?|end_date]; simpl; [done|].
  destruct (unstack (timeseries_long ds cols2)) as [?|unstacked]; simpl; [done|].
  destruct (calculate_all _ _) as [?|frames]; simpl; [done|].
  destruct (concat _ _) as [?|concatenated]; simpl; [done|].
  destruct (CategoricalDtype _) as [?|method_cat_type]; simpl; done.
Qed.

(** The order that [run] takes is one listing of the set. *)
Lemma ts_value_cols_of_lists_set methods :
  lists_set (method_fields methods) (ts_value_cols_of methods).
Proof. split; [apply NoDup_remove_dups|]. intros c. apply elem_of_remove_dups. Qed.

Lemma run_is_deterministic_witness :
  lists_set (method_fields Examples.cases_over_tests) ["cases"; "tests"] ∧
  lists_set (method_fields Examples.cases_over_tests) ["tests"; "cases"] ∧
  run_with ["cases"; "tests"] Examples.four_days Examples.cases_over_tests 1 14 =
  run_with ["tests"; "cases"] Examples.four_days Examples.cases_over_tests 1 14.
Proof.
  assert (lists_set (method_fields Examples.cases_over_tests) ["cases"; "tests"]) as H1.
  { split; [by apply (bool_decide_unpack _)|]. done. }
  assert (lists_set (method_fields Examples.cases_over_tests) ["tests"; "cases"]) as H2.
  { split; [by apply (bool_decide_unpack _)|]. intros c. simpl.
    rewrite !elem_of_cons, !elem_of_nil. tauto. }
  split; [exact H1|]. split; [exact H2|].
  exact (run_is_deterministic Examples.four_days Examples.cases_over_tests 1 14 _ _ H1 H2).
Defined.

(** ** Infinite ratios *)

Section RunRows.
Context (cols : list string) (ds : MultiRegionTimeseriesDataset (option Z))
(methods : list Method) (diff_days : Z) (recent_days : nat) (L : Locals).
Hypothesis Hrun : run_body cols ds methods diff_days recent_days = inr L.
Hypothesis Hnames : NoDup (name <$> methods).

Lemma run_row_length r : r ∈ rows (all_wide L) → length r.2 = length (columns (all_wide L)).
Proof.
destruct r as [[R n] cells].
intros (m & _ & _ & _ & -> & _)%(run_all_wide_elem _ _ _ _ _ _ Hrun Hnames).
simpl. by rewrite length_fmap, (run_columns _ _ _ _ _ _ Hrun).
Qed.

Lemma run_group_lengths R :
Forall (λ r : list ratio, length r = length (columns (all_wide L)))
((group_of R (all_recent_data L)).*2).
Proof.
apply Forall_forall. intros cells ([k c] & -> & [_ Hin]%elem_of_group_of)%list_elem_of_fmap.
apply (elem_of_all_recent_data _ _ _ _ _ _ Hrun) in Hin as [Hin _].
by apply run_row_length in Hin.
Qed.

(** The cell of the table of all methods, row by row. *)
Lemma run_all_wide_row R n cells :
((R, n), cells) ∈ rows (all_wide L) → row_of (all_wide L) (R, n) = Some cells.
Proof.
intros Hin. apply assoc_NoDup; [|done].
apply (run_all_wide_NoDup _ _ _ _ _ _ Hrun Hnames).
Qed.

(** The method of a region is the one of its rows with recent data whose
name comes first in the order of strings. *)
Lemma run_selected_least R n :
selected_method (returned L) R = Some n ↔
(∃ cells, ((R, n), cells) ∈ all_recent_data L) ∧
∀ n' cells', ((R, n'), cells') ∈ all_recent_data L → str_leb n n' = true.
Proof.
rewrite (run_selected _ _ _ _ _ _ Hrun).
pose proof (filter_sorted fst pair_leb (λ r : (string * string) * list ratio, r.1.1 = R) _
  (run_recent_sorted _ _ _ _ _ _ Hrun)) as Hsorted.
fold (group_of R (all_recent_data L)) in Hsorted.
destruct (group_of R (all_recent_data L)) as [|[[R0 n0] c0] g] eqn:Hg; simpl.
- split; [done|]. intros [(cells & Hin) _].
assert (((R, n), cells) ∈ group_of R (all_recent_data L)) as Hin'
by (by apply elem_of_group_of).
rewrite Hg in Hin'. by apply elem_of_nil in Hin'.
- assert (((R0, n0), c0) ∈ group_of R (all_recent_data L)) as [HR0 Hin0]%elem_of_group_of
by (rewrite Hg; left).
simpl in HR0. subst R0.
assert (∀ n' cells', ((R, n'), cells') ∈ all_recent_data L → str_leb n0 n' = true)
as Hleast.
{ intros n' cells' Hin'. rewrite <- (pair_leb_same_fst R).
apply (sorted_head_least fst pair_leb _ _ ((R, n'), cells') Hsorted).
rewrite <- Hg. by apply elem_of_group_of. }
split.
+ intros [= <-]. eauto.
+ intros [(cells & Hin) Hle]. f_equal.
apply (leb_antisym (leb:=str_leb)); eauto.
Qed.
End RunRows.

Lemma cell_of_missing_row {K C} `{EqDecision K} `{Cell C} (df : DataFrame K C) (k : K) (d : Z) :
  k ∉ (rows df).*1 → cell_of df k d = nan.
Proof. intros Hk%assoc_None. unfold cell_of, row_of. by rewrite Hk. Qed.

Lemma cell_of_missing_column {K C} `{EqDecision K} `{Cell C} (df : DataFrame K C)
    (k : K) (d : Z) :
  d ∉ columns df → cell_of df k d = nan.
Proof.
  intros Hd. unfold cell_of. destruct (row_of df k); [|done]. by apply at_label_absent.
Qed.

(** C10. An infinite ratio counts as a value throughout selection.  When a
    method has, for a region and a date, a non-zero numerator delta over a
    zero denominator delta, its row for the region is kept in the table of
    all methods with an infinity under that date; when the date is inside
    the recency window the row has recent data, so the region gets a
    method; and when no other row of the region with recent data comes
    before it, that method is the one recorded and the infinity is the
    positivity returned for the date. *)
Theorem infinity_is_a_value cols ds methods diff_days recent_days L m R d x :
  run_body cols ds methods diff_days recent_days = inr L →
  NoDup (name <$> methods) → m ∈ methods →
  cell_of (diff_df L) (numerator m, R) d = Some x → x ≠ 0 →
  cell_of (diff_df L) (denominator m, R) d = Some 0 →
  ∃ cells,
    ((R, name m), cells) ∈ rows (all_methods_timeseries (returned L)) ∧
    at_label (columns (all_methods_timeseries (returned L))) cells d
      = (if 0 <? x then PosInf else NegInf) ∧
    (d ∈ recent_date_range L →
       ((R, name m), cells) ∈ all_recent_data L ∧
       (∃ n, selected_method (returned L) R = Some n) ∧
       ((∀ n' cells', ((R, n'), cells') ∈ all_recent_data L → str_leb (name m) n' = true) →
        selected_method (returned L) R = Some (name m) ∧
        positivity_at (returned L) R d = (if 0 <? x then PosInf else NegInf))).
Proof.
  intros Hrun Hnames Hm Hnum Hx Hden.
  set (long := timeseries_long ds cols).
  set (inf := if 0 <? x then PosInf else NegInf).
  set (cells := candidate long diff_days m R <$> input_date_range L).
  assert (d ∈ input_date_range L) as Hd.
  { destruct (decide (d ∈ input_date_range L)) as [|Hno]; [done|].
    rewrite <- (run_diff_df_columns _ _ _ _ _ _ Hrun) in Hno.
    by rewrite (cell_of_missing_column _ _ _ Hno) in Hnum. }
  assert (has_field long (numerator m) R) as Hfield.
  { apply (run_diff_df_keys _ _ _ _ _ _ Hrun).
    destruct (decide ((numerator m, R) ∈ (rows (diff_df L)).*1)) as [|Hno]; [done|].
    by rewrite (cell_of_missing_row _ _ _ Hno) in Hnum. }
  assert (candidate long diff_days m R d = inf) as Hcand.
  { unfold candidate. rewrite <- !(run_diff_df_cell _ _ _ _ _ _ Hrun), Hnum, Hden. simpl.
    by destruct (Z.eqb_spec x 0). }
  assert (notna inf = true) as Hna by (unfold inf; by destruct (0 <? x)).
  assert (at_label (columns (all_wide L)) cells d = inf) as Hcell.
  { rewrite (run_columns _ _ _ _ _ _ Hrun). unfold cells.
    rewrite (at_label_fmap (candidate long diff_days m R)). by rewrite decide_True. }
  assert (((R, name m), cells) ∈ rows (all_wide L)) as Hrow.
  { apply (run_all_wide_elem _ _ _ _ _ _ Hrun Hnames). exists m.
    split; [done|]. split; [done|]. split; [by left|]. split; [done|].
    apply existsb_elem_of. exists inf. split; [|done].
    rewrite <- Hcand. by apply list_elem_of_fmap_2. }
  exists cells. rewrite (run_returned_table _ _ _ _ _ _ Hrun).
  split; [done|]. split; [done|]. intros Hrecent.
  assert (((R, name m), cells) ∈ all_recent_data L) as Hin.
  { apply (elem_of_all_recent_data _ _ _ _ _ _ Hrun). split; [done|].
    apply has_recent_data_true. exists d. split; [done|]. simpl. by rewrite Hcell. }
  split; [done|]. split.
  - destruct (group_of R (all_recent_data L)) as [|[[R0 n0] c0] g] eqn:Hg.
    + assert (((R, name m), cells) ∈ group_of R (all_recent_data L)) as Hin'
        by (by apply elem_of_group_of).
      rewrite Hg in Hin'. by apply elem_of_nil in Hin'.
    + exists n0. by rewrite (run_selected _ _ _ _ _ _ Hrun), Hg.
  - intros Hleast.
    assert (selected_method (returned L) R = Some (name m)) as Hsel.
    { apply (run_selected_least _ _ _ _ _ _ Hrun). eauto. }
    split; [done|].
    rewrite (run_positivity_at _ _ _ _ _ _ Hrun).
    pose proof (run_group_lengths _ _ _ _ _ _ Hrun Hnames R) as Hlen.
    rewrite (run_selected _ _ _ _ _ _ Hrun) in Hsel.
    destruct (group_of R (all_recent_data L)) as [|[[R0 n0] c0] g] eqn:Hg; [done|].
    injection Hsel as ->.
    assert (((R0, name m), c0) ∈ group_of R (all_recent_data L)) as [HR0 Hin0]%elem_of_group_of
      by (rewrite Hg; left).
    simpl in HR0. subst R0.
    apply (elem_of_all_recent_data _ _ _ _ _ _ Hrun) in Hin0 as [Hrow0 _].
    apply (run_all_wide_row _ _ _ _ _ _ Hrun Hnames) in Hrow0, Hrow.
    assert (c0 = cells) as -> by congruence.
    rewrite !fmap_cons in *. simpl in *.
    rewrite <- Hcell. apply first_row_head; [done|]. by rewrite Hcell.
Qed.

(** A region whose only ratio is an infinity is given the method and the
    infinity. *)
Lemma infinity_is_a_value_witness :
  ∃ L, run_body ["cases"; "tests"] Examples.flat_tests Examples.cases_over_tests 1 14 = inr L ∧
       rows (all_wide L) = [(("R", "cases_tests"), [NaN; PosInf])] ∧
       selected_method (returned L) "R" = Some "cases_tests" ∧
       positivity_at (returned L) "R" 1 = PosInf.
Proof.
  assert (∃ L, run_body ["cases"; "tests"] Examples.flat_tests Examples.cases_over_tests 1 14
               = inr L) as [L Hrun] by (eexists; vm_compute; reflexivity).
  exists L. split; [exact Hrun|].
  destruct (infinity_is_a_value _ _ _ _ _ _ (mkMethod "cases_tests" "cases" "tests") "R" 1 5 Hrun)
    as (cells & _ & _ & Hrecent).
  - by apply (bool_decide_unpack _).
  - left.
  - vm_compute in Hrun. injection Hrun as <-. vm_compute. reflexivity.
  - lia.
  - vm_compute in Hrun. injection Hrun as <-. vm_compute. reflexivity.
  - vm_compute in Hrun. injection Hrun as <-.
    split; [vm_compute; reflexivity|].
    destruct Hrecent as (_ & _ & Hleast).
    + simpl. right; left.
    + apply Hleast. intros n' cells' Hin. simpl in Hin.
      apply list_elem_of_singleton in Hin. injection Hin as -> ->. vm_compute. reflexivity.
Defined.

(** ** Isolation *)

Lemma date_range_inj s1 e1 s2 e2 :
  s1 ≤ e1 → date_range s1 e1 = date_range s2 e2 → s1 = s2 ∧ e1 = e2.
Proof.
  unfold date_range. intros Hle Heq.
  assert (length (seqZ s1 (e1 - s1 + 1)) = length (seqZ s2 (e2 - s2 + 1))) as Hlen
    by (by rewrite Heq).
  rewrite !length_seqZ in Hlen.
  assert (seqZ s1 (e1 - s1 + 1) !! 0%nat = seqZ s2 (e2 - s2 + 1) !! 0%nat) as Hhead
    by (by rewrite Heq).
  rewrite (lookup_seqZ_lt s1) in Hhead by lia.
  destruct (decide (0 < e2 - s2 + 1)) as [Hpos|Hneg].
  - rewrite (lookup_seqZ_lt s2) in Hhead by lia. injection Hhead as Hs. lia.
  - rewrite (lookup_seqZ_ge s2) in Hhead by lia. done.
Qed.

Section Isolation.
Context (cols : list string) (ds1 ds2 : MultiRegionTimeseriesDataset (option Z))
(methods : list Method) (diff_days : Z) (recent_days : nat) (L1 L2 : Locals)
(Y : string).
Hypothesis Hrun1 : run_body cols ds1 methods diff_days recent_days = inr L1.
Hypothesis Hrun2 : run_body cols ds2 methods diff_days recent_days = inr L2.
Hypothesis Hnames : NoDup (name <$> methods).
Hypothesis Haxis : input_date_range L1 = input_date_range L2.
Hypothesis Hagree : ∀ o, location_id o = Y → o ∈ data_long ds1 ↔ o ∈ data_long ds2.

Let long1 := timeseries_long ds1 cols.
Let long2 := timeseries_long ds2 cols.

Lemma iso_long o : location_id o = Y → o ∈ long1 ↔ o ∈ long2.
Proof.
intros HY. unfold long1, long2. rewrite !elem_of_timeseries_long.
by rewrite (Hagree o HY).
Qed.

Lemma iso_has_field v : has_field long1 v Y ↔ has_field long2 v Y.
Proof.
unfold has_field, obs_key.
split; intros (o & Ho & [= Hv HY]); exists o; (split; [by apply iso_long|by rewrite Hv, HY]).
Qed.

Lemma iso_delta v d : delta long1 diff_days (v, Y) d = delta long2 diff_days (v, Y) d.
Proof.
apply delta_ext.
- apply (run_NoDup_entries _ _ _ _ _ _ Hrun1).
- apply (run_NoDup_entries _ _ _ _ _ _ Hrun2).
- intros o [= _ HY]. by apply iso_long.
Qed.

Lemma iso_candidate m d : candidate long1 diff_days m Y d = candidate long2 diff_days m Y d.
Proof. unfold candidate. by rewrite !iso_delta. Qed.

Lemma iso_recent : recent_date_range L1 = recent_date_range L2.
Proof.
destruct (run_bounds _ _ _ _ _ _ Hrun1) as (s1 & e1 & Hs1 & He1 & Hr1 & ->).
destruct (run_bounds _ _ _ _ _ _ Hrun2) as (s2 & e2 & Hs2 & He2 & Hr2 & ->).
rewrite Hr1, Hr2 in Haxis.
apply date_range_inj in Haxis as [-> ->]; [done|].
apply dates_min_spec in Hs1 as [_ Hs1]. apply dates_max_spec in He1 as [He1 _].
by apply Hs1.
Qed.

Lemma iso_columns : columns (all_wide L1) = columns (all_wide L2).
Proof. by rewrite (run_columns _ _ _ _ _ _ Hrun1), (run_columns _ _ _ _ _ _ Hrun2). Qed.

Lemma iso_delta_row v : row_of (diff_df L1) (v, Y) = row_of (diff_df L2) (v, Y).
Proof.
rewrite (run_diff_df _ _ _ _ _ _ Hrun1), (run_diff_df _ _ _ _ _ _ Hrun2).
rewrite !(row_of_graph (λ k, delta _ diff_days k <$> _)).
fold long1 long2. rewrite Haxis.
assert ((v, Y) ∈ unique_sorted pair_leb (obs_key <$> long1) ↔
(v, Y) ∈ unique_sorted pair_leb (obs_key <$> long2)) as Hkeys.
{ unfold long1, long2. rewrite (run_keys cols ds1), (run_keys cols ds2).
apply iso_has_field. }
destruct (decide ((v, Y) ∈ unique_sorted pair_leb (obs_key <$> long1))) as [H1|H1];
destruct (decide ((v, Y) ∈ unique_sorted pair_leb (obs_key <$> long2))) as [H2|H2];
try tauto.
f_equal. apply list_fmap_ext. intros _ d _. apply iso_delta.
Qed.

Lemma iso_all_wide_elem n cells :
((Y, n), cells) ∈ rows (all_wide L1) ↔ ((Y, n), cells) ∈ rows (all_wide L2).
Proof.
rewrite (run_all_wide_elem _ _ _ _ _ _ Hrun1 Hnames),
(run_all_wide_elem _ _ _ _ _ _ Hrun2 Hnames).
fold long1 long2. rewrite Haxis.
assert (∀ m, candidate long1 diff_days m Y <$> input_date_range L2
     = candidate long2 diff_days m Y <$> input_date_range L2) as Hcells.
{ intros m. apply list_fmap_ext. intros _ d _. apply iso_candidate. }
split; intros (m & Hm & Hn & Hf & Hc & Hna); exists m;
(split; [done|]; split; [done|]; split; [by rewrite !iso_has_field in *|]);
(split; [|done]); [by rewrite <- Hcells|by rewrite Hcells].
Qed.

Lemma iso_candidate_row n : row_of (all_wide L1) (Y, n) = row_of (all_wide L2) (Y, n).
Proof.
apply assoc_ext.
- apply (run_all_wide_NoDup _ _ _ _ _ _ Hrun1 Hnames).
- apply (run_all_wide_NoDup _ _ _ _ _ _ Hrun2 Hnames).
- apply iso_all_wide_elem.
Qed.

Lemma iso_group : group_of Y (all_recent_data L1) = group_of Y (all_recent_data L2).
Proof.
assert (∀ L ds, run_body cols ds methods diff_days recent_days = inr L →
        NoDup (group_of Y (all_recent_data L)).*1) as Hnd.
{ intros L ds Hrun. apply NoDup_filter_keys.
apply run_body_inv in Hrun as Hinv.
destruct Hinv as (?&?&?&?&?&_&_&_&_&_&_&_&_&_&_&_&_&->&_).
apply NoDup_filter_keys. apply (run_all_wide_NoDup _ _ _ _ _ _ Hrun Hnames). }
apply (sorted_unique fst pair_leb).
- by eapply Hnd.
- apply filter_sorted, (run_recent_sorted _ _ _ _ _ _ Hrun1).
- apply filter_sorted, (run_recent_sorted _ _ _ _ _ _ Hrun2).
- apply NoDup_Permutation.
+ eapply NoDup_fmap_1. by eapply Hnd.
+ eapply NoDup_fmap_1. by eapply Hnd.
+ intros [[R n] cells]. rewrite !elem_of_group_of.
rewrite (elem_of_all_recent_data _ _ _ _ _ _ Hrun1),
(elem_of_all_recent_data _ _ _ _ _ _ Hrun2).
rewrite iso_columns, iso_recent. simpl.
split; intros [-> [Hrow Hrec]]; (split; [done|]; split; [|done]);
by apply iso_all_wide_elem.
Qed.
End Isolation.

(** C4, as the code has it.  Two snapshots that agree on the records of a
    region Y, both accepted by a run over distinctly named methods and
    spanning the same dates, give Y the same delta series, the same
    candidate series, the same recorded method and the same positivity,
    whatever the records of the other regions. *)
Theorem isolation_on_a_shared_date_axis
    cols ds1 ds2 methods diff_days recent_days L1 L2 Y :
  run_body cols ds1 methods diff_days recent_days = inr L1 →
  run_body cols ds2 methods diff_days recent_days = inr L2 →
  NoDup (name <$> methods) →
  input_date_range L1 = input_date_range L2 →
  (∀ o, location_id o = Y → o ∈ data_long ds1 ↔ o ∈ data_long ds2) →
  (∀ v, row_of (diff_df L1) (v, Y) = row_of (diff_df L2) (v, Y)) ∧
  (∀ n, row_of (all_methods_timeseries (returned L1)) (Y, n)
        = row_of (all_methods_timeseries (returned L2)) (Y, n)) ∧
  selected_method (returned L1) Y = selected_method (returned L2) Y ∧
  (∀ d, positivity_at (returned L1) Y d = positivity_at (returned L2) Y d).
Proof.
  intros Hrun1 Hrun2 Hnames Haxis Hagree.
  pose proof (iso_group _ _ _ _ _ _ _ _ Y Hrun1 Hrun2 Hnames Haxis Hagree) as Hgroup.
  split; [|split; [|split]].
  - intros v. by eapply iso_delta_row.
  - intros n. rewrite (run_returned_table _ _ _ _ _ _ Hrun1),
      (run_returned_table _ _ _ _ _ _ Hrun2). by eapply iso_candidate_row.
  - by rewrite (run_selected _ _ _ _ _ _ Hrun1), (run_selected _ _ _ _ _ _ Hrun2), Hgroup.
  - intros d.
    rewrite (run_positivity_at _ _ _ _ _ _ Hrun1), (run_positivity_at _ _ _ _ _ _ Hrun2).
    by rewrite Hgroup, (iso_columns _ _ _ _ _ _ _ _ Hrun1 Hrun2).
Qed.

(** Other readings for region "new" on the same days leave region "old"
    as it was. *)
Lemma isolation_on_a_shared_date_axis_witness :
  ∃ L1 L2,
    run_body ["cases"; "tests"] Examples.stale_and_fresh Examples.cases_over_tests 1 14 = inr L1 ∧
    run_body ["cases"; "tests"] Examples.stale_and_other Examples.cases_over_tests 1 14 = inr L2 ∧
    selected_method (returned L1) "new" = Some "cases_tests" ∧
    positivity_at (returned L1) "new" 31 ≠ positivity_at (returned L2) "new" 31 ∧
    (∀ v, row_of (diff_df L1) (v, "old") = row_of (diff_df L2) (v, "old")) ∧
    selected_method (returned L1) "old" = selected_method (returned L2) "old".
Proof.
  assert (∃ L, run_body ["cases"; "tests"] Examples.stale_and_fresh Examples.cases_over_tests 1 14
               = inr L) as [L1 Hrun1] by (eexists; vm_compute; reflexivity).
  assert (∃ L, run_body ["cases"; "tests"] Examples.stale_and_other Examples.cases_over_tests 1 14
               = inr L) as [L2 Hrun2] by (eexists; vm_compute; reflexivity).
  exists L1, L2. split; [exact Hrun1|]. split; [exact Hrun2|].
  destruct (isolation_on_a_shared_date_axis _ _ _ _ _ _ _ _ "old" Hrun1 Hrun2)
    as (Hdelta & _ & Hsel & _).
  - by apply (bool_decide_unpack _).
  - vm_compute in Hrun1, Hrun2. injection Hrun1 as <-. injection Hrun2 as <-. reflexivity.
  - intros o HY. simpl.
    split; intros Hin;
      repeat (apply elem_of_cons in Hin as [->|Hin];
              [first [discriminate HY|by apply (bool_decide_unpack _)]|]);
      by apply elem_of_nil in Hin.
  - vm_compute in Hrun1, Hrun2. injection Hrun1 as <-. injection Hrun2 as <-.
    split; [vm_compute; reflexivity|]. split; [vm_compute; discriminate|].
    split; [exact Hdelta|exact Hsel].
Defined.

(** C4, as stated, fails: the records of region "new", a month later, move
    the end of the date axis and with it the recency window of region
    "old", which loses its method; without them "old" has one. *)
Lemma isolation_counterexample :
  (∀ o, location_id o = "old" →
        o ∈ data_long Examples.stale_and_fresh ↔ o ∈ data_long Examples.stale_only) ∧
  ∃ res1 res2,
    run Examples.stale_and_fresh Examples.cases_over_tests 1 14 = inr res1 ∧
    run Examples.stale_only Examples.cases_over_tests 1 14 = inr res2 ∧
    selected_method res1 "old" = None ∧
    selected_method res2 "old" = Some "cases_tests" ∧
    positivity_at res1 "old" 1 = NaN ∧
    positivity_at res2 "old" 1 = Quot 1 10 ∧
    row_of (all_methods_timeseries res1) ("old", "cases_tests")
      ≠ row_of (all_methods_timeseries res2) ("old", "cases_tests").
Proof.
  split.
  - intros o HY. simpl.
    split; intros Hin;
      repeat (apply elem_of_cons in Hin as [->|Hin];
              [first [discriminate HY|by apply (bool_decide_unpack _)]|]);
      by apply elem_of_nil in Hin.
  - do 2 eexists. split; [vm_compute; reflexivity|]. split; [vm_compute; reflexivity|].
    repeat split; vm_compute; (reflexivity || discriminate).
Qed.

(** ** Priority *)

(** C1, on the code.  With the default registry and a region that has a
    ratio on the last day for the methods at positions 1 and 2, the method
    recorded is the one at position 2: [sort_index] has put the rows in the
    order of their names, the cast to the ordered categorical type does not
    move them, and [groupby().first()] reads them in that order. *)
Lemma priority_failing_input :
  ∃ res, run Examples.two_viral_numerators TEST_POSITIVITY_METHODS 7 14 = inr res ∧
    name <$> TEST_POSITIVITY_METHODS !! 1%nat = Some "positiveTestsViral_totalTestsViral" ∧
    name <$> TEST_POSITIVITY_METHODS !! 2%nat = Some "positiveCasesViral_totalTestsViral" ∧
    cell_of (all_methods_timeseries res) ("R", "positiveTestsViral_totalTestsViral") 7
      = Quot 70 700 ∧
    cell_of (all_methods_timeseries res) ("R", "positiveCasesViral_totalTestsViral") 7
      = Quot 35 700 ∧
    selected_method res "R" = Some "positiveCasesViral_totalTestsViral" ∧
    positivity_at res "R" 7 = Quot 35 700.
Proof.
  eexists. split; [vm_compute; reflexivity|]. repeat split; vm_compute; reflexivity.
Qed.

(** The same with a registry of two methods: the second is recorded
    because its name sorts first. *)
Example priority_two_methods :
  ∃ res, run (mkDataset ["a"; "b"; "t"]
                (daily "a" "R" 0 [1; 2] ++ daily "b" "R" 0 [3; 5] ++ daily "t" "R" 0 [10; 20]) [])
             [mkMethod "preferred" "a" "t"; mkMethod "fallback" "b" "t"] 1 14 = inr res ∧
    rows (all_methods_timeseries res)
      = [(("R", "fallback"), [NaN; Quot 2 10]); (("R", "preferred"), [NaN; Quot 1 10])] ∧
    selected_method res "R" = Some "fallback".
Proof.
  eexists. split; [vm_compute; reflexivity|]. split; vm_compute; reflexivity.
Qed.

(** ** One method per region *)

(** C2, on the code.  With the default registry, the method recorded for
    the region is the one at position 1, whose series is missing on day 8;
    the positivity returned for day 8 is the value of the method at
    position 3: [groupby().first()] takes, under every date, the first
    non-null cell of the group. *)
Lemma mixture_failing_input :
  ∃ res, run Examples.a_gap_on_day_one TEST_POSITIVITY_METHODS 7 14 = inr res ∧
    selected_method res "R" = Some "positiveTestsViral_totalTestsViral" ∧
    row_of (all_methods_timeseries res) ("R", "positiveTestsViral_totalTestsViral")
      = Some [NaN; NaN; NaN; NaN; NaN; NaN; NaN; Quot 70 700; NaN] ∧
    row_of (all_methods_timeseries res) ("R", "positiveTests_totalTestsViral")
      = Some [NaN; NaN; NaN; NaN; NaN; NaN; NaN; Quot 42 700; Quot 42 700] ∧
    positivity_at res "R" 7 = Quot 70 700 ∧
    positivity_at res "R" 8 = Quot 42 700 ∧
    positivity_at res "R" 8
      ≠ cell_of (all_methods_timeseries res) ("R", "positiveTestsViral_totalTestsViral") 8.
Proof.
  eexists. split; [vm_compute; reflexivity|].
  repeat split; vm_compute; (reflexivity || discriminate).
Qed.

(** * Further properties of the code *)

(** ** [Method.calculate] *)

Lemma calculate_key_error m delta_df :
  calculate m delta_df = inl KeyError ↔
  (∀ R, (numerator m, R) ∉ (rows delta_df).*1) ∨
  (∀ R, (denominator m, R) ∉ (rows delta_df).*1).
Proof.
  split.
  - by intros [_ H]%calculate_fails.
  - intros Habsent. destruct (calculate m delta_df) as [e|f] eqn:Hcalc.
    + by apply calculate_fails in Hcalc as [-> _].
    + apply calculate_inr in Hcalc as (num & den & [[R HR] _]%loc_field_inr
                                        & [[R' HR'] _]%loc_field_inr & _).
      destruct Habsent as [Hn|Hd]; [by destruct (Hn R)|by destruct (Hd R')].
Qed.

(** X1. [Method.calculate] fails in two ways only.  It raises
    [AssertionError] exactly when the columns of [delta_df] are not named
    date or its index levels are not named variable and location.  With
    these names it raises [KeyError] exactly when one of its two fields
    labels no row of [delta_df].  It never raises [ValueError].  On the
    delta table that [AllMethods.run] passes the two assertions hold, so
    that the call is the division alone. *)
Theorem Method_calculate_raises m delta_df :
  (Method_calculate m delta_df = inl AssertionError ↔
   columns_names delta_df ≠ [CommonFields.DATE] ∨
   index_names delta_df ≠ [CommonFields.VARIABLE; CommonFields.LOCATION_ID]) ∧
  (Method_calculate m delta_df = inl KeyError ↔
   columns_names delta_df = [CommonFields.DATE] ∧
   index_names delta_df = [CommonFields.VARIABLE; CommonFields.LOCATION_ID] ∧
   ((∀ R, (numerator m, R) ∉ (rows (frame delta_df)).*1) ∨
    (∀ R, (denominator m, R) ∉ (rows (frame delta_df)).*1))) ∧
  Method_calculate m delta_df ≠ inl ValueError ∧
  Method_calculate m (delta_axes (frame delta_df)) = calculate m (frame delta_df).
Proof.
  assert (∀ e, calculate m (frame delta_df) = inl e → e = KeyError) as Honly
    by (intros e He; by apply calculate_fails in He as [-> _]).
  unfold Method_calculate at 1 2 3.
  destruct (decide (columns_names delta_df = [CommonFields.DATE])) as [Hc|Hc].
  - rewrite (bool_decide_eq_true_2 _ Hc). simpl.
    destruct (decide (index_names delta_df
                      = [CommonFields.VARIABLE; CommonFields.LOCATION_ID])) as [Hi|Hi].
    + rewrite (bool_decide_eq_true_2 _ Hi). simpl. split; [|split; [|split; [|done]]].
      * split; [|by intros [?|?]]. by intros ?%Honly.
      * rewrite calculate_key_error. tauto.
      * by intros ?%Honly.
    + rewrite (bool_decide_eq_false_2 _ Hi). simpl. split; [|split; [|split; [|done]]].
      * split; [by right|done].
      * split; [done|]. by intros (_ & ? & _).
      * done.
  - rewrite (bool_decide_eq_false_2 _ Hc). simpl. split; [|split; [|split; [|done]]].
    + split; [by left|done].
    + split; [done|]. by intros (? & _).
    + done.
Qed.

(** X2. The frame that [Method.calculate] returns has the columns of the
    delta table and one row per region that has a row under the numerator
    or under the denominator, each region once; a row has one cell per
    column, and the row of a region that lacks one of the two fields holds
    missing ratios only. *)
Theorem calculate_aligns_on_union m delta_df f :
  calculate m delta_df = inr f →
  NoDup (rows delta_df).*1 →
  columns f = columns delta_df ∧
  NoDup (rows f).*1 ∧
  (∀ R, R ∈ (rows f).*1 ↔
        (numerator m, R) ∈ (rows delta_df).*1 ∨ (denominator m, R) ∈ (rows delta_df).*1) ∧
  (∀ R cells, (R, cells) ∈ rows f →
     length cells = length (columns f) ∧
     ((numerator m, R) ∉ (rows delta_df).*1 ∨ (denominator m, R) ∉ (rows delta_df).*1 →
      Forall (λ c, c = NaN) cells)).
Proof.
  intros Hcalc Hnd. split; [by eapply calculate_columns|].
  split; [by eapply calculate_NoDup|]. split; [intros R; by apply calculate_keys|].
  intros R cells Hin. rewrite (calculate_row _ _ _ _ _ Hcalc Hin).
  rewrite (calculate_columns _ _ _ Hcalc). split; [by rewrite length_fmap|].
  intros Habsent. apply Forall_fmap, Forall_forall. intros d _. simpl.
  destruct Habsent as [Hn|Hd].
  - by rewrite (cell_of_missing_row delta_df (numerator m, R)).
  - rewrite (cell_of_missing_row delta_df (denominator m, R)) by done.
    by destruct (cell_of delta_df (numerator m, R) d).
Qed.

(** The delta table [no_new_tests] has rows for the cases and the tests of
    region "R". *)
Lemma calculate_aligns_on_union_witness :
  ∃ f, calculate (mkMethod "cases_tests" "cases" "tests") Examples.no_new_tests = inr f ∧
       columns f = [0; 1] ∧ ("R" ∈ (rows f).*1).
Proof.
  assert (∃ f, calculate (mkMethod "cases_tests" "cases" "tests") Examples.no_new_tests
               = inr f) as [f Hf] by (eexists; vm_compute; reflexivity).
  exists f. split; [exact Hf|].
  destruct (calculate_aligns_on_union _ _ _ Hf) as (Hcols & _ & Hkeys & _).
  - by apply (bool_decide_unpack _).
  - split; [exact Hcols|]. apply Hkeys. left. vm_compute. left.
Defined.

(** X3. [Method.calculate] divides and does nothing else: under a region
    and a date where both deltas are present and the denominator delta is
    not zero, the ratio is the numerator delta over the denominator delta,
    whatever their signs and their sizes (it is not clamped to the
    interval from 0 to 1); where the numerator delta is missing, the ratio
    is missing. *)
Theorem calculate_divides_without_clamping m delta_df f R d :
  calculate m delta_df = inr f →
  (∀ n q, cell_of delta_df (numerator m, R) d = Some n →
          cell_of delta_df (denominator m, R) d = Some q → q ≠ 0 →
          cell_of f R d = Quot n q) ∧
  (cell_of delta_df (numerator m, R) d = None → cell_of f R d = NaN).
Proof.
  intros Hcalc. rewrite (calculate_cell _ _ _ R d Hcalc). split.
  - intros n q -> -> Hq. simpl. by destruct (Z.eqb_spec q 0).
  - by intros ->.
Qed.

(** Thirty new cases over twenty new tests, and five cases fewer over
    twenty new tests. *)
Lemma calculate_divides_without_clamping_witness :
  ∃ f, calculate (mkMethod "cases_tests" "cases" "tests")
         (mkDataFrame [0; 1] [(("cases", "R"), [Some 30; Some (-5)]);
                              (("tests", "R"), [Some 20; Some 20])]) = inr f ∧
       cell_of f "R" 0 = Quot 30 20 ∧ cell_of f "R" 1 = Quot (-5) 20.
Proof.
  assert (∃ f, calculate (mkMethod "cases_tests" "cases" "tests")
         (mkDataFrame [0; 1] [(("cases", "R"), [Some 30; Some (-5)]);
                              (("tests", "R"), [Some 20; Some 20])]) = inr f) as [f Hf]
    by (eexists; vm_compute; reflexivity).
  exists f. split; [exact Hf|]. split.
  - apply (proj1 (calculate_divides_without_clamping _ _ _ "R" 0 Hf) 30 20);
      [vm_compute; reflexivity..|lia].
  - apply (proj1 (calculate_divides_without_clamping _ _ _ "R" 1 Hf) (-5) 20);
      [vm_compute; reflexivity..|lia].
Defined.

(** ** The table of all methods *)

Section RunTable.
Context (cols : list string) (ds : MultiRegionTimeseriesDataset (option Z))
(methods : list Method) (diff_days : Z) (recent_days : nat) (L : Locals).
Hypothesis Hrun : run_body cols ds methods diff_days recent_days = inr L.
Hypothesis Hnames : NoDup (name <$> methods).

Let long := timeseries_long ds cols.

(** A candidate with a value on some date belongs to a region that has
readings of both fields. *)
Lemma candidate_has_fields m R d :
candidate long diff_days m R d ≠ NaN →
has_field long (numerator m) R ∧ has_field long (denominator m) R.
Proof.
intros Hc. split; apply (run_keys cols ds); apply dec_stable; intros Hk; apply Hc;
unfold candidate, long.
- by rewrite (run_delta_no_key cols ds diff_days _ d Hk).
- rewrite (run_delta_no_key cols ds diff_days (denominator m, R) d Hk).
by destruct (delta _ _ (numerator m, R) d).
Qed.

Lemma existsb_notna_fmap (f : Z → ratio) (axis : list Z) :
existsb notna (f <$> axis) = true ↔ ∃ d, d ∈ axis ∧ f d ≠ NaN.
Proof.
rewrite existsb_elem_of. split.
- intros (c & (d & -> & Hd)%list_elem_of_fmap & Hc). exists d. split; [done|].
intros Heq. by rewrite Heq in Hc.
- intros (d & Hd & Hc). exists (f d). split; [by apply list_elem_of_fmap_2|].
by destruct (f d).
Qed.

Lemma run_table_rows R n cells :
((R, n), cells) ∈ rows (all_methods_timeseries (returned L)) ↔
∃ m, m ∈ methods ∧ n = name m ∧
cells = candidate long diff_days m R <$> input_date_range L ∧
∃ d, d ∈ input_date_range L ∧ candidate long diff_days m R d ≠ NaN.
Proof.
rewrite (run_returned_table _ _ _ _ _ _ Hrun).
rewrite (run_all_wide_elem _ _ _ _ _ _ Hrun Hnames). split.
- intros (m & Hm & -> & _ & -> & Hna). exists m. repeat split; try done.
by apply existsb_notna_fmap.
- intros (m & Hm & -> & -> & d & Hd & Hc). exists m. repeat split; try done.
+ left. by apply (candidate_has_fields m R d).
+ apply existsb_notna_fmap. eauto.
Qed.

Lemma run_table_cell m R d :
m ∈ methods →
(∃ d', d' ∈ input_date_range L ∧ candidate long diff_days m R d' ≠ NaN) →
d ∈ input_date_range L →
cell_of (all_methods_timeseries (returned L)) (R, name m) d = candidate long diff_days m R d.
Proof.
intros Hm Hex Hd.
assert (((R, name m), candidate long diff_days m R <$> input_date_range L)
  ∈ rows (all_methods_timeseries (returned L))) as Hin
by (apply run_table_rows; eauto).
rewrite (run_returned_table _ _ _ _ _ _ Hrun) in *.
unfold cell_of. rewrite (run_all_wide_row _ _ _ _ _ _ Hrun Hnames _ _ _ Hin).
rewrite (run_columns _ _ _ _ _ _ Hrun), at_label_fmap. by case_decide.
Qed.
End RunTable.

(** X4. The table of all methods holds the candidate series and nothing
    else: a row labelled (region, name) is the series, over the whole date
    axis, of the ratio of the deltas of the two fields of the method of
    that name for that region, and such a series has a row exactly when it
    has a value on some date of the axis, inside the recency window or
    not. *)
Theorem table_rows_are_candidate_series cols ds methods diff_days recent_days L R n cells :
  run_body cols ds methods diff_days recent_days = inr L →
  NoDup (name <$> methods) →
  ((R, n), cells) ∈ rows (all_methods_timeseries (returned L)) ↔
  ∃ m, m ∈ methods ∧ n = name m ∧
    cells = candidate (timeseries_long ds cols) diff_days m R <$> input_date_range L ∧
    ∃ d, d ∈ input_date_range L ∧ candidate (timeseries_long ds cols) diff_days m R d ≠ NaN.
Proof. intros Hrun Hnames. exact (run_table_rows _ _ _ _ _ _ Hrun Hnames R n cells). Qed.

(** Cumulative cases 10, 15, 25, 40 over cumulative tests 100, 200, 300,
    400: the ratios of the daily increments. *)
Lemma table_rows_are_candidate_series_witness :
  ∃ L, run_body ["cases"; "tests"] Examples.four_days Examples.cases_over_tests 1 14 = inr L ∧
       (("R", "cases_tests"), [NaN; Quot 5 100; Quot 10 100; Quot 15 100])
       ∈ rows (all_methods_timeseries (returned L)).
Proof.
  assert (∃ L, run_body ["cases"; "tests"] Examples.four_days Examples.cases_over_tests 1 14
               = inr L) as [L Hrun] by (eexists; vm_compute; reflexivity).
  exists L. split; [exact Hrun|].
  apply (table_rows_are_candidate_series _ _ _ _ _ _ _ _ _ Hrun).
  - by apply (bool_decide_unpack _).
  - exists (mkMethod "cases_tests" "cases" "tests").
    vm_compute in Hrun. injection Hrun as <-.
    split; [left|]. split; [reflexivity|]. split; [vm_compute; reflexivity|].
    exists 1. split; [vm_compute; right; left|vm_compute; discriminate].
Defined.

(** X5. Shape of the table of all methods: its columns are the date axis
    of the run, its rows come in the order of their (region, name) labels
    with no label twice, and every row has one cell per column. *)
Theorem table_is_sorted_and_rectangular cols ds methods diff_days recent_days L :
  run_body cols ds methods diff_days recent_days = inr L →
  NoDup (name <$> methods) →
  columns (all_methods_timeseries (returned L)) = input_date_range L ∧
  NoDup (rows (all_methods_timeseries (returned L))).*1 ∧
  StronglySorted (λ r1 r2 : (LocationId * string) * list ratio, pair_leb r1.1 r2.1 = true)
    (rows (all_methods_timeseries (returned L))) ∧
  ∀ r, r ∈ rows (all_methods_timeseries (returned L)) →
       length r.2 = length (columns (all_methods_timeseries (returned L))).
Proof.
  intros Hrun Hnames. rewrite (run_returned_table _ _ _ _ _ _ Hrun).
  split; [by eapply run_columns|]. split; [by eapply run_all_wide_NoDup|].
  split; [exact (run_sorted _ _ _ _ _ _ Hrun)|]. by eapply run_row_length.
Qed.

Lemma table_is_sorted_and_rectangular_witness :
  ∃ L, run_body ["cases"; "tests"] Examples.stale_and_fresh Examples.cases_over_tests 1 14
       = inr L ∧
       (rows (all_methods_timeseries (returned L))).*1
       = [("new", "cases_tests"); ("old", "cases_tests")] ∧
       length (columns (all_methods_timeseries (returned L))) = 32%nat.
Proof.
  assert (∃ L, run_body ["cases"; "tests"] Examples.stale_and_fresh Examples.cases_over_tests
                 1 14 = inr L) as [L Hrun] by (eexists; vm_compute; reflexivity).
  exists L. split; [exact Hrun|].
  destruct (table_is_sorted_and_rectangular _ _ _ _ _ _ Hrun) as (Hcols & _ & _ & _).
  - by apply (bool_decide_unpack _).
  - rewrite Hcols. vm_compute in Hrun. injection Hrun as <-.
    split; vm_compute; reflexivity.
Defined.

(** ** The selection *)

(** The first non-missing cell under a date, read down a group of rows. *)
Lemma first_row_first_value {K} (cols : list Z) (n : nat) (g : list (K * list ratio)) (d : Z) :
  Forall (λ r : list ratio, length r = n) g.*2 →
  (at_label cols (first_row n g.*2) d = NaN ∧
   ∀ r, r ∈ g → at_label cols r.2 d = NaN) ∨
  (∃ g1 r g2, g = (g1 ++ r :: g2)%list ∧
     (∀ r', r' ∈ g1 → at_label cols r'.2 d = NaN) ∧
     at_label cols r.2 d ≠ NaN ∧
     at_label cols (first_row n g.*2) d = at_label cols r.2 d).
Proof.
  induction g as [|r g IH]; intros Hlen.
  - left. split; [apply at_label_replicate_nan|]. by intros r ?%elem_of_nil.
  - rewrite fmap_cons in *. rewrite at_label_first_row_cons by done.
    apply Forall_cons in Hlen as [_ Hlen]. unfold first_notna.
    destruct (notna (at_label cols r.2 d)) eqn:Hna.
    + right. exists [], r, g. split; [done|]. split; [by intros r' ?%elem_of_nil|].
      split; [|done]. intros Heq. by rewrite Heq in Hna.
    + apply notna_false in Hna. destruct (IH Hlen) as [[Hall Hg]|(g1 & r' & g2 & -> & Hg1 & Hr' & Heq)].
      * left. split; [done|]. intros r' [->|Hin]%elem_of_cons; auto.
      * right. exists (r :: g1), r', g2. split; [done|]. split; [|done].
        intros r'' [->|Hin]%elem_of_cons; auto.
Qed.

(** In a list sorted by distinct keys, what stands before an entry has a
    key below it and what stands after has a key above it. *)
Lemma sorted_split_keys {A K} (key : A → K) (leb : K → K → bool) `{!LebOrder leb}
    (g1 g2 : list A) (r : A) :
  StronglySorted (key_le key leb) (g1 ++ r :: g2) →
  (∀ x, x ∈ g1 → leb (key x) (key r) = true) ∧ (∀ x, x ∈ g2 → leb (key r) (key x) = true).
Proof.
  induction g1 as [|y g1 IH]; simpl; intros Hs.
  - split; [by intros x ?%elem_of_nil|]. intros x Hx.
    apply (sorted_head_least key leb r g2 x Hs). by right.
  - pose proof (sorted_head_least key leb y _ r Hs) as Hy.
    apply StronglySorted_inv in Hs as [Hs _]. destruct (IH Hs) as [H1 H2].
    split; [|done]. intros x [->|Hx]%elem_of_cons; [|by apply H1].
    apply Hy. right. apply elem_of_app. right. left.
Qed.

Section RunOutput.
Context (cols : list string) (ds : MultiRegionTimeseriesDataset (option Z))
(methods : list Method) (diff_days : Z) (recent_days : nat) (L : Locals).
Hypothesis Hrun : run_body cols ds methods diff_days recent_days = inr L.
Hypothesis Hnames : NoDup (name <$> methods).

Let T := all_methods_timeseries (returned L).
Let recent := recent_date_range L.

Lemma recent_viable_row R n :
recent_viable (returned L) recent R n ↔ ∃ cells, ((R, n), cells) ∈ all_recent_data L.
Proof.
unfold recent_viable, recent. rewrite (run_returned_table _ _ _ _ _ _ Hrun).
setoid_rewrite (elem_of_all_recent_data _ _ _ _ _ _ Hrun).
setoid_rewrite has_recent_data_true. simpl. split.
- intros (cells & d & Hin & Hd & Hna). exists cells. eauto.
- intros (cells & Hin & d & Hd & Hna). eauto.
Qed.

Lemma recent_row_cell R n cells d :
((R, n), cells) ∈ all_recent_data L →
cell_of T (R, n) d = at_label (columns (all_wide L)) cells d.
Proof.
intros [Hin _]%(elem_of_all_recent_data _ _ _ _ _ _ Hrun).
unfold T, cell_of. rewrite (run_returned_table _ _ _ _ _ _ Hrun).
by rewrite (run_all_wide_row _ _ _ _ _ _ Hrun Hnames _ _ _ Hin).
Qed.

Lemma group_sorted R :
StronglySorted (key_le fst pair_leb) (group_of R (all_recent_data L)).
Proof. apply filter_sorted, (run_recent_sorted _ _ _ _ _ _ Hrun). Qed.

Lemma group_NoDup R : NoDup (group_of R (all_recent_data L)).*1.
Proof.
unfold group_of. apply NoDup_filter_keys.
apply run_body_inv in Hrun as Hinv.
destruct Hinv as (?&?&?&?&?&_&_&_&_&_&_&_&_&_&_&_&_&->&_).
apply NoDup_filter_keys, (run_all_wide_NoDup _ _ _ _ _ _ Hrun Hnames).
Qed.

(** The positivity of a region on a date, read off its group of rows with
recent data. *)
Lemma run_positivity_first R d :
(positivity_at (returned L) R d = NaN ∧
 ∀ r, r ∈ group_of R (all_recent_data L) → at_label (columns (all_wide L)) r.2 d = NaN) ∨
(∃ g1 r g2, group_of R (all_recent_data L) = (g1 ++ r :: g2)%list ∧
 (∀ r', r' ∈ g1 → at_label (columns (all_wide L)) r'.2 d = NaN) ∧
 at_label (columns (all_wide L)) r.2 d ≠ NaN ∧
 positivity_at (returned L) R d = at_label (columns (all_wide L)) r.2 d).
Proof.
rewrite (run_positivity_at _ _ _ _ _ _ Hrun).
apply first_row_first_value, (run_group_lengths _ _ _ _ _ _ Hrun Hnames).
Qed.

Lemma run_positivity_nan R d :
positivity_at (returned L) R d = NaN ↔
∀ n, recent_viable (returned L) recent R n → cell_of T (R, n) d = NaN.
Proof.
split.
- intros Hnan n [cells Hin]%recent_viable_row.
rewrite (recent_row_cell _ _ _ _ Hin).
assert (((R, n), cells) ∈ group_of R (all_recent_data L)) as Hg
by (by apply elem_of_group_of).
destruct (run_positivity_first R d) as [[_ Hall]|(g1 & r & g2 & _ & _ & Hr & Heq)].
+ exact (Hall _ Hg).
+ rewrite Hnan in Heq. by destruct Hr.
- intros Hall.
destruct (run_positivity_first R d) as [[Hnan _]|(g1 & r & g2 & Hg & _ & Hr & Heq)];
[done|].
assert (r ∈ group_of R (all_recent_data L)) as [HR Hin]%elem_of_group_of
by (rewrite Hg, elem_of_app; right; left).
destruct r as [[R' n] cells]. simpl in *. subst R'. destruct Hr.
rewrite <- (recent_row_cell _ _ _ _ Hin). apply Hall, recent_viable_row. eauto.
Qed.

Lemma run_positivity_value R n d :
recent_viable (returned L) recent R n →
cell_of T (R, n) d ≠ NaN →
(∀ n', recent_viable (returned L) recent R n' → str_leb n' n = true → n' ≠ n →
 cell_of T (R, n') d = NaN) →
positivity_at (returned L) R d = cell_of T (R, n) d.
Proof.
intros [cells Hin]%recent_viable_row Hcell Hbefore.
assert (((R, n), cells) ∈ group_of R (all_recent_data L)) as Hg
by (by apply elem_of_group_of).
rewrite (recent_row_cell _ _ _ _ Hin) in *.
destruct (run_positivity_first R d) as [[_ Hall]|(g1 & r & g2 & Hdec & Hg1 & Hr & Heq)].
- by destruct Hcell; apply (Hall _ Hg).
- pose proof (group_sorted R) as Hs. pose proof (group_NoDup R) as Hnd.
rewrite Hdec in Hs, Hnd, Hg.
destruct (sorted_split_keys fst pair_leb _ _ _ Hs) as [_ Hafter].
rewrite fmap_app, fmap_cons in Hnd.
apply NoDup_app in Hnd as (_ & _ & [Hr2 _]%NoDup_cons).
apply elem_of_app in Hg as [Hg|[<-|Hg]%elem_of_cons]; [|done|].
+ by destruct Hcell; apply (Hg1 _ Hg).
+ assert (r ∈ group_of R (all_recent_data L)) as [HR Hrin]%elem_of_group_of
by (rewrite Hdec, elem_of_app; right; left).
destruct r as [[R' n'] cells']. simpl in *. subst R'. destruct Hr.
rewrite <- (recent_row_cell _ _ _ _ Hrin). apply Hbefore.
* apply recent_viable_row. eauto.
* rewrite <- (pair_leb_same_fst R). exact (Hafter _ Hg).
* intros ->. apply Hr2. by apply (list_elem_of_fmap_2' fst _ ((R, n), cells)).
Qed.

Lemma run_selected_first R n :
selected_method (returned L) R = Some n ↔
recent_viable (returned L) recent R n ∧
∀ n', recent_viable (returned L) recent R n' → str_leb n n' = true.
Proof.
rewrite (run_selected_least _ _ _ _ _ _ Hrun), recent_viable_row.
split; intros [Hv Hleast]; (split; [done|]).
- intros n' [cells' Hin]%recent_viable_row. eauto.
- intros n' cells' Hin. apply Hleast, recent_viable_row. eauto.
Qed.

(** The values of the recorded method are returned as they are. *)
Lemma run_selected_value R n d :
selected_method (returned L) R = Some n →
cell_of T (R, n) d ≠ NaN →
positivity_at (returned L) R d = cell_of T (R, n) d.
Proof.
intros [Hv Hleast]%run_selected_first Hcell.
apply run_positivity_value; [done..|]. intros n' Hv' Hle Hne. destruct Hne.
apply (leb_antisym (leb:=str_leb)); auto.
Qed.
End RunOutput.

(** Membership in a list that is written out. *)
Ltac elem_cases H :=
  simpl in H;
  repeat (apply elem_of_cons in H as [H|H]); [..|by apply elem_of_nil in H].

(** X6. The method recorded for a region is the one, among the methods
    with recent data for the region, whose name comes first in the order
    of strings: the rows are read in the order in which [sort_index] left
    them.  A region has a recorded method exactly when some method has
    recent data for it. *)
Theorem selected_method_is_first_by_name cols ds methods diff_days recent_days L R n :
  run_body cols ds methods diff_days recent_days = inr L →
  selected_method (returned L) R = Some n ↔
  recent_viable (returned L) (recent_date_range L) R n ∧
  ∀ n', recent_viable (returned L) (recent_date_range L) R n' → str_leb n n' = true.
Proof. intros Hrun. exact (run_selected_first _ _ _ _ _ _ Hrun R n). Qed.

Lemma selected_method_is_first_by_name_witness :
  ∃ L, run_body ["a"; "b"; "t"] Examples.gap_in_fallback Examples.preferred_and_fallback 1 14
       = inr L ∧
       selected_method (returned L) "R" = Some "fallback".
Proof.
  assert (∃ L, run_body ["a"; "b"; "t"] Examples.gap_in_fallback
                 Examples.preferred_and_fallback 1 14 = inr L) as [L Hrun]
    by (eexists; vm_compute; reflexivity).
  exists L. split; [exact Hrun|].
  apply (selected_method_is_first_by_name _ _ _ _ _ _ _ _ Hrun).
  vm_compute in Hrun. injection Hrun as <-. split.
  - exists [NaN; Quot 2 10; NaN; NaN], 1. split; [left|]. split; [right; left|reflexivity].
  - intros n' (cells & d & Hin & _). elem_cases Hin; injection Hin as -> _; reflexivity.
Defined.

(** X7. The positivity returned for a region and a date is the first
    non-missing value under that date among the rows of the methods with
    recent data for the region, read in the order of their names: it is
    missing exactly when all of them are missing on that date, and it is
    otherwise the value of the first of them that has one.  Methods
    without recent data contribute nothing. *)
Theorem positivity_is_first_value_by_name cols ds methods diff_days recent_days L R d :
  run_body cols ds methods diff_days recent_days = inr L →
  NoDup (name <$> methods) →
  (positivity_at (returned L) R d = NaN ↔
   ∀ n, recent_viable (returned L) (recent_date_range L) R n →
        cell_of (all_methods_timeseries (returned L)) (R, n) d = NaN) ∧
  (∀ n, recent_viable (returned L) (recent_date_range L) R n →
        cell_of (all_methods_timeseries (returned L)) (R, n) d ≠ NaN →
        (∀ n', recent_viable (returned L) (recent_date_range L) R n' →
               str_leb n' n = true → n' ≠ n →
               cell_of (all_methods_timeseries (returned L)) (R, n') d = NaN) →
        positivity_at (returned L) R d
        = cell_of (all_methods_timeseries (returned L)) (R, n) d).
Proof.
  intros Hrun Hnames. split.
  - exact (run_positivity_nan _ _ _ _ _ _ Hrun Hnames R d).
  - intros n. exact (run_positivity_value _ _ _ _ _ _ Hrun Hnames R n d).
Qed.

(** On day 2 the fallback has no value: the value of the preferred method
    is returned under the name of the fallback. *)
Lemma positivity_is_first_value_by_name_witness :
  ∃ L, run_body ["a"; "b"; "t"] Examples.gap_in_fallback Examples.preferred_and_fallback 1 14
       = inr L ∧
       positivity_at (returned L) "R" 2 = Quot 2 10 ∧
       positivity_at (returned L) "R" 0 = NaN.
Proof.
  assert (∃ L, run_body ["a"; "b"; "t"] Examples.gap_in_fallback
                 Examples.preferred_and_fallback 1 14 = inr L) as [L Hrun]
    by (eexists; vm_compute; reflexivity).
  exists L. split; [exact Hrun|].
  assert (NoDup (name <$> Examples.preferred_and_fallback)) as Hnames
    by (by apply (bool_decide_unpack _)).
  pose proof (λ d, positivity_is_first_value_by_name _ _ _ _ _ _ "R" d Hrun Hnames) as H.
  vm_compute in Hrun. injection Hrun as <-. split.
  - rewrite (proj2 (H 2) "preferred"); [vm_compute; reflexivity| | |].
    + exists [NaN; Quot 1 10; Quot 2 10; Quot 3 10], 1.
      split; [right; left|]. split; [right; left|reflexivity].
    + vm_compute. discriminate.
    + intros n' (cells & d & Hin & _) _ Hne. elem_cases Hin; injection Hin as -> _.
      * vm_compute. reflexivity.
      * by destruct Hne.
  - apply (proj1 (H 0)). intros n' (cells & d & Hin & _).
    elem_cases Hin; injection Hin as -> _; vm_compute; reflexivity.
Defined.

(** X8. The values of the recorded method are never replaced: on every
    date on which the recorded method has a value, inside the recency
    window or before it, that value is the positivity returned.  When the
    recorded method is the only one with recent data for the region, the
    positivity returned is its whole series, date by date. *)
Theorem recorded_method_values_are_kept cols ds methods diff_days recent_days L R n :
  run_body cols ds methods diff_days recent_days = inr L →
  NoDup (name <$> methods) →
  selected_method (returned L) R = Some n →
  (∀ d, cell_of (all_methods_timeseries (returned L)) (R, n) d ≠ NaN →
        positivity_at (returned L) R d
        = cell_of (all_methods_timeseries (returned L)) (R, n) d) ∧
  ((∀ n', recent_viable (returned L) (recent_date_range L) R n' → n' = n) →
   ∀ d, positivity_at (returned L) R d
        = cell_of (all_methods_timeseries (returned L)) (R, n) d).
Proof.
  intros Hrun Hnames Hsel. split.
  - intros d. exact (run_selected_value _ _ _ _ _ _ Hrun Hnames R n d Hsel).
  - intros Honly d.
    destruct (decide (cell_of (all_methods_timeseries (returned L)) (R, n) d = NaN))
      as [Hnan|Hval].
    + rewrite Hnan. apply (run_positivity_nan _ _ _ _ _ _ Hrun Hnames).
      by intros n' ->%Honly.
    + exact (run_selected_value _ _ _ _ _ _ Hrun Hnames R n d Hsel Hval).
Qed.

(** Region "old" reports on days 0 and 1 only; with a window of fourteen
    days ending on day 1 its one method is recorded and its series is
    returned. *)
Lemma recorded_method_values_are_kept_witness :
  ∃ L, run_body ["cases"; "tests"] Examples.stale_only Examples.cases_over_tests 1 14 = inr L ∧
       selected_method (returned L) "old" = Some "cases_tests" ∧
       positivity_at (returned L) "old" 1 = Quot 1 10 ∧
       positivity_at (returned L) "old" 0 = NaN.
Proof.
  assert (∃ L, run_body ["cases"; "tests"] Examples.stale_only Examples.cases_over_tests 1 14
               = inr L) as [L Hrun] by (eexists; vm_compute; reflexivity).
  exists L. split; [exact Hrun|].
  assert (NoDup (name <$> Examples.cases_over_tests)) as Hnames
    by (by apply (bool_decide_unpack _)).
  assert (selected_method (returned L) "old" = Some "cases_tests") as Hsel
    by (vm_compute in Hrun; injection Hrun as <-; vm_compute; reflexivity).
  split; [exact Hsel|].
  destruct (recorded_method_values_are_kept _ _ _ _ _ _ _ _ Hrun Hnames Hsel) as [_ Hall].
  assert (∀ n', recent_viable (returned L) (recent_date_range L) "old" n' →
                n' = "cases_tests") as Honly.
  { vm_compute in Hrun. injection Hrun as <-.
    intros n' (cells & d & Hin & _). elem_cases Hin. by injection Hin as -> _. }
  split; [rewrite (Hall Honly 1)|rewrite (Hall Honly 0)];
    vm_compute in Hrun; injection Hrun as <-; vm_compute; reflexivity.
Defined.

(** X9. Recent data is enough: a region for which some method has recent
    data gets a recorded method, and a positivity value on at least one
    date of the recency window. *)
Theorem recent_data_gives_a_selection cols ds methods diff_days recent_days L R n :
  run_body cols ds methods diff_days recent_days = inr L →
  NoDup (name <$> methods) →
  recent_viable (returned L) (recent_date_range L) R n →
  (∃ n', selected_method (returned L) R = Some n') ∧
  ∃ d, d ∈ recent_date_range L ∧ positivity_at (returned L) R d ≠ NaN.
Proof.
  intros Hrun Hnames Hv. split.
  - rewrite (run_selected _ _ _ _ _ _ Hrun).
    apply (recent_viable_row _ _ _ _ _ _ Hrun) in Hv as [cells Hin].
    assert (((R, n), cells) ∈ group_of R (all_recent_data L)) as Hg
      by (by apply elem_of_group_of).
    destruct (group_of R (all_recent_data L)) as [|[[R' n'] c'] g]; [by apply elem_of_nil in Hg|].
    by exists n'.
  - pose proof Hv as (cells & d & Hin & Hd & Hna). exists d. split; [done|].
    intros Hnan.
    pose proof (proj1 (run_positivity_nan _ _ _ _ _ _ Hrun Hnames R d) Hnan n Hv) as Hcell.
    clear Hnan. rename Hcell into Hnan. unfold cell_of in Hnan.
    rewrite (run_returned_table _ _ _ _ _ _ Hrun) in *.
    rewrite (run_all_wide_row _ _ _ _ _ _ Hrun Hnames _ _ _ Hin) in Hnan.
    by rewrite Hnan in Hna.
Qed.

Lemma recent_data_gives_a_selection_witness :
  ∃ L, run_body ["cases"; "tests"] Examples.stale_and_fresh Examples.cases_over_tests 1 14
       = inr L ∧
       ∃ n', selected_method (returned L) "new" = Some n'.
Proof.
  assert (∃ L, run_body ["cases"; "tests"] Examples.stale_and_fresh Examples.cases_over_tests
                 1 14 = inr L) as [L Hrun] by (eexists; vm_compute; reflexivity).
  exists L. split; [exact Hrun|].
  apply (recent_data_gives_a_selection _ _ _ _ _ _ "new" "cases_tests" Hrun).
  - by apply (bool_decide_unpack _).
  - vm_compute in Hrun. injection Hrun as <-.
    eexists _, 31. split; [left|]. split; [|vm_compute; reflexivity].
    vm_compute. repeat first [left; reflexivity | right].
Defined.

(** ** The store that is returned *)

Lemma elem_of_stack {K} (cols : list Z) (rs : list (K * list ratio)) (k : K) (d : Z) (c : ratio) :
  ((k, d), c) ∈ stack cols rs ↔
  ∃ cells, (k, cells) ∈ rs ∧ (d, c) ∈ zip cols cells ∧ notna c = true.
Proof.
  unfold stack. rewrite elem_of_flat_map. split.
  - intros ([k' cells] & Hin & ([d' c'] & [= -> -> ->] & [Hna Hz]%list_elem_of_filter)%list_elem_of_fmap).
    exists cells. done.
  - intros (cells & Hin & Hz & Hna). exists (k, cells). split; [done|].
    apply (list_elem_of_fmap_2' _ _ (d, c)); [|done]. by apply list_elem_of_filter.
Qed.

Lemma NoDup_zip_filter (P : Z * ratio → Prop) `{!∀ x, Decision (P x)}
    (cols : list Z) (cells : list ratio) :
  NoDup cols → NoDup (filter P (zip cols cells)).*1.
Proof.
  intros Hnd. apply NoDup_filter_keys. revert cells.
  induction Hnd as [|x cols Hx Hnd IH]; intros [|c cells]; simpl; try constructor.
  - intros ([x' c'] & -> & Hin%elem_of_zip_l)%list_elem_of_fmap. done.
  - apply IH.
Qed.

Lemma NoDup_stack {K} (cols : list Z) (rs : list (K * list ratio)) :
  NoDup cols → NoDup rs.*1 → NoDup (stack cols rs).*1.
Proof.
  intros Hcols. induction rs as [|[k cells] rs IH]; intros Hnd; [constructor|].
  rewrite fmap_cons in Hnd. apply NoDup_cons in Hnd as [Hk Hnd].
  rewrite stack_cons, fmap_app. apply NoDup_app. split; [|split; [|by apply IH]].
  - rewrite <- list_fmap_compose.
    replace ((fst ∘ (λ dc : Z * ratio, (((k, cells).1, dc.1), dc.2)))
             <$> filter (λ dc : Z * ratio, notna dc.2 = true) (zip cols (k, cells).2))
      with ((λ d : Z, (k, d))
            <$> (filter (λ dc : Z * ratio, notna dc.2 = true) (zip cols cells)).*1)
      by (by rewrite <- list_fmap_compose).
    apply NoDup_fmap_2; [by intros ?? [= ->]|]. by apply NoDup_zip_filter.
  - intros [k' d] ([[k1 d1] c1] & [= -> ->] & Hin1)%list_elem_of_fmap
                  ([[k2 d2] c2] & [= -> ->] & Hin2)%list_elem_of_fmap.
    apply list_elem_of_fmap in Hin1 as ([d3 c3] & [= -> -> ->] & _). simpl in *.
    apply elem_of_stack in Hin2 as (cells2 & Hin2 & _).
    apply Hk. by apply (list_elem_of_fmap_2' fst _ (k, cells2)).
Qed.

Lemma NoDup_provenance (H : string → option string) (locs : list string) :
  NoDup locs →
  NoDup (omap (λ l, (λ n, ((l, "positivity"), n)) <$> H l) locs).*1.
Proof.
  induction 1 as [|l locs Hl Hnd IH]; [constructor|]. rewrite omap_cons.
  destruct (H l) as [n|]; simpl; [|done]. apply NoDup_cons. split; [|done].
  intros ([[R' v] n'] & [= -> ->] & Hin)%list_elem_of_fmap.
  apply list_elem_of_omap in Hin as (l' & Hl' & Heq).
  destruct (H l'); simpl in Heq; [|done]. by injection Heq as -> _.
Qed.

Section RunStore.
Context (cols : list string) (ds : MultiRegionTimeseriesDataset (option Z))
(methods : list Method) (diff_days : Z) (recent_days : nat) (L : Locals).
Hypothesis Hrun : run_body cols ds methods diff_days recent_days = inr L.
Hypothesis Hnames : NoDup (name <$> methods).

Let store := test_positivity (returned L).

Lemma run_store :
store = from_timeseries_df "positivity"
    (stack (columns (all_wide L))
       ((λ l, (l, first_row (length (columns (all_wide L)))
                    ((group_of l (all_recent_data L)).*2)))
        <$> unique_sorted str_leb ((all_recent_data L).*1.*1)))
    (omap (λ l, (λ n, ((l, "positivity"), n))
                  <$> head ((group_of l (all_recent_data L)).*1.*2))
       (unique_sorted str_leb ((all_recent_data L).*1.*1))).
Proof.
unfold store.
apply run_body_inv in Hrun as Hinv.
destruct Hinv as (?&?&?&?&?&_&_&_&_&_&_&_&_&_&_&_&_&_&Hfirst&->).
simpl. rewrite Hfirst, groupby_first_positivity. f_equal.
unfold groupby_first. by rewrite omap_fmap.
Qed.

Lemma run_records_NoDup : NoDup (obs_entry <$> data_long store).*1.
Proof.
rewrite run_store. simpl. rewrite <- !list_fmap_compose.
match goal with |- NoDup (?g <$> ?l) =>
replace (g <$> l) with ((λ k : string * Z, (("positivity", k.1), k.2)) <$> l.*1)
by (by rewrite <- list_fmap_compose) end.
apply NoDup_fmap_2; [by intros [??] [??] [= -> ->]|].
apply NoDup_stack; [exact (run_columns_NoDup _ _ _ _ _ _ Hrun)|].
rewrite <- list_fmap_compose. simpl. rewrite list_fmap_id. apply NoDup_unique_sorted.
Qed.

Lemma run_record_value o :
o ∈ data_long store → positivity_at (returned L) (location_id o) (date o) = value o.
Proof.
intros Ho. unfold positivity_at. fold store.
rewrite (assoc_NoDup _ (value o) _ run_records_NoDup); [done|].
destruct o as [v l d c]. simpl.
pose proof Ho as [Hv _]%(elem_of_run_records _ _ _ _ _ _ Hrun). simpl in Hv. subst v.
by apply (list_elem_of_fmap_2' obs_entry _ (mkObservation "positivity" l d c)).
Qed.

Lemma run_record_date o : o ∈ data_long store → date o ∈ input_date_range L.
Proof.
rewrite run_store. simpl.
intros ([[R d] c] & -> & (cells & _ & Hz%elem_of_zip_l & _)%elem_of_stack)%list_elem_of_fmap.
simpl. by rewrite <- (run_columns _ _ _ _ _ _ Hrun).
Qed.

Lemma run_record_of_value R d :
positivity_at (returned L) R d ≠ NaN →
mkObservation "positivity" R d (positivity_at (returned L) R d) ∈ data_long store.
Proof.
unfold positivity_at. fold store. intros Hne.
destruct (assoc _ _) as [c|] eqn:Hc; [|done]. simpl.
apply assoc_Some_elem_of, list_elem_of_fmap in Hc as ([v l d' c'] & [= -> -> -> ->] & Ho).
pose proof Ho as [Hv _]%(elem_of_run_records _ _ _ _ _ _ Hrun). simpl in Hv. by subst v.
Qed.

Lemma run_provenance_NoDup : NoDup (provenance store).*1.
Proof.
rewrite run_store. simpl.
apply (NoDup_provenance (λ l, head ((group_of l (all_recent_data L)).*1.*2))).
apply NoDup_unique_sorted.
Qed.

Lemma run_provenance_entry e :
e ∈ provenance store ↔
∃ R n, e = ((R, "positivity"), n) ∧ selected_method (returned L) R = Some n.
Proof.
unfold selected_method. fold store. split.
- intros He. pose proof He as (R & n & _ & -> & _)%(elem_of_run_provenance _ _ _ _ _ _ Hrun).
exists R, n. split; [done|]. by apply (assoc_NoDup _ _ _ run_provenance_NoDup).
- intros (R & n & -> & Hsel). by apply assoc_Some_elem_of.
Qed.
End RunStore.

Lemma run_selected_nonempty cols ds methods diff_days recent_days L R n cells :
  run_body cols ds methods diff_days recent_days = inr L →
  ((R, n), cells) ∈ all_recent_data L →
  ∃ n', selected_method (returned L) R = Some n'.
Proof.
  intros Hrun Hin. rewrite (run_selected _ _ _ _ _ _ Hrun).
  assert (((R, n), cells) ∈ group_of R (all_recent_data L)) as Hg
    by (by apply elem_of_group_of).
  destruct (group_of R (all_recent_data L)) as [|[[R' n'] c'] g]; [by apply elem_of_nil in Hg|].
  by exists n'.
Qed.

(** X10. The positivity records of the store that is returned: no two
    records share a region and a date; every record is of the variable
    "positivity", holds a value that is not missing, on a date of the date
    axis, for a region that has a recorded method; and the records are
    exactly the non-missing positivities, so that looking a record up
    gives its value back. *)
Theorem positivity_records_are_values cols ds methods diff_days recent_days L :
  run_body cols ds methods diff_days recent_days = inr L →
  NoDup (obs_entry <$> data_long (test_positivity (returned L))).*1 ∧
  (∀ o, o ∈ data_long (test_positivity (returned L)) →
     variable o = "positivity" ∧ value o ≠ NaN ∧ date o ∈ input_date_range L ∧
     (∃ n, selected_method (returned L) (location_id o) = Some n) ∧
     positivity_at (returned L) (location_id o) (date o) = value o) ∧
  (∀ R d, positivity_at (returned L) R d ≠ NaN →
     mkObservation "positivity" R d (positivity_at (returned L) R d)
     ∈ data_long (test_positivity (returned L))).
Proof.
  intros Hrun. split; [exact (run_records_NoDup _ _ _ _ _ _ Hrun)|]. split.
  - intros o Ho.
    pose proof Ho as (Hv & Hna & n & cells & Hin)%(elem_of_run_records _ _ _ _ _ _ Hrun).
    split; [done|]. split; [intros Heq; by rewrite Heq in Hna|].
    split; [exact (run_record_date _ _ _ _ _ _ Hrun o Ho)|].
    split; [by eapply run_selected_nonempty|].
    exact (run_record_value _ _ _ _ _ _ Hrun o Ho).
  - exact (run_record_of_value _ _ _ _ _ _ Hrun).
Qed.

Lemma positivity_records_are_values_witness :
  ∃ L, run_body ["cases"; "tests"] Examples.four_days Examples.cases_over_tests 1 14 = inr L ∧
       data_long (test_positivity (returned L))
       = [mkObservation "positivity" "R" 1 (Quot 5 100);
          mkObservation "positivity" "R" 2 (Quot 10 100);
          mkObservation "positivity" "R" 3 (Quot 15 100)] ∧
       NoDup (obs_entry <$> data_long (test_positivity (returned L))).*1.
Proof.
  assert (∃ L, run_body ["cases"; "tests"] Examples.four_days Examples.cases_over_tests 1 14
               = inr L) as [L Hrun] by (eexists; vm_compute; reflexivity).
  exists L. split; [exact Hrun|].
  split; [|exact (proj1 (positivity_records_are_values _ _ _ _ _ _ Hrun))].
  vm_compute in Hrun. injection Hrun as <-. vm_compute. reflexivity.
Defined.

(** X11. The provenance of the store that is returned has one entry per
    region with a recorded method and no other entry: the entry of a
    region is labelled (region, "positivity") and names the recorded
    method, which is a method of the registry. *)
Theorem provenance_is_one_method_per_region cols ds methods diff_days recent_days L :
  run_body cols ds methods diff_days recent_days = inr L →
  NoDup (name <$> methods) →
  NoDup (provenance (test_positivity (returned L))).*1 ∧
  (∀ e, e ∈ provenance (test_positivity (returned L)) ↔
        ∃ R n, e = ((R, "positivity"), n) ∧ selected_method (returned L) R = Some n) ∧
  (∀ R n, selected_method (returned L) R = Some n → ∃ m, m ∈ methods ∧ n = name m).
Proof.
  intros Hrun Hnames. split; [exact (run_provenance_NoDup _ _ _ _ _ _ Hrun)|].
  split; [exact (run_provenance_entry _ _ _ _ _ _ Hrun)|].
  intros R n [(cells & [Hin _]%(elem_of_all_recent_data _ _ _ _ _ _ Hrun)) _]%(run_selected_least _ _ _ _ _ _ Hrun).
  apply (run_all_wide_elem _ _ _ _ _ _ Hrun Hnames) in Hin as (m & Hm & -> & _). eauto.
Qed.

Lemma provenance_is_one_method_per_region_witness :
  ∃ L, run_body ["cases"; "tests"] Examples.stale_and_fresh Examples.cases_over_tests 1 14
       = inr L ∧
       provenance (test_positivity (returned L)) = [(("new", "positivity"), "cases_tests")] ∧
       NoDup (provenance (test_positivity (returned L))).*1.
Proof.
  assert (∃ L, run_body ["cases"; "tests"] Examples.stale_and_fresh Examples.cases_over_tests
                 1 14 = inr L) as [L Hrun] by (eexists; vm_compute; reflexivity).
  exists L. split; [exact Hrun|].
  destruct (provenance_is_one_method_per_region _ _ _ _ _ _ Hrun) as [Hnd _].
  - by apply (bool_decide_unpack _).
  - split; [|exact Hnd]. vm_compute in Hrun. injection Hrun as <-. vm_compute. reflexivity.
Defined.

Lemma filter_none {A} (P : A → Prop) `{!∀ x, Decision (P x)} (l : list A) :
  (∀ x, x ∈ l → ¬ P x) → filter P l = [].
Proof.
  induction l as [|x l IH]; intros Hall; [done|].
  rewrite filter_cons_False by (apply Hall; left). apply IH. intros y Hy. apply Hall. by right.
Qed.

Lemma filter_all {A} (P : A → Prop) `{!∀ x, Decision (P x)} (l : list A) :
  (∀ x, x ∈ l → P x) → filter P l = l.
Proof.
  induction l as [|x l IH]; intros Hall; [done|].
  rewrite filter_cons_True by (apply Hall; left). f_equal. apply IH. intros y Hy.
  apply Hall. by right.
Qed.

(** ** The lag and the recency window at their bounds *)

Lemma candidate_zero_lag (long : list (Observation (option Z))) m R d :
  candidate long 0 m R d = NaN.
Proof.
  unfold candidate, delta. rewrite Z.sub_0_r.
  destruct (reading long (numerator m, R) d) as [a|]; [|done].
  destruct (reading long (denominator m, R) d) as [b|]; [|done].
  simpl. by rewrite !Z.sub_diag.
Qed.

Section RunEdges.
Context (cols : list string) (ds : MultiRegionTimeseriesDataset (option Z))
(methods : list Method) (diff_days : Z) (recent_days : nat) (L : Locals).
Hypothesis Hrun : run_body cols ds methods diff_days recent_days = inr L.
Hypothesis Hnames : NoDup (name <$> methods).

Let long := timeseries_long ds cols.
Let T := all_methods_timeseries (returned L).

(** The date axis runs from the earliest to the latest requested date. *)
Lemma run_axis :
∃ s e, s ≤ e ∧ input_date_range L = seqZ s (e - s + 1) ∧
recent_date_range L = intersection (date_range_end e recent_days) (seqZ s (e - s + 1)) ∧
∀ d, d ∈ input_date_range L ↔ s ≤ d ≤ e.
Proof.
destruct (run_bounds _ _ _ _ _ _ Hrun) as (s & e & Hs & He & Hrange & Hrecent).
exists s, e. apply dates_min_spec in Hs as [Hs1 Hs2]. apply dates_max_spec in He as [He1 He2].
split; [by apply Hs2|]. split; [done|]. split; [done|].
intros d. rewrite Hrange. apply elem_of_date_range.
Qed.

Lemma candidate_outside_lag m R d :
d - diff_days ∉ input_date_range L → candidate long diff_days m R d = NaN.
Proof.
intros Hd. unfold candidate, delta, long.
rewrite !(run_reading_outside _ _ _ _ _ _ Hrun _ (d - diff_days) Hd).
by destruct (reading _ (numerator m, R) d).
Qed.

Lemma run_table_cell_nan R d :
(∀ m, m ∈ methods → candidate long diff_days m R d = NaN) →
∀ n, cell_of T (R, n) d = NaN.
Proof.
intros Hall n. unfold cell_of, T.
destruct (row_of _ (R, n)) as [cells|] eqn:Hrow; [|done].
apply assoc_Some_elem_of in Hrow.
apply (run_table_rows _ _ _ _ _ _ Hrun Hnames) in Hrow as (m & Hm & -> & -> & _).
rewrite (run_returned_table _ _ _ _ _ _ Hrun), (run_columns _ _ _ _ _ _ Hrun), at_label_fmap.
case_decide; [by apply Hall|done].
Qed.

Lemma run_table_empty :
(∀ m R d, m ∈ methods → d ∈ input_date_range L → candidate long diff_days m R d = NaN) →
rows T = [].
Proof.
intros Hall. destruct (rows T) as [|[[R n] cells] rs] eqn:Hrows; [done|].
assert (((R, n), cells) ∈ rows T) as Hin by (rewrite Hrows; left).
apply (run_table_rows _ _ _ _ _ _ Hrun Hnames) in Hin as (m & Hm & _ & _ & d & Hd & Hc).
destruct Hc. by apply Hall.
Qed.

Lemma run_nothing_selected :
(∀ R n, ¬ recent_viable (returned L) (recent_date_range L) R n) →
provenance (test_positivity (returned L)) = [] ∧ data_long (test_positivity (returned L)) = [].
Proof.
intros Hnone.
assert (∀ R, selected_method (returned L) R = None) as Hsel.
{ intros R. destruct (selected_method (returned L) R) as [n|] eqn:Hn; [|done].
apply (run_selected_first _ _ _ _ _ _ Hrun) in Hn as [Hv _]. by destruct (Hnone R n). }
split.
- destruct (provenance _) as [|e es] eqn:Hp; [done|].
assert (e ∈ provenance (test_positivity (returned L))) as He by (rewrite Hp; left).
apply (run_provenance_entry _ _ _ _ _ _ Hrun) in He as (R & n & _ & Hn).
by rewrite Hsel in Hn.
- destruct (data_long _) as [|o os] eqn:Hd; [done|].
assert (o ∈ data_long (test_positivity (returned L))) as Ho by (rewrite Hd; left).
apply (elem_of_run_records _ _ _ _ _ _ Hrun) in Ho as (_ & _ & n & cells & Hin).
destruct (Hnone (location_id o) n). apply (recent_viable_row _ _ _ _ _ _ Hrun). eauto.
Qed.
End RunEdges.

(** X12. No value without a full lag: on a date [d] such that
    [d - diff_days] falls off the date axis (with a positive lag, the
    first [diff_days] days of the axis), every cell of the table of all
    methods is missing and so is the positivity returned, for every
    region. *)
Theorem no_value_without_a_full_lag cols ds methods diff_days recent_days L R d :
  run_body cols ds methods diff_days recent_days = inr L →
  NoDup (name <$> methods) →
  d - diff_days ∉ input_date_range L →
  (∀ n, cell_of (all_methods_timeseries (returned L)) (R, n) d = NaN) ∧
  positivity_at (returned L) R d = NaN.
Proof.
  intros Hrun Hnames Hd.
  assert (∀ n, cell_of (all_methods_timeseries (returned L)) (R, n) d = NaN) as Hcells.
  { apply (run_table_cell_nan _ _ _ _ _ _ Hrun Hnames). intros m _.
    by apply (candidate_outside_lag _ _ _ _ _ _ Hrun). }
  split; [done|]. apply (run_positivity_nan _ _ _ _ _ _ Hrun Hnames). auto.
Qed.

(** With a lag of one day, day 0 of [four_days] has no positivity. *)
Lemma no_value_without_a_full_lag_witness :
  ∃ L, run_body ["cases"; "tests"] Examples.four_days Examples.cases_over_tests 1 14 = inr L ∧
       positivity_at (returned L) "R" 0 = NaN.
Proof.
  assert (∃ L, run_body ["cases"; "tests"] Examples.four_days Examples.cases_over_tests 1 14
               = inr L) as [L Hrun] by (eexists; vm_compute; reflexivity).
  exists L. split; [exact Hrun|].
  apply (no_value_without_a_full_lag _ _ _ _ _ _ "R" 0 Hrun).
  - by apply (bool_decide_unpack _).
  - vm_compute in Hrun. injection Hrun as <-. simpl.
    intros Hin. elem_cases Hin; discriminate Hin.
Defined.

(** X13. A lag that gives no delta gives an empty result.  When
    [diff_days] is 0 every delta is 0 or missing, so that every ratio is
    0 / 0 or missing; when [diff_days] is, in absolute value, at least the
    number of days of the date axis, every delta is missing.  In both
    cases a run that returns has a table of all methods without rows, no
    provenance and no positivity record. *)
Theorem degenerate_lag_gives_nothing cols ds methods diff_days recent_days L :
  run_body cols ds methods diff_days recent_days = inr L →
  NoDup (name <$> methods) →
  diff_days = 0 ∨ Z.of_nat (length (input_date_range L)) ≤ Z.abs diff_days →
  rows (all_methods_timeseries (returned L)) = [] ∧
  provenance (test_positivity (returned L)) = [] ∧
  data_long (test_positivity (returned L)) = [].
Proof.
  intros Hrun Hnames Hlag.
  assert (rows (all_methods_timeseries (returned L)) = []) as Hrows.
  { apply (run_table_empty _ _ _ _ _ _ Hrun Hnames). intros m R d _ Hd.
    destruct Hlag as [Hzero|Hlong].
    - subst diff_days. apply candidate_zero_lag.
    - apply (candidate_outside_lag _ _ _ _ _ _ Hrun).
      destruct (run_axis _ _ _ _ _ _ Hrun) as (s & e & Hse & Hrange & _ & Hin).
      rewrite Hrange, length_seqZ in Hlong. rewrite Hin in Hd. rewrite Hin. lia. }
  split; [done|]. apply (run_nothing_selected _ _ _ _ _ _ Hrun).
  intros R n (cells & d & Hin & _). rewrite Hrows in Hin. by apply elem_of_nil in Hin.
Qed.

Lemma degenerate_lag_gives_nothing_witness :
  ∃ L, run_body ["cases"; "tests"] Examples.four_days Examples.cases_over_tests 0 14 = inr L ∧
       rows (all_methods_timeseries (returned L)) = [] ∧
       provenance (test_positivity (returned L)) = [] ∧
       data_long (test_positivity (returned L)) = [].
Proof.
  assert (∃ L, run_body ["cases"; "tests"] Examples.four_days Examples.cases_over_tests 0 14
               = inr L) as [L Hrun] by (eexists; vm_compute; reflexivity).
  exists L. split; [exact Hrun|].
  apply (degenerate_lag_gives_nothing _ _ _ _ _ _ Hrun).
  - by apply (bool_decide_unpack _).
  - by left.
Defined.

(** X14. With [recent_days = 0] the recency window is empty: a run that
    returns still builds the whole table of all methods, but records no
    method and returns no positivity. *)
Theorem empty_window_selects_nothing cols ds methods diff_days L :
  run_body cols ds methods diff_days 0 = inr L →
  recent_date_range L = [] ∧
  provenance (test_positivity (returned L)) = [] ∧
  data_long (test_positivity (returned L)) = [].
Proof.
  intros Hrun.
  assert (recent_date_range L = []) as Hrecent.
  { by destruct (run_bounds _ _ _ _ _ _ Hrun) as (s & e & _ & _ & _ & ->). }
  split; [done|]. apply (run_nothing_selected _ _ _ _ _ _ Hrun).
  intros R n (cells & d & _ & Hd & _). rewrite Hrecent in Hd. by apply elem_of_nil in Hd.
Qed.

Lemma empty_window_selects_nothing_witness :
  ∃ L, run_body ["cases"; "tests"] Examples.four_days Examples.cases_over_tests 1 0 = inr L ∧
       length (rows (all_methods_timeseries (returned L))) = 1%nat ∧
       provenance (test_positivity (returned L)) = [].
Proof.
  assert (∃ L, run_body ["cases"; "tests"] Examples.four_days Examples.cases_over_tests 1 0
               = inr L) as [L Hrun] by (eexists; vm_compute; reflexivity).
  exists L. split; [exact Hrun|].
  split; [|exact (proj1 (proj2 (empty_window_selects_nothing _ _ _ _ _ Hrun)))].
  vm_compute in Hrun. injection Hrun as <-. reflexivity.
Defined.

(** X15. With a recency window at least as long as the date axis, the
    window is the whole axis, and every region with a row in the table of
    all methods has a recorded method. *)
Theorem full_window_selects_every_region cols ds methods diff_days recent_days L :
  run_body cols ds methods diff_days recent_days = inr L →
  NoDup (name <$> methods) →
  (length (input_date_range L) ≤ recent_days)%nat →
  recent_date_range L = input_date_range L ∧
  ∀ R n cells, ((R, n), cells) ∈ rows (all_methods_timeseries (returned L)) →
               ∃ n', selected_method (returned L) R = Some n'.
Proof.
  intros Hrun Hnames Hlen.
  destruct (run_axis _ _ _ _ _ _ Hrun) as (s & e & Hse & Hrange & Hrecent & Hin).
  assert (recent_date_range L = input_date_range L) as Heq.
  { rewrite Hrecent, Hrange. unfold intersection.
    rewrite Hrange, length_seqZ in Hlen. unfold date_range_end.
    assert (seqZ (e - Z.of_nat recent_days + 1) (Z.of_nat recent_days)
            = (seqZ (e - Z.of_nat recent_days + 1) (s - (e - Z.of_nat recent_days + 1))
               ++ seqZ s (e - s + 1))%list) as ->.
    { transitivity (seqZ (e - Z.of_nat recent_days + 1)
                      ((s - (e - Z.of_nat recent_days + 1)) + (e - s + 1))); [f_equal; lia|].
      rewrite seqZ_app by lia. do 2 f_equal. lia. }
    rewrite filter_app.
    rewrite filter_none, filter_all; [done|auto|].
    intros d Hd. rewrite !elem_of_seqZ in *. lia. }
  split; [done|]. intros R n cells Hrow.
  pose proof Hrow as (m & Hm & -> & -> & d & Hd & Hc)%(run_table_rows _ _ _ _ _ _ Hrun Hnames).
  assert (recent_viable (returned L) (recent_date_range L) R (name m))
    as [cells' Hin']%(recent_viable_row _ _ _ _ _ _ Hrun);
    [|by eapply run_selected_nonempty].
  exists (candidate (timeseries_long ds cols) diff_days m R <$> input_date_range L), d.
  split; [done|]. split; [by rewrite Heq|].
  rewrite (run_returned_table _ _ _ _ _ _ Hrun), (run_columns _ _ _ _ _ _ Hrun), at_label_fmap.
  rewrite decide_True by done. by destruct (candidate _ _ m R d).
Qed.

Lemma full_window_selects_every_region_witness :
  ∃ L, run_body ["cases"; "tests"] Examples.four_days Examples.cases_over_tests 1 14 = inr L ∧
       recent_date_range L = [0; 1; 2; 3] ∧
       ∃ n', selected_method (returned L) "R" = Some n'.
Proof.
  assert (∃ L, run_body ["cases"; "tests"] Examples.four_days Examples.cases_over_tests 1 14
               = inr L) as [L Hrun] by (eexists; vm_compute; reflexivity).
  exists L. split; [exact Hrun|].
  destruct (full_window_selects_every_region _ _ _ _ _ _ Hrun) as [Hwindow Hsel].
  - by apply (bool_decide_unpack _).
  - vm_compute in Hrun. injection Hrun as <-. vm_compute. lia.
  - split.
    + rewrite Hwindow. vm_compute in Hrun. injection Hrun as <-. reflexivity.
    + apply (Hsel "R" "cases_tests" [NaN; Quot 5 100; Quot 10 100; Quot 15 100]).
      vm_compute in Hrun. injection Hrun as <-. left.
Defined.

(** ** What the result depends on *)

(** The table of all methods is computed from the delta table, and the
    store from the table of all methods and the recency window. *)
Lemma run_all_wide_of_diff cols ds methods diff_days recent_days L :
  run_body cols ds methods diff_days recent_days = inr L →
  ∃ frames c, calculate_all methods (diff_df L) = inr frames ∧
    concat (columns (diff_df L)) frames = inr c ∧
    all_wide L = sort_index (dropna_all (reorder_levels c)).
Proof.
  intros Hrun. apply run_body_inv in Hrun as Hinv.
  destruct Hinv as (s&e&u&frames&c&_&_&_&_&Hf&Hc&_&_&_&Hw&Hd&Ha&_).
  exists frames, c. split; [done|]. split; [|done]. by rewrite Hd, Hw.
Qed.

Lemma all_wide_ext cols1 cols2 ds1 ds2 methods p1 p2 r1 r2 L1 L2 :
  run_body cols1 ds1 methods p1 r1 = inr L1 →
  run_body cols2 ds2 methods p2 r2 = inr L2 →
  diff_df L1 = diff_df L2 → all_wide L1 = all_wide L2.
Proof.
  intros (f1 & c1 & Hf1 & Hc1 & ->)%run_all_wide_of_diff
         (f2 & c2 & Hf2 & Hc2 & ->)%run_all_wide_of_diff Heq.
  rewrite Heq, Hf2 in Hf1. injection Hf1 as <-.
  rewrite Heq, Hc2 in Hc1. by injection Hc1 as <-.
Qed.

Lemma returned_ext cols1 cols2 ds1 ds2 methods1 methods2 p1 p2 r1 r2 L1 L2 :
  run_body cols1 ds1 methods1 p1 r1 = inr L1 →
  run_body cols2 ds2 methods2 p2 r2 = inr L2 →
  all_wide L1 = all_wide L2 → recent_date_range L1 = recent_date_range L2 →
  returned L1 = returned L2.
Proof.
  intros H1 H2 Hwide Hrecent.
  apply run_body_inv in H1 as (?&?&?&?&?&_&_&_&_&_&_&_&_&_&_&_&_&Hr1&Hf1&->).
  apply run_body_inv in H2 as (?&?&?&?&?&_&_&_&_&_&_&_&_&_&_&_&_&Hr2&Hf2&->).
  rewrite Hf1, Hf2, Hr1, Hr2, Hwide, Hrecent. done.
Qed.

Lemma diff_df_same_store cols ds methods1 methods2 p r1 r2 L1 L2 :
  run_body cols ds methods1 p r1 = inr L1 →
  run_body cols ds methods2 p r2 = inr L2 →
  input_date_range L1 = input_date_range L2 ∧ diff_df L1 = diff_df L2.
Proof.
  intros H1 H2.
  destruct (run_bounds _ _ _ _ _ _ H1) as (s1 & e1 & Hs1 & He1 & Hr1 & _).
  destruct (run_bounds _ _ _ _ _ _ H2) as (s2 & e2 & Hs2 & He2 & Hr2 & _).
  assert (input_date_range L1 = input_date_range L2) as Hrange
    by (rewrite Hr1, Hr2; congruence).
  split; [done|].
  by rewrite (run_diff_df _ _ _ _ _ _ H1), (run_diff_df _ _ _ _ _ _ H2), Hrange.
Qed.

(** X16. The table of all methods does not depend on [recent_days]: a run
    returns for one window exactly when it returns for another, with the
    same table.  A longer window records a method for every region for
    which a shorter one does. *)
Theorem table_does_not_depend_on_the_window cols ds methods diff_days r1 r2 L1 :
  run_body cols ds methods diff_days r1 = inr L1 →
  ∃ L2, run_body cols ds methods diff_days r2 = inr L2 ∧
    all_methods_timeseries (returned L2) = all_methods_timeseries (returned L1) ∧
    ((r1 ≤ r2)%nat →
     ∀ R, is_Some (selected_method (returned L1) R) →
          is_Some (selected_method (returned L2) R)).
Proof.
  intros H1.
  destruct (runnable_run_body cols ds methods diff_days r2
              (run_body_runnable _ _ _ _ _ _ H1)) as [L2 H2].
  exists L2. split; [done|].
  destruct (diff_df_same_store _ _ _ _ _ _ _ _ _ H1 H2) as [Hrange Hdiff].
  pose proof (all_wide_ext _ _ _ _ _ _ _ _ _ _ _ H1 H2 Hdiff) as Hwide.
  assert (all_methods_timeseries (returned L2) = all_methods_timeseries (returned L1)) as Htable
    by (by rewrite (run_returned_table _ _ _ _ _ _ H1), (run_returned_table _ _ _ _ _ _ H2)).
  split; [done|]. intros Hle R [n Hn].
  apply (run_selected_first _ _ _ _ _ _ H1) in Hn as [(cells & d & Hin & Hd & Hna) _].
  assert (recent_viable (returned L2) (recent_date_range L2) R n)
    as [cells' Hin']%(recent_viable_row _ _ _ _ _ _ H2).
  { exists cells, d. rewrite Htable. split; [done|]. split; [|done].
    apply (elem_of_recent_date_range _ _ _ _ _ _ H1) in Hd as (Hd & e & He & Hde).
    apply (elem_of_recent_date_range _ _ _ _ _ _ H2). split; [by rewrite <- Hrange|].
    exists e. split; [done|]. lia. }
  destruct (run_selected_nonempty _ _ _ _ _ _ _ _ _ H2 Hin') as [n' Hn']. by exists n'.
Qed.

(** Region "old" of [stale_and_fresh] has no method with a window of 14
    days and has one with a window of 40 days; the table is the same. *)
Lemma table_does_not_depend_on_the_window_witness :
  ∃ L1 L2,
    run_body ["cases"; "tests"] Examples.stale_and_fresh Examples.cases_over_tests 1 14
    = inr L1 ∧
    run_body ["cases"; "tests"] Examples.stale_and_fresh Examples.cases_over_tests 1 40
    = inr L2 ∧
    all_methods_timeseries (returned L2) = all_methods_timeseries (returned L1) ∧
    selected_method (returned L1) "old" = None ∧
    selected_method (returned L2) "old" = Some "cases_tests".
Proof.
  assert (∃ L, run_body ["cases"; "tests"] Examples.stale_and_fresh Examples.cases_over_tests
                 1 14 = inr L) as [L1 H1] by (eexists; vm_compute; reflexivity).
  destruct (table_does_not_depend_on_the_window _ _ _ _ _ 40%nat _ H1) as (L2 & H2 & Htable & _).
  exists L1, L2. split; [exact H1|]. split; [exact H2|]. split; [exact Htable|].
  vm_compute in H1, H2. injection H1 as <-. injection H2 as <-.
  split; vm_compute; reflexivity.
Defined.

Lemma run_with_from_deltas cols ds methods diff_days recent_days :
  run_with cols ds methods diff_days recent_days =
  let* _ := assert_ (forallb (λ c, bool_decide (c ∈ data_columns ds)) cols) in
  let* start_date := not_nat (dates_min (date <$> timeseries_long ds cols)) in
  let* end_date := not_nat (dates_max (date <$> timeseries_long ds cols)) in
  let* unstacked := unstack (timeseries_long ds cols) in
  run_from_deltas methods (date_range start_date end_date)
    (intersection (date_range_end end_date recent_days) (date_range start_date end_date))
    (diff diff_days (reindex_columns (date_range start_date end_date) unstacked)).
Proof.
  unfold run_with, run_body, run_from_deltas.
  destruct (assert_ _) as [?|[]]; simpl; [done|].
  destruct (not_nat (dates_min _)) as [?|start_date]; simpl; [done|].
  destruct (not_nat (dates_max _)) as [?|end_date]; simpl; [done|].
  destruct (unstack _) as [?|unstacked]; simpl; [done|].
  destruct (calculate_all _ _) as [?|frames]; simpl; [done|].
  destruct (concat _ _) as [?|concatenated]; simpl; [done|].
  destruct (CategoricalDtype _) as [?|method_cat_type]; simpl; done.
Qed.

(** *** The records that are read *)

Lemma filter_requested {V} (cols : list string) (c : string) (l : list (Observation V)) :
  c ∈ cols →
  filter (λ o, variable o = c) (filter (λ o, variable o ∈ cols) l)
  = filter (λ o, variable o = c) l.
Proof.
  intros Hc. induction l as [|o l IH]; [done|].
  destruct (decide (variable o = c)) as [Ho|Ho].
  - rewrite (filter_cons_True (λ o, variable o ∈ cols)) by (by rewrite Ho).
    rewrite !(filter_cons_True (λ o, variable o = c)) by done. by rewrite IH.
  - rewrite (filter_cons_False (λ o, variable o = c) o l) by done.
    destruct (decide (variable o ∈ cols)).
    + rewrite (filter_cons_True (λ o, variable o ∈ cols)) by done.
      by rewrite (filter_cons_False (λ o, variable o = c)).
    + by rewrite (filter_cons_False (λ o, variable o ∈ cols)).
Qed.

Lemma flat_map_perm_ext {A B} (f g : A → list B) (l : list A) :
  (∀ x, x ∈ l → f x ≡ₚ g x) → flat_map f l ≡ₚ flat_map g l.
Proof.
  induction l as [|x l IH]; intros Hfg; simpl; [done|].
  rewrite (Hfg x) by left. rewrite IH; [done|]. intros y Hy. apply Hfg. by right.
Qed.

Lemma timeseries_long_requested {V} (ds1 ds2 : MultiRegionTimeseriesDataset V) cols :
  filter (λ o, variable o ∈ cols) (data_long ds1)
  ≡ₚ filter (λ o, variable o ∈ cols) (data_long ds2) →
  timeseries_long ds1 cols ≡ₚ timeseries_long ds2 cols.
Proof.
  intros Hp. unfold timeseries_long. apply flat_map_perm_ext. intros c Hc.
  rewrite <- (filter_requested cols c (data_long ds1) Hc).
  rewrite <- (filter_requested cols c (data_long ds2) Hc). by rewrite Hp.
Qed.

Lemma run_with_long_perm cols1 cols2 ds1 ds2 methods diff_days recent_days :
  forallb (λ c, bool_decide (c ∈ data_columns ds1)) cols1
  = forallb (λ c, bool_decide (c ∈ data_columns ds2)) cols2 →
  timeseries_long ds1 cols1 ≡ₚ timeseries_long ds2 cols2 →
  run_with cols1 ds1 methods diff_days recent_days
  = run_with cols2 ds2 methods diff_days recent_days.
Proof.
  intros Hassert Hlong. rewrite !run_with_from_deltas.
  rewrite Hassert, (unstack_perm _ _ Hlong).
  rewrite (dates_min_ext (date <$> timeseries_long ds1 cols1)
             (date <$> timeseries_long ds2 cols2)) by (intros d; by rewrite Hlong).
  rewrite (dates_max_ext (date <$> timeseries_long ds1 cols1)
             (date <$> timeseries_long ds2 cols2)) by (intros d; by rewrite Hlong).
  done.
Qed.

(** X20. [AllMethods.run] reads the records of the fields of its methods
    and nothing else, and does not depend on the order in which the store
    holds them: two stores that agree on which fields of the methods are
    columns and hold the same records of those fields, in any order, give
    the same result or the same exception.  Records of other variables and
    the provenance of the input have no effect. *)
Theorem run_reads_the_requested_records_only ds1 ds2 methods diff_days recent_days :
  (∀ c, c ∈ method_fields methods → c ∈ data_columns ds1 ↔ c ∈ data_columns ds2) →
  filter (λ o, variable o ∈ method_fields methods) (data_long ds1)
  ≡ₚ filter (λ o, variable o ∈ method_fields methods) (data_long ds2) →
  run ds1 methods diff_days recent_days = run ds2 methods diff_days recent_days.
Proof.
  intros Hcols Hrecords. unfold run. apply run_with_long_perm.
  - apply eq_true_iff_eq. rewrite !forallb_columns.
    split; intros H c Hc; apply Hcols, H; try done; by apply elem_of_ts_value_cols_of.
  - apply timeseries_long_requested.
    assert (∀ l : list (Observation (option Z)),
              filter (λ o, variable o ∈ ts_value_cols_of methods) l
              = filter (λ o, variable o ∈ method_fields methods) l) as Hfilter.
    { intros l. apply list_filter_iff. intros o. apply elem_of_ts_value_cols_of. }
    by rewrite !Hfilter.
Qed.

(** The records of [four_days] in another order, with records of deaths
    and another provenance. *)
Lemma run_reads_the_requested_records_only_witness :
  run Examples.four_days Examples.cases_over_tests 1 14 =
  run (mkDataset ["tests"; "deaths"; "cases"]
         (daily "deaths" "R" 0 [1; 1] ++ daily "tests" "R" 0 [100; 200; 300; 400] ++
          daily "cases" "R" 0 [10; 15; 25; 40])
         [(("R", "cases"), "a source")])
      Examples.cases_over_tests 1 14.
Proof.
  apply run_reads_the_requested_records_only.
  - intros c Hc. elem_cases Hc; subst c; split; intros _; by apply (bool_decide_unpack _).
  - vm_compute. apply (Permutation_app_comm
      [_; _; _; _] [_; _; _; _]).
Defined.

(** *** The level of the counters *)

Section Offset.
Context (c : string * string → Z).
Implicit Types (long : list (Observation (option Z))).

Let shift (o : Observation (option Z)) : Observation (option Z) :=
mkObservation (variable o) (location_id o) (date o) ((λ x, x + c (obs_key o)) <$> value o).

Lemma timeseries_long_add_offset ds cols :
timeseries_long (add_offset c ds) cols = shift <$> timeseries_long ds cols.
Proof.
unfold timeseries_long, add_offset; simpl. fold shift.
induction cols as [|v cols IH]; [done|]. simpl. rewrite fmap_app, IH. f_equal.
clear. induction (data_long ds) as [|o l IH]; [done|]. rewrite fmap_cons.
destruct (decide (variable o = v)) as [Ho|Ho].
- rewrite !filter_cons_True by done. by rewrite fmap_cons, IH.
- by rewrite !filter_cons_False.
Qed.

Lemma shift_dates long : date <$> (shift <$> long) = date <$> long.
Proof. by rewrite <- list_fmap_compose. Qed.

Lemma shift_keys long : obs_key <$> (shift <$> long) = obs_key <$> long.
Proof. by rewrite <- list_fmap_compose. Qed.

Lemma shift_entries long : (obs_entry <$> (shift <$> long)).*1 = (obs_entry <$> long).*1.
Proof. by rewrite <- !list_fmap_compose. Qed.

Lemma reading_shift long k d :
reading (shift <$> long) k d = (λ x, x + c k) <$> reading long k d.
Proof.
unfold reading. induction long as [|o long IH]; [done|].
rewrite !fmap_cons. unfold obs_entry at 1 3. rewrite !assoc_cons. simpl.
change (obs_key (shift o)) with (obs_key o).
destruct (decide ((obs_key o, date o) = (k, d))) as [[= <- <-]|Hne]; [done|]. apply IH.
Qed.

Lemma delta_shift long p k d : delta (shift <$> long) p k d = delta long p k d.
Proof.
unfold delta. rewrite !reading_shift.
destruct (reading long k d), (reading long k (d - p)); simpl; try done. f_equal. lia.
Qed.
End Offset.

(** The delta table, from the readings. *)
Lemma diff_reindex_unstack long u s e p :
  unstack long = inr u →
  dates_min (date <$> long) = Some s → dates_max (date <$> long) = Some e →
  diff p (reindex_columns (date_range s e) u) =
  mkDataFrame (date_range s e)
    ((λ k, (k, delta long p k <$> date_range s e)) <$> unique_sorted pair_leb (obs_key <$> long)).
Proof.
  intros Hu [_ Hs]%dates_min_spec [_ He]%dates_max_spec.
  rewrite (reindex_unstack _ _ _ Hu). unfold date_range.
  rewrite (diff_dense (reading long)); [done|].
  intros k d Hd. apply reading_unobserved. intros o Ho _ <-.
  specialize (Hs (date o) (list_elem_of_fmap_2 _ _ _ Ho)).
  specialize (He (date o) (list_elem_of_fmap_2 _ _ _ Ho)). lia.
Qed.

(** X19. Only increments count: raising every reading of a (variable,
    region) series by a constant of that series changes neither the result
    of [AllMethods.run] nor the exception it raises. *)
Theorem run_ignores_the_level_of_counters c ds methods diff_days recent_days :
  run (add_offset c ds) methods diff_days recent_days = run ds methods diff_days recent_days.
Proof.
  unfold run. rewrite !run_with_from_deltas. rewrite timeseries_long_add_offset.
  rewrite shift_dates. simpl data_columns.
  destruct (assert_ _) as [?|[]]; simpl; [done|].
  destruct (dates_min _) as [s|] eqn:Hs; simpl; [|done].
  destruct (dates_max _) as [e|] eqn:He; simpl; [|done].
  set (long := timeseries_long ds (ts_value_cols_of methods)) in *.
  set (long' := _ <$> long).
  destruct (unstack long) as [err|u] eqn:Hu, (unstack long') as [err'|u'] eqn:Hu'; simpl.
  - assert (err = ValueError ∧ err' = ValueError) as [-> ->]; [|done].
    split; [revert Hu|revert Hu']; unfold unstack; case_decide; unfold ret, raise; congruence.
  - apply unstack_inr in Hu' as [Hnd _]. unfold long' in Hnd. rewrite shift_entries in Hnd.
    unfold unstack in Hu. by rewrite decide_True in Hu.
  - apply unstack_inr in Hu as [Hnd _]. unfold unstack, long' in Hu'.
    rewrite shift_entries in Hu'. by rewrite decide_True in Hu'.
  - assert (dates_min (date <$> long') = Some s) as Hs' by (unfold long'; by rewrite shift_dates).
    assert (dates_max (date <$> long') = Some e) as He' by (unfold long'; by rewrite shift_dates).
    rewrite (diff_reindex_unstack _ _ _ _ _ Hu Hs He).
    rewrite (diff_reindex_unstack _ _ _ _ _ Hu' Hs' He').
    unfold long'. rewrite shift_keys.
    assert (∀ k, delta ((λ o : Observation (option Z),
                   mkObservation (variable o) (location_id o) (date o)
                     ((λ x, x + c (obs_key o)) <$> value o)) <$> long) diff_days k
                 <$> date_range s e
                 = delta long diff_days k <$> date_range s e) as Hdelta.
    { intros k. apply list_fmap_ext. intros _ d _. apply delta_shift. }
    do 2 f_equal. apply list_fmap_ext. intros _ k _. by rewrite Hdelta.
Qed.

(** *** The order of the registry *)

Lemma calculate_all_KeyError methods df e : calculate_all methods df = inl e → e = KeyError.
Proof. by intros (m & _ & [-> _]%calculate_fails)%calculate_from_fails. Qed.

Lemma NoDup_unsorted_rows_of methods df :
  NoDup (name <$> methods) → NoDup (rows df).*1 →
  (∀ m, m ∈ methods → calculate m df = inr (frame_of m df)) →
  NoDup (unsorted_rows methods df).*1.
Proof.
  intros Hnames Hdf Hall. unfold unsorted_rows. apply NoDup_filter_keys.
  rewrite <- list_fmap_compose.
  match goal with |- NoDup (?g <$> ?l) =>
    replace (g <$> l) with ((λ k : string * string, (k.2, k.1)) <$> l.*1)
      by (by rewrite <- list_fmap_compose) end.
  apply NoDup_fmap_2; [by intros [??] [??] [= -> ->]|].
  apply NoDup_concat_keys.
  - by rewrite <- list_fmap_compose.
  - intros [n f] (m & [= -> ->] & Hm)%list_elem_of_fmap. simpl.
    eapply calculate_NoDup; [by apply Hall|done].
Qed.

Lemma unsorted_rows_perm methods1 methods2 df :
  methods1 ≡ₚ methods2 → unsorted_rows methods1 df ≡ₚ unsorted_rows methods2 df.
Proof.
  intros Hp. unfold unsorted_rows.
  apply filter_Permutation, fmap_Permutation, Permutation_flat_map, fmap_Permutation, Hp.
Qed.

(** The table of all methods, when the names of the methods are
    distinct. *)
Lemma table_of_frames methods axis df frames :
  calculate_all methods df = inr frames → methods ≠ [] → NoDup (name <$> methods) →
  ∃ c, concat axis frames = inr c ∧
       sort_index (dropna_all (reorder_levels c))
       = mkDataFrame axis (sort_by fst pair_leb (unsorted_rows methods df)).
Proof.
  intros Hf Hne Hnames.
  apply calculate_all_inr in Hf as [-> _]; [|done].
  destruct methods as [|m methods]; [done|]. eexists. split; [done|]. done.
Qed.

Lemma run_from_deltas_perm methods1 methods2 axis recent df :
  methods1 ≡ₚ methods2 → NoDup (name <$> methods1) → NoDup (rows df).*1 →
  run_from_deltas methods1 axis recent df = run_from_deltas methods2 axis recent df.
Proof.
  intros Hp Hnames1 Hdf.
  assert (NoDup (name <$> methods2)) as Hnames2 by (by rewrite <- Hp).
  unfold run_from_deltas.
  destruct (calculate_all methods1 df) as [e1|f1] eqn:Hf1,
           (calculate_all methods2 df) as [e2|f2] eqn:Hf2.
  - apply calculate_all_KeyError in Hf1 as ->. by apply calculate_all_KeyError in Hf2 as ->.
  - apply calculate_from_fails in Hf1 as (m & Hm & He).
    rewrite Hp in Hm. destruct (calculate_from_each _ _ _ _ Hf2 m Hm) as [f Hf]. congruence.
  - apply calculate_from_fails in Hf2 as (m & Hm & He).
    rewrite <- Hp in Hm. destruct (calculate_from_each _ _ _ _ Hf1 m Hm) as [f Hf]. congruence.
  - destruct (decide (methods1 = [])) as [->|Hne1].
    { apply Permutation_nil_l in Hp. subst methods2. rewrite Hf1 in Hf2. by injection Hf2 as ->. }
    assert (methods2 ≠ []) as Hne2 by (intros ->; by apply Permutation_nil_r in Hp).
    pose proof (calculate_all_inr _ _ _ Hf1 Hnames1) as [_ Hall1].
    destruct (table_of_frames _ axis _ _ Hf1 Hne1 Hnames1) as (c1 & Hc1 & Hw1).
    destruct (table_of_frames _ axis _ _ Hf2 Hne2 Hnames2) as (c2 & Hc2 & Hw2).
    cbn [bind]. rewrite Hc1, Hc2. cbn [bind]. unfold CategoricalDtype.
    rewrite !decide_True by done. cbn [bind ret]. rewrite Hw1, Hw2.
    rewrite (sort_by_unique fst pair_leb (unsorted_rows methods1 df)
               (unsorted_rows methods2 df)); [done| |by apply unsorted_rows_perm].
    by apply NoDup_unsorted_rows_of.
Qed.

Lemma method_fields_perm methods1 methods2 :
  methods1 ≡ₚ methods2 → ts_value_cols_of methods1 ≡ₚ ts_value_cols_of methods2.
Proof.
  intros Hp. unfold ts_value_cols_of. apply NoDup_Permutation; [apply NoDup_remove_dups..|].
  intros c. rewrite !elem_of_remove_dups. unfold method_fields.
  by rewrite (Permutation_flat_map (λ m, [numerator m; denominator m]) Hp).
Qed.

(** X17. The order of the registry has no effect: with distinct method
    names, [AllMethods.run] gives the same table of all methods, the same
    recorded methods and the same positivity, or raises the same
    exception, for every arrangement of the same methods. *)
Theorem registry_order_has_no_effect ds methods1 methods2 diff_days recent_days :
  methods1 ≡ₚ methods2 → NoDup (name <$> methods1) →
  run ds methods1 diff_days recent_days = run ds methods2 diff_days recent_days.
Proof.
  intros Hp Hnames. unfold run.
  pose proof (method_fields_perm _ _ Hp) as Hcols.
  transitivity (run_with (ts_value_cols_of methods2) ds methods1 diff_days recent_days).
  - apply run_with_long_perm; [|by apply timeseries_long_perm].
    apply eq_true_iff_eq. rewrite !forallb_columns. by setoid_rewrite Hcols.
  - rewrite !run_with_from_deltas.
    destruct (assert_ _) as [?|[]]; simpl; [done|].
    destruct (not_nat (dates_min _)) as [?|s]; simpl; [done|].
    destruct (not_nat (dates_max _)) as [?|e]; simpl; [done|].
    destruct (unstack _) as [?|u] eqn:Hu; simpl; [done|].
    apply run_from_deltas_perm; [done..|].
    rewrite diff_keys, reindex_keys, (unstack_keys _ _ Hu). apply NoDup_unique_sorted.
Qed.

(** The registry of [run] read backwards. *)
Lemma registry_order_has_no_effect_witness :
  run Examples.two_viral_numerators TEST_POSITIVITY_METHODS 7 14 =
  run Examples.two_viral_numerators (reverse TEST_POSITIVITY_METHODS) 7 14.
Proof.
  apply registry_order_has_no_effect.
  - symmetry. apply reverse_Permutation.
  - by apply (bool_decide_unpack _).
Defined.

(** ** The default registry *)

Lemma filter_split {A} (P Q : A → Prop) `{!∀ x, Decision (P x)} `{!∀ x, Decision (Q x)}
    (l : list A) :
  (∀ x, P x → Q x → False) →
  filter (λ x, P x ∨ Q x) l ≡ₚ (filter P l ++ filter Q l)%list.
Proof.
  intros Hdisj. induction l as [|x l IH]; [done|].
  destruct (decide (P x)) as [HP|HP]; [|destruct (decide (Q x)) as [HQ|HQ]].
  - rewrite (filter_cons_True (λ x, P x ∨ Q x)) by (by left).
    rewrite (filter_cons_True P) by done.
    rewrite (filter_cons_False Q) by (intros HQ; by apply (Hdisj x)).
    simpl. by rewrite IH.
  - rewrite (filter_cons_True (λ x, P x ∨ Q x)) by (by right).
    rewrite (filter_cons_False P) by done. rewrite (filter_cons_True Q) by done.
    rewrite IH. apply Permutation_middle.
  - rewrite (filter_cons_False (λ x, P x ∨ Q x)) by tauto.
    rewrite (filter_cons_False P) by done. by rewrite (filter_cons_False Q).
Qed.

(** The requested records are the records of the requested fields. *)
Lemma timeseries_long_filter {V} (ds : MultiRegionTimeseriesDataset V) cols :
  NoDup cols →
  timeseries_long ds cols ≡ₚ filter (λ o, variable o ∈ cols) (data_long ds).
Proof.
  unfold timeseries_long. induction 1 as [|c cols Hc Hnd IH]; simpl.
  - symmetry. apply Permutation_nil_r. apply filter_none. by intros o _ ?%elem_of_nil.
  - rewrite IH.
    rewrite <- (filter_split (λ o, variable o = c) (λ o, variable o ∈ cols)).
    + assert (filter (λ o : Observation V, variable o ∈ c :: cols) (data_long ds)
              = filter (λ o, variable o = c ∨ variable o ∈ cols) (data_long ds)) as ->; [|done].
      apply list_filter_iff. intros o. rewrite elem_of_cons. done.
    + intros o -> Hin. done.
Qed.

Lemma run_returns_iff ds methods diff_days recent_days :
  (∃ res, run ds methods diff_days recent_days = inr res) ↔
  methods ≠ [] ∧
  NoDup (name <$> methods) ∧
  (∀ c, c ∈ method_fields methods →
        c ∈ data_columns ds ∧ ∃ o, o ∈ data_long ds ∧ variable o = c) ∧
  NoDup (obs_entry <$> filter (λ o, variable o ∈ method_fields methods) (data_long ds)).*1.
Proof.
  assert (NoDup (obs_entry <$> timeseries_long ds (ts_value_cols_of methods)).*1 ↔
          NoDup (obs_entry <$> filter (λ o, variable o ∈ method_fields methods)
                                 (data_long ds)).*1) as Hnd.
  { rewrite (timeseries_long_filter ds (ts_value_cols_of methods)) by apply NoDup_remove_dups.
    assert (filter (λ o, variable o ∈ ts_value_cols_of methods) (data_long ds)
            = filter (λ o, variable o ∈ method_fields methods) (data_long ds)) as ->; [|done].
    apply list_filter_iff. intros o. apply elem_of_ts_value_cols_of. }
  rewrite <- Hnd, run_returns, runnable_run. split.
  - intros (Hne & Hnames & Hcols & Hobs & Hdup). split; [done|]. split; [done|].
    split; [|done]. intros c Hc. split; auto.
  - intros (Hne & Hnames & Hfields & Hdup). split; [done|]. split; [done|].
    split; [intros c Hc; by apply Hfields|]. split; [intros c Hc; by apply Hfields|done].
Qed.

(** X21. The default registry has six methods with distinct names, on
    seven fields.  With it, [AllMethods.run] returns exactly when each of
    the seven fields is a column of the store and has at least one record,
    in some region, and no two records of these fields share variable,
    region and date; a store that lacks all records of one of the seven
    fields cannot be run with the default registry. *)
Theorem default_registry_needs_seven_fields ds diff_days recent_days :
  length TEST_POSITIVITY_METHODS = 6%nat ∧
  NoDup (name <$> TEST_POSITIVITY_METHODS) ∧
  ((∃ res, run ds TEST_POSITIVITY_METHODS diff_days recent_days = inr res) ↔
   (∀ c, c ∈ [CommonFields.POSITIVE_CASES_VIRAL; CommonFields.TOTAL_TEST_ENCOUNTERS_VIRAL;
              CommonFields.POSITIVE_TESTS_VIRAL; CommonFields.TOTAL_TESTS_VIRAL;
              CommonFields.POSITIVE_TESTS; CommonFields.TOTAL_TESTS_PEOPLE_VIRAL;
              CommonFields.TOTAL_TESTS] →
         c ∈ data_columns ds ∧ ∃ o, o ∈ data_long ds ∧ variable o = c) ∧
   NoDup (obs_entry <$> filter (λ o, variable o ∈ method_fields TEST_POSITIVITY_METHODS)
                          (data_long ds)).*1).
Proof.
  split; [done|]. split; [by apply (bool_decide_unpack _)|].
  rewrite run_returns_iff.
  assert (∀ c, c ∈ method_fields TEST_POSITIVITY_METHODS ↔
               c ∈ [CommonFields.POSITIVE_CASES_VIRAL; CommonFields.TOTAL_TEST_ENCOUNTERS_VIRAL;
                    CommonFields.POSITIVE_TESTS_VIRAL; CommonFields.TOTAL_TESTS_VIRAL;
                    CommonFields.POSITIVE_TESTS; CommonFields.TOTAL_TESTS_PEOPLE_VIRAL;
                    CommonFields.TOTAL_TESTS]) as Hfields.
  { intros c. simpl. rewrite !elem_of_cons, !elem_of_nil. tauto. }
  split.
  - intros (_ & _ & Hall & Hnd). split; [|done]. intros c Hc. by apply Hall, Hfields.
  - intros (Hall & Hnd). split; [done|]. split; [by apply (bool_decide_unpack _)|].
    split; [|done]. intros c Hc. by apply Hall, Hfields.
Qed.

(** ** A registry with a repeated name *)

(** X18. A registry that names a method twice cannot be run: whatever the
    store, [AllMethods.run] raises.  When every field of the methods is a
    column of the store and has a record, and no two requested records
    share an index entry, the exception is the [ValueError] of
    [pd.CategoricalDtype], which is raised after the table of all methods
    has been computed. *)
Theorem repeated_name_raises ds methods diff_days recent_days :
  ¬ NoDup (name <$> methods) →
  (∃ e, run ds methods diff_days recent_days = inl e) ∧
  ((∀ c, c ∈ method_fields methods →
         c ∈ data_columns ds ∧ ∃ o, o ∈ data_long ds ∧ variable o = c) →
   NoDup (obs_entry <$> timeseries_long ds (ts_value_cols_of methods)).*1 →
   run ds methods diff_days recent_days = inl ValueError).
Proof.
  intros Hrep.
  assert (∀ res, run ds methods diff_days recent_days ≠ inr res) as Hnever.
  { intros res Hres.
    destruct (proj1 (run_returns ds methods diff_days recent_days) (ex_intro _ res Hres))
      as (_ & _ & Hnames & _). done. }
  split.
  - destruct (run ds methods diff_days recent_days) as [e|res] eqn:Hrun; [by exists e|].
    by destruct (Hnever res).
  - intros Hfields Hnd.
    destruct (run ds methods diff_days recent_days) as [e|res] eqn:Hrun;
      [|by destruct (Hnever res)].
    destruct e; [| |done].
    + apply run_assertion_error in Hrun as (c & Hc & Hno). by destruct (Hfields c Hc).
    + apply run_key_error_inv in Hrun as (_ & _ & _ & c & Hc & Hno).
      destruct (Hfields c Hc) as (_ & o & Ho & Hv). by destruct (Hno o Ho).
Qed.

(** Two methods called "m" on a store that has records of all their
    fields. *)
Lemma repeated_name_raises_witness :
  run Examples.gap_in_fallback [mkMethod "m" "a" "t"; mkMethod "m" "b" "t"] 1 14
  = inl ValueError.
Proof.
  apply repeated_name_raises.
  - simpl. intros [Hin _]%NoDup_cons. apply Hin. left.
  - intros c Hc. elem_cases Hc; subst c;
      (split; [by apply (bool_decide_unpack _)|]);
      [exists (obs "a" "R" 0 1)|exists (obs "t" "R" 0 10)
      |exists (obs "b" "R" 0 3)|exists (obs "t" "R" 0 10)];
      (split; [by apply (bool_decide_unpack _)|reflexivity]).
  - by apply (bool_decide_unpack _).
Defined.
